(** * Smilet: quiz generation, normalisation and the quiz-play session

    A shallow embedding of the logic of the Smilet quiz application:

    - [JsString]      JavaScript strings as sequences of UTF-16 code units, with
                      the string methods and the regular-expression
                      replacements the response clean-up uses;
    - [Json]          the values [JSON.parse] produces, truthiness, property
                      reads, and a reference parser for concrete examples;
    - [Normalizer]    the clean-up and validation of the provider's quiz text;
    - [Provider]      the text-generation provider and the code that calls it;
    - [Prompts]       the prompts;
    - [Handler]       the two serverless handlers (quiz and hint);
    - [Direct]        the direct-provider client with its simplified-prompt
                      retry and [getTopicSpecificInstructions];
    - [Client]        the fetch-based client ([generateHint],
                      [generateQuizQuestions]);
    - [QuizGame]      the quiz-play component state, [handleAnswerSelect],
                      the callback that advances or finishes the quiz, the
                      timer effects and the events of a mounted component;
    - [ResultsPage]   the counts of the results screen;
    - [TopicInput]    the submission of the topic form;
    - [DeepDive]      the hint pre-fetch of the review page;
    - [EndToEnd]      the fetch-based client with the handlers behind it;
    - [Spec]          the vocabulary of the specification.

    The definitions come first; the properties follow from [Properties] on. *)

From Stdlib Require Import ZArith NArith QArith Bool Ascii String Lia.
From Stdlib Require Import DecimalString.
From stdpp Require Import base list option gmap.

Local Open Scope nat_scope.
Set Warnings "-register-all".

(* ===================================================================== *)
(** ** JavaScript strings *)
(* ===================================================================== *)

Module JsString.

(** A JavaScript string is a sequence of 16-bit code units. *)
Definition jsstring := list N.

(** An ASCII literal as a JavaScript string. *)
Fixpoint lit (s : string) : jsstring :=
  match s with
  | EmptyString => []
  | String c r => N_of_ascii c :: lit r
  end.

#[global] Arguments lit : simpl never.

Definition LF : N := 10%N.
Definition DQUOTE : N := 34%N.
Definition SQUOTE : N := 39%N.
Definition COMMA : N := 44%N.
Definition BACKTICK : N := 96%N.
Definition LBRACE : N := 123%N.
Definition RBRACE : N := 125%N.
Definition RBRACKET : N := 93%N.

(** An ASCII literal in which every apostrophe stands for a double quote:
    a readable way to write JSON text. *)
Definition jlit (s : string) : jsstring :=
  map (fun c => if N.eqb c SQUOTE then DQUOTE else c) (lit s).

(** Decimal rendering of a natural number, as a template literal
    interpolates a non-negative integer below 10^21; from there on
    JavaScript prints a number in exponent form, which is not represented. *)
Definition ofN (n : N) : jsstring := lit (NilZero.string_of_uint (N.to_uint n)).
#[global] Arguments ofN : simpl never.

(** The same for an integer that may be negative. *)
Definition ofZ (z : Z) : jsstring := lit (NilZero.string_of_int (Z.to_int z)).
#[global] Arguments ofZ : simpl never.

(** [ls.join(sep)] *)
Fixpoint joinWith (sep : jsstring) (ls : list jsstring) : jsstring :=
  match ls with
  | [] => []
  | [l] => l
  | l :: r => l ++ sep ++ joinWith sep r
  end.

(** [\s] of a regular expression, which is also the set [String.prototype.trim]
    removes: TAB, LF, VT, FF, CR, SPACE, NBSP, the Unicode space separators,
    LS, PS and the BOM. *)
Definition is_space (c : N) : bool :=
  ((9 <=? c) && (c <=? 13) || (c =? 32) || (c =? 160) || (c =? 5760)
   || (8192 <=? c) && (c <=? 8202) || (c =? 8232) || (c =? 8233)
   || (c =? 8239) || (c =? 8287) || (c =? 12288) || (c =? 65279))%N.

Fixpoint trimStart (s : jsstring) : jsstring :=
  match s with
  | [] => []
  | c :: r => if is_space c then trimStart r else s
  end.

Definition trimEnd (s : jsstring) : jsstring := rev (trimStart (rev s)).

Definition trim (s : jsstring) : jsstring := trimEnd (trimStart s).

Fixpoint startsWith (p s : jsstring) : bool :=
  match p, s with
  | [], _ => true
  | _ :: _, [] => false
  | a :: p', b :: s' => N.eqb a b && startsWith p' s'
  end.

Definition endsWith (p s : jsstring) : bool := startsWith (rev p) (rev s).

(** [s.includes(p)] *)
Fixpoint includes (p s : jsstring) : bool :=
  startsWith p s || match s with [] => false | _ :: r => includes p r end.

(** [s.indexOf(c)] for a one-character needle; [-1] when absent. *)
Fixpoint indexOf (c : N) (s : jsstring) : Z :=
  match s with
  | [] => (-1)%Z
  | a :: r => if N.eqb a c then 0%Z
              else let i := indexOf c r in if (i <? 0)%Z then (-1)%Z else (i + 1)%Z
  end.

(** [s.lastIndexOf(c)] for a one-character needle; [-1] when absent. *)
Definition lastIndexOf (c : N) (s : jsstring) : Z :=
  let i := indexOf c (rev s) in
  if (i <? 0)%Z then (-1)%Z else (Z.of_nat (length s) - 1 - i)%Z.

(** [s.substring(a, b)]: both bounds are clamped to [0, length], and swapped
    when [a > b]. *)
Definition substring (s : jsstring) (a b : Z) : jsstring :=
  let clamp x := Z.to_nat (Z.max 0 (Z.min x (Z.of_nat (length s)))) in
  let lo := Nat.min (clamp a) (clamp b) in
  let hi := Nat.max (clamp a) (clamp b) in
  take (hi - lo) (drop lo s).

(** [s.toLowerCase()] on the ASCII letters. Code units outside A-Z are left
    as they are: the keywords this program searches for are plain lower-case
    ASCII words. *)
Definition lowerChar (c : N) : N :=
  if ((65 <=? c) && (c <=? 90))%N then (c + 32)%N else c.

Definition toLowerCase (s : jsstring) : jsstring := map lowerChar s.

(** *** Anchored replacements *)

(** [s.replace(/^P\s*/, empty)] for a literal [P]: when [s] starts with [P],
    drop it together with the white space that follows. *)
Definition stripLeading (p s : jsstring) : jsstring :=
  if startsWith p s then trimStart (drop (length p) s) else s.

(** [s.replace(/\s*P$/, empty)] for a literal [P] of non-space characters:
    the leftmost match ending at the end of [s] starts at the maximal run of
    white space in front of the final [P]. *)
Definition stripTrailing (p s : jsstring) : jsstring :=
  if endsWith p s then trimEnd (take (length s - length p) s) else s.

(** *** Global replacements

    [s.replace(/re/g, ...)] scans [s] from the left; where the expression
    matches, the match is replaced and scanning resumes behind it; elsewhere
    the character is copied. A matcher looks at the text from the current
    position on and returns the replacement together with the length of the
    match (never zero for the expressions below). *)
Definition matcher := jsstring -> option (jsstring * nat).

Fixpoint replaceFrom (m : matcher) (skip : nat) (s : jsstring) : jsstring :=
  match s with
  | [] => []
  | c :: r =>
      match skip with
      | S k => replaceFrom m k r
      | O =>
          match m s with
          | Some (repl, len) => repl ++ replaceFrom m (len - 1) r
          | None => c :: replaceFrom m 0 r
          end
      end
  end.

Definition replaceAll (m : matcher) (s : jsstring) : jsstring := replaceFrom m 0 s.

Fixpoint spaceRun (s : jsstring) : jsstring :=
  match s with
  | c :: r => if is_space c then c :: spaceRun r else []
  | [] => []
  end.

(** Position just behind the last LF of [s], if [s] has one. *)
Fixpoint behindLastLF (s : jsstring) : option nat :=
  match s with
  | [] => None
  | c :: r =>
      match behindLastLF r with
      | Some k => Some (S k)
      | None => if N.eqb c LF then Some 1 else None
      end
  end.

(** [/[\u201C\u201D]/g]: a curly double quote becomes a plain double quote. *)
Definition smartDouble : matcher := fun s =>
  match s with
  | c :: _ => if (N.eqb c 8220 || N.eqb c 8221)%N then Some ([DQUOTE], 1) else None
  | [] => None
  end.

(** [/[\u2018\u2019]/g]: a curly single quote becomes an apostrophe. *)
Definition smartSingle : matcher := fun s =>
  match s with
  | c :: _ => if (N.eqb c 8216 || N.eqb c 8217)%N then Some ([SQUOTE], 1) else None
  | [] => None
  end.

(** [/\n\s*\n/g], replaced by one LF: an LF, then the greedy [\s*] takes the whole run of
    white space and gives characters back until an LF follows, so the match
    ends with the last LF of that run. *)
Definition blankLines : matcher := fun s =>
  match s with
  | c :: r =>
      if N.eqb c LF then
        match behindLastLF (spaceRun r) with
        | Some k => Some ([LF], S k)
        | None => None
        end
      else None
  | [] => None
  end.

(** [/,(\s*[}\]])/g], replaced by group 1: a comma, a run of white space and a closing
    brace or bracket; the comma is dropped, group 1 is kept. *)
Definition trailingComma : matcher := fun s =>
  match s with
  | c :: r =>
      if N.eqb c COMMA then
        let ws := spaceRun r in
        match drop (length ws) r with
        | d :: _ =>
            if (N.eqb d RBRACE || N.eqb d RBRACKET)%N
            then Some (ws ++ [d], S (S (length ws)))
            else None
        | [] => None
        end
      else None
  | [] => None
  end.

End JsString.

Import JsString.

(* ===================================================================== *)
(** ** Exceptions and completions *)
(* ===================================================================== *)

Inductive ErrorKind := ErrorK | SyntaxErrorK | TypeErrorK.

(** What a [throw] (or a rejected promise) carries: an [Error] instance with
    its message, or some value that is not an [Error] instance and has no
    message of its own, such as a string. The values [null] and [undefined],
    on which the read of a message itself throws, are not represented. *)
Inductive Thrown :=
  | Err (kind : ErrorKind) (message : jsstring)
  | NotAnError.

(** The outcome of running a piece of code: it returns or it throws. *)
Inductive Completion (A : Type) :=
  | Return (a : A)
  | Throw (e : Thrown).
Arguments Return {A} a.
Arguments Throw {A} e.

#[global] Instance Completion_ret : MRet Completion := @Return.

#[global] Instance Completion_bind : MBind Completion := fun A B k c =>
  match c with
  | Return a => k a
  | Throw e => Throw e
  end.

(** [try { c } catch (e) { h e }] *)
Definition tryCatch {A} (c : Completion A) (h : Thrown -> Completion A) : Completion A :=
  match c with
  | Return a => Return a
  | Throw e => h e
  end.

(* ===================================================================== *)
(** ** JSON values *)
(* ===================================================================== *)

Module Json.

Inductive JSValue :=
  | JNull
  | JBool (b : bool)
  | JNumber (q : Q)
  | JString (s : jsstring)
  | JArray (items : list JSValue)
  | JObject (fields : list (jsstring * JSValue)).

(** The result of a property read is a value or [undefined]. *)
Definition Slot := option JSValue.

(** The own property [name] of an object built by [JSON.parse]; of two members
    with the same key the later one counts. *)
Fixpoint lookupField (name : jsstring) (fields : list (jsstring * JSValue)) : Slot :=
  match fields with
  | [] => None
  | (k, v) :: r =>
      match lookupField name r with
      | Some w => Some w
      | None => if bool_decide (k = name) then Some v else None
      end
  end.

Definition truthy (v : JSValue) : bool :=
  match v with
  | JNull => false
  | JBool b => b
  | JNumber q => negb (Qeq_bool q 0)
  | JString s => negb (bool_decide (s = []))
  | JArray _ | JObject _ => true
  end.

(** [!!x] *)
Definition truthySlot (x : Slot) : bool :=
  match x with Some v => truthy v | None => false end.

(** [Array.isArray(x)] *)
Definition isArray (x : Slot) : bool :=
  match x with Some (JArray _) => true | _ => false end.

(** [x.length] of an array. *)
Definition arrayLength (x : Slot) : nat :=
  match x with Some (JArray l) => length l | _ => 0 end.

Definition Qltb (a b : Q) : bool := negb (Qle_bool b a).

(** *** A reference [JSON.parse]

    The theorems below hold for every [JSON.parse]; this parser of the JSON
    grammar makes the concrete examples run on real response text. Numbers
    are kept exact (no rounding to a double). *)

Definition isJsonSpace (c : N) : bool :=
  ((c =? 32) || (c =? 9) || (c =? 10) || (c =? 13))%N.

Fixpoint skipWs (s : jsstring) : jsstring :=
  match s with
  | c :: r => if isJsonSpace c then skipWs r else s
  | [] => []
  end.

Definition digitOf (c : N) : option Z :=
  if ((48 <=? c) && (c <=? 57))%N then Some (Z.of_N c - 48)%Z else None.

Definition hexOf (c : N) : option N :=
  if ((48 <=? c) && (c <=? 57))%N then Some (c - 48)%N
  else if ((97 <=? c) && (c <=? 102))%N then Some (c - 87)%N
  else if ((65 <=? c) && (c <=? 70))%N then Some (c - 55)%N
  else None.

(** The characters of a string literal, behind its opening quote. *)
Fixpoint parseChars (s : jsstring) : option (jsstring * jsstring) :=
  match s with
  | [] => None
  | c :: r =>
      if (c =? 34)%N then Some ([], r)
      else if (c <? 32)%N then None
      else if (c =? 92)%N then
        match r with
        | e :: r' =>
            let simple (x : N) :=
              match parseChars r' with
              | Some (cs, rest) => Some (x :: cs, rest)
              | None => None
              end in
            if (e =? 34)%N then simple 34%N
            else if (e =? 92)%N then simple 92%N
            else if (e =? 47)%N then simple 47%N
            else if (e =? 98)%N then simple 8%N
            else if (e =? 102)%N then simple 12%N
            else if (e =? 110)%N then simple 10%N
            else if (e =? 114)%N then simple 13%N
            else if (e =? 116)%N then simple 9%N
            else if (e =? 117)%N then
              match r' with
              | h1 :: h2 :: h3 :: h4 :: r'' =>
                  match hexOf h1, hexOf h2, hexOf h3, hexOf h4, parseChars r'' with
                  | Some a, Some b, Some c', Some d, Some (cs, rest) =>
                      Some ((a * 4096 + b * 256 + c' * 16 + d)%N :: cs, rest)
                  | _, _, _, _, _ => None
                  end
              | _ => None
              end
            else None
        | [] => None
        end
      else
        match parseChars r with
        | Some (cs, rest) => Some (c :: cs, rest)
        | None => None
        end
  end.

(** A run of decimal digits: its value continued from [acc], how many digits
    were read, and the rest. *)
Fixpoint parseDigits (acc : Z) (n : nat) (s : jsstring) : Z * nat * jsstring :=
  match s with
  | c :: r =>
      match digitOf c with
      | Some d => parseDigits (acc * 10 + d)%Z (S n) r
      | None => (acc, n, s)
      end
  | [] => (acc, n, s)
  end.

Definition scale (m e : Z) : Q :=
  if (0 <=? e)%Z then inject_Z (m * 10 ^ e)
  else Qmake m (Z.to_pos (10 ^ (- e))).

(** [-? int frac? exp?] *)
Definition parseNumber (s : jsstring) : option (JSValue * jsstring) :=
  let '(sign, s1) :=
    match s with
    | c :: r => if (c =? 45)%N then ((-1)%Z, r) else (1%Z, s)
    | [] => (1%Z, s)
    end in
  let '(i, ni, s2) := parseDigits 0 0 s1 in
  let leadingZero :=
    match s1 with c :: _ => (c =? 48)%N && (1 <? ni) | [] => false end in
  if (ni =? 0) || leadingZero then None else
  let fracPart :=
    match s2 with
    | c :: r =>
        if (c =? 46)%N then
          let '(m, nf, s3) := parseDigits i 0 r in
          if nf =? 0 then None else Some (m, nf, s3)
        else Some (i, 0, s2)
    | [] => Some (i, 0, s2)
    end in
  match fracPart with
  | None => None
  | Some (m, nf, s3) =>
      let expPart :=
        match s3 with
        | c :: r =>
            if ((c =? 101) || (c =? 69))%N then
              let '(esign, r1) :=
                match r with
                | x :: r0 => if (x =? 45)%N then ((-1)%Z, r0)
                             else if (x =? 43)%N then (1%Z, r0) else (1%Z, r)
                | [] => (1%Z, r)
                end in
              let '(e, ne, s4) := parseDigits 0 0 r1 in
              if ne =? 0 then None else Some ((esign * e)%Z, s4)
            else Some (0%Z, s3)
        | [] => Some (0%Z, s3)
        end in
      match expPart with
      | None => None
      | Some (e, s4) => Some (JNumber (scale (sign * m) (e - Z.of_nat nf)), s4)
      end
  end.

Inductive Mode :=
  | MValue
  | MElements (acc : list JSValue)
  | MMembers (acc : list (jsstring * JSValue)).

Fixpoint parseJson (fuel : nat) (mode : Mode) (s : jsstring) : option (JSValue * jsstring) :=
  match fuel with
  | O => None
  | S f =>
      match mode with
      | MValue =>
          match skipWs s with
          | [] => None
          | c :: r =>
              if (c =? 123)%N then
                match skipWs r with
                | d :: r' => if (d =? 125)%N then Some (JObject [], r')
                             else parseJson f (MMembers []) r
                | [] => None
                end
              else if (c =? 91)%N then
                match skipWs r with
                | d :: r' => if (d =? 93)%N then Some (JArray [], r')
                             else parseJson f (MElements []) r
                | [] => None
                end
              else if (c =? 34)%N then
                match parseChars r with
                | Some (cs, rest) => Some (JString cs, rest)
                | None => None
                end
              else if startsWith (lit "true") (c :: r) then Some (JBool true, drop 4 (c :: r))
              else if startsWith (lit "false") (c :: r) then Some (JBool false, drop 5 (c :: r))
              else if startsWith (lit "null") (c :: r) then Some (JNull, drop 4 (c :: r))
              else parseNumber (c :: r)
          end
      | MElements acc =>
          match parseJson f MValue s with
          | Some (v, rest) =>
              match skipWs rest with
              | c :: r =>
                  if (c =? 44)%N then parseJson f (MElements (acc ++ [v])) r
                  else if (c =? 93)%N then Some (JArray (acc ++ [v]), r)
                  else None
              | [] => None
              end
          | None => None
          end
      | MMembers acc =>
          match skipWs s with
          | q :: r =>
              if (q =? 34)%N then
                match parseChars r with
                | Some (key, rest) =>
                    match skipWs rest with
                    | c :: r1 =>
                        if (c =? 58)%N then
                          match parseJson f MValue r1 with
                          | Some (v, rest') =>
                              match skipWs rest' with
                              | d :: r2 =>
                                  if (d =? 44)%N then parseJson f (MMembers (acc ++ [(key, v)])) r2
                                  else if (d =? 125)%N then Some (JObject (acc ++ [(key, v)]), r2)
                                  else None
                              | [] => None
                              end
                          | None => None
                          end
                        else None
                    | [] => None
                    end
                | None => None
                end
              else None
          | [] => None
          end
      end
  end.

(** [JSON.parse(text)]: one value, white space around it, nothing else. *)
Definition parse (text : jsstring) : Completion JSValue :=
  match parseJson (2 * length text + 2) MValue text with
  | Some (v, rest) =>
      match skipWs rest with
      | [] => Return v
      | _ :: _ => Throw (Err SyntaxErrorK (lit "Unexpected non-whitespace character after JSON"))
      end
  | None => Throw (Err SyntaxErrorK (lit "Unexpected token in JSON"))
  end.

(** *** A reference [JSON.stringify]

    For the concrete examples: the compact text of a value. It covers the
    values whose numbers are integers of fewer than 22 digits, whose strings
    hold no surrogate code units and whose objects have distinct keys that do
    not start with a digit (JavaScript lists integer-like keys first); for
    every other value it gives [None]. *)

Definition hexDigit (n : N) : N := if (n <? 10)%N then (48 + n)%N else (87 + n)%N.

Definition quoteChar (c : N) : option jsstring :=
  if (c =? 34)%N then Some [92; 34]%N
  else if (c =? 92)%N then Some [92; 92]%N
  else if (c =? 8)%N then Some [92; 98]%N
  else if (c =? 12)%N then Some [92; 102]%N
  else if (c =? 10)%N then Some [92; 110]%N
  else if (c =? 13)%N then Some [92; 114]%N
  else if (c =? 9)%N then Some [92; 116]%N
  else if (c <? 32)%N then
    Some [92; 117; 48; 48; hexDigit (c / 16); hexDigit (c mod 16)]%N
  else if ((55296 <=? c) && (c <=? 57343))%N then None
  else Some [c].

Fixpoint quoteChars (s : jsstring) : option jsstring :=
  match s with
  | [] => Some []
  | c :: r => a ← quoteChar c; b ← quoteChars r; Some (a ++ b)
  end.

Definition quote (s : jsstring) : option jsstring :=
  cs ← quoteChars s; Some (DQUOTE :: cs ++ [DQUOTE]).

Definition stringifyNumber (q : Q) : option jsstring :=
  if (Qden q =? 1)%positive && (Z.abs (Qnum q) <? 10 ^ 21)%Z
  then Some (ofZ (Qnum q)) else None.

Definition plainKey (k : jsstring) : bool :=
  match k with
  | c :: _ => negb ((48 <=? c) && (c <=? 57))%N
  | [] => true
  end.

Fixpoint stringify (v : JSValue) : option jsstring :=
  match v with
  | JNull => Some (lit "null")
  | JBool true => Some (lit "true")
  | JBool false => Some (lit "false")
  | JNumber q => stringifyNumber q
  | JString s => quote s
  | JArray items =>
      parts ← (fix elements (l : list JSValue) : option (list jsstring) :=
                 match l with
                 | [] => Some []
                 | x :: r => a ← stringify x; b ← elements r; Some (a :: b)
                 end) items;
      Some (91%N :: joinWith [COMMA] parts ++ [RBRACKET])
  | JObject fields =>
      if forallb plainKey fields.*1 && bool_decide (NoDup fields.*1) then
        parts ← (fix members (l : list (jsstring * JSValue)) : option (list jsstring) :=
                   match l with
                   | [] => Some []
                   | (k, x) :: r =>
                       key ← quote k; a ← stringify x; b ← members r;
                       Some ((key ++ 58%N :: a) :: b)
                   end) fields;
        Some (LBRACE :: joinWith [COMMA] parts ++ [RBRACE])
      else None
  end.

(** The [TypeError] of reading a property of [null], with V8's wording. *)
Definition nullRead (name : jsstring) : Thrown :=
  Err TypeErrorK (lit "Cannot read properties of null (reading '" ++ name ++ lit "')").

End Json.

Import Json.


(* ===================================================================== *)
(** ** Response normalisation *)
(* ===================================================================== *)

(** The clean-up and validation of the provider's quiz text. The same code
    stands in the serverless handler (src/netlify/functions/generate-quiz.js,
    lines 115-160) and in the direct client (src/src/src/App.tsx, lines
    201-251 for the first response and 281-317 for the retry). *)

Module Normalizer.

Definition FENCE : jsstring := [BACKTICK; BACKTICK; BACKTICK].
Definition FENCE_JSON : jsstring := FENCE ++ lit "json".

(** Remove markdown code blocks if present. *)
Definition stripFence (jsonText : jsstring) : jsstring :=
  if startsWith FENCE_JSON jsonText then
    stripTrailing FENCE (stripLeading FENCE_JSON jsonText)
  else if startsWith FENCE jsonText then
    stripTrailing FENCE (stripLeading FENCE jsonText)
  else jsonText.

(** Additional cleanup for common AI response issues: the four global
    replacements, in the order of the source, and a final trim. *)
Definition repairPasses (jsonText : jsstring) : jsstring :=
  replaceAll trailingComma
    (replaceAll blankLines
      (replaceAll smartSingle
        (replaceAll smartDouble jsonText))).

Definition cleanup (jsonText : jsstring) : jsstring := trim (repairPasses jsonText).

(** Find the JSON object boundaries. When no pair of braces is found the
    text is left as it is (and goes to [JSON.parse] whole). *)
Definition sliceObject (jsonText : jsstring) : jsstring :=
  let jsonStart := indexOf LBRACE jsonText in
  let jsonEnd := lastIndexOf RBRACE jsonText in
  if negb (jsonStart =? -1)%Z && negb (jsonEnd =? -1)%Z && (jsonEnd >? jsonStart)%Z
  then substring jsonText jsonStart (jsonEnd + 1)
  else jsonText.

(** The text handed to [JSON.parse]. *)
Definition extractJson (text : jsstring) : jsstring :=
  sliceObject (cleanup (stripFence (trim text))).

Section Engine.

(** [JSON.parse] and the [TypeError] raised by reading a property of [null]
    belong to the JavaScript engine. *)
Variable JSON_parse : jsstring -> Completion JSValue.
Variable nullRead : jsstring -> Thrown.

(** [v.name], for the plain property names this program reads. *)
Definition getProp (v : JSValue) (name : jsstring) : Completion Slot :=
  match v with
  | JNull => Throw (nullRead name)
  | JObject fields => Return (lookupField name fields)
  | _ => Return None
  end.

Definition invalid (what : string) (index : nat) : Thrown :=
  Err ErrorK (lit what ++ lit " at index " ++ ofN (N.of_nat index)).

(** The items of an array ([[]] for anything else, never iterated). *)
Definition arrayItems (x : Slot) : list JSValue :=
  match x with Some (JArray l) => l | _ => [] end.

(** The body of the [forEach] callback that validates one question. *)
Definition checkQuestion (q : JSValue) (index : nat) : Completion unit :=
  question ← getProp q (lit "question");
  malformed ←
    (if negb (truthySlot question) then Return true
     else
       options ← getProp q (lit "options");
       Return (negb (isArray options) || negb (arrayLength options =? 4)));
  if malformed : bool then Throw (invalid "Invalid question structure" index)
  else
    correctAnswer ← getProp q (lit "correctAnswer");
    match correctAnswer with
    | Some (JNumber n) =>
        if Qltb n 0 || Qltb 3 n
        then Throw (invalid "Invalid correctAnswer" index)
        else Return tt
    | _ => Throw (invalid "Invalid correctAnswer" index)
    end.

(** [questions.forEach((q, index) => ...)] from [index] on. *)
Fixpoint forEachFrom (index : nat) (qs : list JSValue) : Completion unit :=
  match qs with
  | [] => Return tt
  | q :: rest => _ ← checkQuestion q index; forEachFrom (S index) rest
  end.

(** Validate the structure: [quizData.questions] must be truthy and an array. *)
Definition checkQuestionsArray (quizData : JSValue) (message : string)
  : Completion Slot :=
  questions ← getProp quizData (lit "questions");
  if negb (truthySlot questions) || negb (isArray questions)
  then Throw (Err ErrorK (lit message))
  else Return questions.

(** Validation of the first response: the questions array, then each question. *)
Definition validateQuiz (quizData : JSValue) : Completion JSValue :=
  questions ← checkQuestionsArray quizData
                "Invalid response structure: missing questions array";
  _ ← forEachFrom 0 (arrayItems questions);
  Return quizData.

(** Clean up, parse and validate the provider's text. *)
Definition normalizeQuiz (text : jsstring) : Completion JSValue :=
  quizData ← JSON_parse (extractJson text);
  validateQuiz quizData.

End Engine.

End Normalizer.

Import Normalizer.

(* ===================================================================== *)
(** ** The provider and the prompts *)
(* ===================================================================== *)

Inductive Difficulty := easy | medium | hard.

Definition difficultyText (d : Difficulty) : jsstring :=
  match d with
  | easy => lit "easy"
  | medium => lit "medium"
  | hard => lit "hard"
  end.

#[global] Instance Difficulty_eq_dec : EqDecision Difficulty.
Proof. solve_decision. Defined.

(** Lines of a template literal, joined by line feeds. *)
Fixpoint joinLines (ls : list jsstring) : jsstring :=
  match ls with
  | [] => []
  | [l] => l
  | l :: r => l ++ LF :: joinLines r
  end.

Module Provider.

(** The text-generation provider answers the [k]-th call of a run, made with
    some prompt, by a text or by a rejection. Code that talks to it threads
    the list of the prompts sent so far. *)
Definition Provider := nat -> jsstring -> Completion jsstring.

Definition IO (A : Type) := list jsstring -> Completion A * list jsstring.

#[global] Instance IO_ret : MRet IO := fun A a log => (Return a, log).

#[global] Instance IO_bind : MBind IO := fun A B k c log =>
  match c log with
  | (Return a, log') => k a log'
  | (Throw e, log') => (Throw e, log')
  end.

Definition lift {A} (c : Completion A) : IO A := fun log => (c, log).

Definition throw {A} (e : Thrown) : IO A := lift (Throw e).

(** [try { c } catch (e) { h e }] around code that calls the provider. *)
Definition tryIO {A} (c : IO A) (h : Thrown -> IO A) : IO A := fun log =>
  match c log with
  | (Return a, log') => (Return a, log')
  | (Throw e, log') => h e log'
  end.

(** [(await (await model.generateContent(prompt)).response).text()] *)
Definition generateContent (provider : Provider) (prompt : jsstring) : IO jsstring :=
  fun log => (provider (length log) prompt, log ++ [prompt]).

End Provider.

Import Provider.

Module Prompts.

Definition jsonShape (question a b c d why : string) (topic : jsstring) (d' : Difficulty)
  : list jsstring :=
  [ lit "{";
    jlit "  'questions': [";
    lit "    {";
    jlit "      'question': '" ++ lit question ++ jlit "',";
    jlit "      'options': ['" ++ lit a ++ jlit "', '" ++ lit b ++ jlit "', '"
      ++ lit c ++ jlit "', '" ++ lit d ++ jlit "'],";
    jlit "      'correctAnswer': 0,";
    jlit "      'explanation': '" ++ lit why ++ jlit "'";
    lit "    }";
    lit "  ],";
    jlit "  'topic': '" ++ topic ++ jlit "',";
    jlit "  'difficulty': '" ++ difficultyText d' ++ jlit "'";
    lit "}" ].

Definition opening (topic : jsstring) (d : Difficulty) (numQuestions : N) : list jsstring :=
  [ lit "Generate " ++ ofN numQuestions ++ jlit " multiple choice quiz questions about '"
      ++ topic ++ jlit "' with " ++ difficultyText d ++ lit " difficulty.";
    [];
    lit "Please return the response in this exact JSON format:" ]
  ++ jsonShape "Question text here" "Option A" "Option B" "Option C" "Option D"
       "Brief explanation of why this answer is correct" topic d
  ++ [ [];
    lit "DIFFICULTY-SPECIFIC REQUIREMENTS:";
    [];
    lit "EASY Level:";
    lit "- Basic concepts and definitions";
    lit "- Simple terminology questions";
    lit "- Straightforward scenarios";
    lit "- Common knowledge in the field";
    [];
    lit "MEDIUM Level:";
    lit "- Application of concepts to real scenarios";
    lit "- Problem-solving with multiple steps";
    lit "- Best practices and methodologies";
    lit "- Comparative analysis between options";
    [];
    lit "HARD Level:";
    lit "- Complex calculations and formulas";
    lit "- Advanced technical scenarios requiring deep expertise";
    lit "- Performance metrics, optimization problems";
    lit "- Multi-variable problem solving";
    lit "- Industry-specific edge cases and advanced techniques";
    [] ].

Definition closing (topic : jsstring) (d : Difficulty) (numQuestions : N) : list jsstring :=
  [ lit "General Requirements:";
    lit "- Each question should have exactly 4 options";
    lit "- correctAnswer should be the index (0-3) of the correct option";
    lit "- Questions should be engaging and educational";
    lit "- Explanations should be concise but informative";
    lit "- Questions should cover different aspects of the topic";
    lit "- Avoid overly obvious or trick questions";
    lit "- For hard difficulty: Include at least 3-4 calculation/analytical questions";
    lit "- Ensure mathematical accuracy for any numerical questions";
    [];
    lit "Topic: " ++ topic;
    lit "Difficulty: " ++ difficultyText d;
    lit "Number of questions: " ++ ofN numQuestions ].

(** The prompt of the serverless handler. *)
Definition quizPrompt (topic : jsstring) (d : Difficulty) (numQuestions : N) : jsstring :=
  joinLines (opening topic d numQuestions ++ closing topic d numQuestions).

(** The prompt of the direct client: the same, with the topic-specific
    instructions in between. *)
Definition directPrompt (instructions topic : jsstring) (d : Difficulty) (numQuestions : N)
  : jsstring :=
  joinLines (opening topic d numQuestions
             ++ [ lit "TECHNICAL TOPIC OPTIMIZATION:"; instructions; [] ]
             ++ closing topic d numQuestions).

(** The simplified prompt of the retry. *)
Definition simplePrompt (topic : jsstring) (d : Difficulty) (numQuestions : N) : jsstring :=
  joinLines
    ([ lit "Create " ++ ofN numQuestions ++ jlit " quiz questions about '" ++ topic
         ++ jlit "' (" ++ difficultyText d ++ lit " level). ";
       lit "Return ONLY valid JSON in this exact format with no extra text:";
       [] ]
     ++ jsonShape "Question text?" "A" "B" "C" "D" "Why A is correct" topic d).

Definition hintPrompt (question userAnswer : jsstring) : jsstring :=
  joinLines
    [ lit "Given this quiz question and the user's answer, provide a helpful hint (not the full answer):";
      [];
      lit "Question: " ++ question;
      lit "User's answer: " ++ userAnswer;
      [];
      lit "Please provide a brief, encouraging hint that guides the user toward the correct answer without giving it away completely. Keep it under 50 words." ].

End Prompts.

(** The generic hint every failure degrades to. *)
Definition fallbackHint : jsstring :=
  lit "Think about the key concepts related to this topic and consider each option carefully.".

(* ===================================================================== *)
(** ** The serverless handlers *)
(* ===================================================================== *)

(** src/netlify/functions/generate-quiz.js: the quiz handler (lines 3-177)
    and the hint handler (lines 180-258). The request body is taken as
    already decoded into its fields. *)

Module Handler.

(** A response body: empty, or [JSON.stringify] of a value. *)
Inductive Body :=
  | Empty
  | Json (v : JSValue).

Record Response := { statusCode : Z; body : Body }.

Definition errorBody (message : jsstring) : Body :=
  Json (JObject [(lit "error", JString message)]).

(** [error.message] inside a template literal: the message of an [Error]
    instance; for a value without a message the read gives [undefined],
    which the template prints as that word. *)
Definition messageText (e : Thrown) : jsstring :=
  match e with
  | Err _ m => m
  | NotAnError => lit "undefined"
  end.

(** The decoded body of a quiz request, defaults applied. An absent topic is
    the empty string; the number of questions is a non-negative integer
    below 10^21. *)
Record QuizRequest := {
  topic : jsstring;
  difficulty : Difficulty;
  numQuestions : N
}.

Record HintRequest := {
  question : jsstring;
  userAnswer : jsstring
}.

Section Engine.

Variable JSON_parse : jsstring -> Completion JSValue.
Variable nullRead : jsstring -> Thrown.
Variable provider : Provider.

(** What every handler does before its own work: the CORS pre-flight, the
    method check and the API key. *)
Definition guarded (httpMethod : jsstring) (apiKey : option jsstring)
    (work : IO Response) : IO Response :=
  if bool_decide (httpMethod = lit "OPTIONS") then
    mret {| statusCode := 200; body := Empty |}
  else if negb (bool_decide (httpMethod = lit "POST")) then
    mret {| statusCode := 405; body := errorBody (lit "Method Not Allowed") |}
  else
    match apiKey with
    | None | Some [] =>
        mret {| statusCode := 500;
                body := errorBody (lit "Server configuration error: API key not found") |}
    | Some _ => work
    end.

(** generate-quiz: one provider call, the clean-up, the validation. *)
Definition generateQuiz (httpMethod : jsstring) (apiKey : option jsstring)
    (req : QuizRequest) : IO Response :=
  guarded httpMethod apiKey
    (tryIO
       (if bool_decide (topic req = []) then
          mret {| statusCode := 400; body := errorBody (lit "Topic is required") |}
        else
          text ← generateContent provider
                   (Prompts.quizPrompt (topic req) (difficulty req) (numQuestions req));
          quizData ← lift (normalizeQuiz JSON_parse nullRead text);
          mret {| statusCode := 200; body := Json quizData |})
       (fun error =>
          mret {| statusCode := 500;
                  body := errorBody (lit "Failed to generate quiz: " ++ messageText error) |})).

(** generate-hint: one provider call; any failure answers with the generic
    hint and status 500. *)
Definition generateHint (httpMethod : jsstring) (apiKey : option jsstring)
    (req : HintRequest) : IO Response :=
  guarded httpMethod apiKey
    (tryIO
       (if bool_decide (question req = []) || bool_decide (userAnswer req = []) then
          mret {| statusCode := 400;
                  body := errorBody (lit "Question and userAnswer are required") |}
        else
          text ← generateContent provider
                   (Prompts.hintPrompt (question req) (userAnswer req));
          mret {| statusCode := 200;
                  body := Json (JObject [(lit "hint", JString (trim text))]) |})
       (fun error =>
          mret {| statusCode := 500;
                  body := Json (JObject [(lit "hint", JString fallbackHint)]) |})).

End Engine.

End Handler.

(* ===================================================================== *)
(** ** The direct-provider client *)
(* ===================================================================== *)

(** The client that calls the provider itself (src/src/src/App.tsx):
    [getTopicSpecificInstructions] (lines 56-132), [generateQuizQuestions]
    with its retry (lines 134-335) and [generateHint] (lines 337-358). *)

Module Direct.

Definition FOR_TESTING_HARD : jsstring := joinLines
  [ [];
    lit "FOR SOFTWARE TESTING (Hard):";
    lit "- Include calculation questions for non-functional testing metrics:";
    lit "  * Performance testing: throughput, response time, concurrent users";
    lit "  * Load testing: calculating system capacity and limits";
    lit "  * Memory usage calculations and optimization";
    lit "  * Test coverage percentage calculations";
    lit "  * Defect density and escape rate calculations";
    lit "- Include complex test strategy scenarios";
    lit "- Advanced automation framework questions";
    lit "- API testing with complex validation logic" ].

Definition FOR_TESTING_MEDIUM : jsstring := joinLines
  [ [];
    lit "FOR SOFTWARE TESTING (Medium):";
    lit "- Test case design techniques with examples";
    lit "- Bug lifecycle and severity/priority scenarios";
    lit "- Testing methodologies comparison";
    lit "- Basic performance testing concepts" ].

Definition FOR_TESTING_EASY : jsstring := joinLines
  [ [];
    lit "FOR SOFTWARE TESTING (Easy):";
    lit "- Basic testing terminology";
    lit "- Simple test types (unit, integration, system)";
    lit "- Basic bug reporting concepts" ].

Definition FOR_PROGRAMMING_HARD : jsstring := joinLines
  [ [];
    lit "FOR PROGRAMMING (Hard):";
    lit "- Algorithm complexity calculations (Big O notation)";
    lit "- Memory management and optimization problems";
    lit "- Performance benchmarking calculations";
    lit "- Advanced data structure operations with metrics" ].

Definition FOR_PERFORMANCE_HARD : jsstring := joinLines
  [ [];
    lit "FOR PERFORMANCE TOPICS (Hard):";
    lit "- Include numerical calculations for:";
    lit "  * Throughput calculations (requests per second)";
    lit "  * Response time analysis and percentiles";
    lit "  * Resource utilization percentages";
    lit "  * Scalability factor calculations";
    lit "  * Performance improvement ratios" ].

(** The generic quantitative-analysis instruction. *)
Definition FOR_TECHNICAL_HARD : jsstring := joinLines
  [ [];
    lit "FOR TECHNICAL TOPICS (Hard):";
    lit "- Include calculation-based questions where applicable";
    lit "- Focus on metrics, ratios, and quantitative analysis";
    lit "- Advanced problem-solving scenarios";
    lit "- Industry-specific formulas and calculations" ].

(** The generic practical-application instruction. *)
Definition PRACTICAL : jsstring :=
  lit "Focus on practical applications and real-world scenarios.".

(** The function is a sequence of guarded [return]s; each step below is one
    [if] statement of the source and yields [Some] when it returns. *)
Definition getTopicSpecificInstructions (topic : jsstring) (difficulty : Difficulty)
  : jsstring :=
  let topicLower := toLowerCase topic in
  let testing :=
    if includes (lit "software testing") topicLower || includes (lit "testing") topicLower
    then
      if bool_decide (difficulty = hard) then Some FOR_TESTING_HARD
      else if bool_decide (difficulty = medium) then Some FOR_TESTING_MEDIUM
      else Some FOR_TESTING_EASY
    else None in
  let programming :=
    if includes (lit "javascript") topicLower || includes (lit "programming") topicLower
    then if bool_decide (difficulty = hard) then Some FOR_PROGRAMMING_HARD else None
    else None in
  let performance :=
    if includes (lit "performance") topicLower || includes (lit "optimization") topicLower
    then if bool_decide (difficulty = hard) then Some FOR_PERFORMANCE_HARD else None
    else None in
  match testing, programming, performance with
  | Some r, _, _ => r
  | None, Some r, _ => r
  | None, None, Some r => r
  | None, None, None =>
      if bool_decide (difficulty = hard) then FOR_TECHNICAL_HARD else PRACTICAL
  end.

(** [error instanceof Error ? error.message : "Unknown error"] *)
Definition messageOrUnknown (e : Thrown) : jsstring :=
  match e with
  | Err _ m => m
  | NotAnError => lit "Unknown error"
  end.

Definition RETRY_FAILED : jsstring :=
  lit "Failed to parse quiz questions from AI response after retry".

(** The error every failure of [generateQuizQuestions] is wrapped in. *)
Definition quizFailure (message : jsstring) : Thrown :=
  Err ErrorK (lit "Failed to generate quiz questions: " ++ message).

Section Engine.

Variable JSON_parse : jsstring -> Completion JSValue.
Variable nullRead : jsstring -> Thrown.
Variable provider : Provider.

(** What the retry does with its response: the same clean-up and parse, then
    only the check of the questions array. *)
Definition normalizeRetry (retryText : jsstring) : Completion JSValue :=
  retryQuizData ← JSON_parse (extractJson retryText);
  _ ← checkQuestionsArray nullRead retryQuizData "Invalid retry response structure";
  Return retryQuizData.

Definition generateQuizQuestions (topic : jsstring) (difficulty : Difficulty)
    (numQuestions : N) : IO JSValue :=
  tryIO
    (text ← generateContent provider
              (Prompts.directPrompt (getTopicSpecificInstructions topic difficulty)
                 topic difficulty numQuestions);
     tryIO
       (lift (normalizeQuiz JSON_parse nullRead text))
       (fun parseError =>
          tryIO
            (retryText ← generateContent provider
                           (Prompts.simplePrompt topic difficulty numQuestions);
             lift (normalizeRetry retryText))
            (fun retryError => throw (Err ErrorK RETRY_FAILED))))
    (fun error => throw (quizFailure (messageOrUnknown error))).

Definition generateHint (question userAnswer : jsstring) : IO jsstring :=
  tryIO
    (text ← generateContent provider (Prompts.hintPrompt question userAnswer);
     mret (trim text))
    (fun error => mret fallbackHint).

End Engine.

End Direct.

(* ===================================================================== *)
(** ** The fetch-based client *)
(* ===================================================================== *)

(** src/src/src/services/geminiService.ts: [generateHint] (lines 54-84),
    which calls the hint handler, and [generateQuizQuestions] (lines 17-52),
    which calls the quiz handler. *)

Module Client.

(** The outcome of [fetch]: the promise rejects (network error), or it
    resolves to a response with a status and a body text. *)
Inductive Fetched :=
  | Rejected (e : Thrown)
  | Resolved (status : Z) (bodyText : jsstring).

(** [response.ok] *)
Definition ok (status : Z) : bool := (200 <=? status)%Z && (status <=? 299)%Z.

Section Engine.

Variable JSON_parse : jsstring -> Completion JSValue.
Variable nullRead : jsstring -> Thrown.

(** [generateHint]: what it returns is [data.hint] when that is truthy. *)
Definition generateHint (fetched : Fetched) : Completion JSValue :=
  tryCatch
    (match fetched with
     | Rejected e => Throw e
     | Resolved status bodyText =>
         if negb (ok status) then Return (JString fallbackHint)
         else
           data ← JSON_parse bodyText;
           hint ← getProp nullRead data (lit "hint");
           match hint with
           | Some v => if truthy v then Return v else Return (JString fallbackHint)
           | None => Return (JString fallbackHint)
           end
     end)
    (fun error => Return (JString fallbackHint)).

End Engine.

(** The response the browser sees for a handler response whose body was
    serialised by [stringify]. *)
Definition delivered (stringify : JSValue -> jsstring) (r : Handler.Response) : Fetched :=
  Resolved (Handler.statusCode r)
    (match Handler.body r with
     | Handler.Empty => []
     | Handler.Json v => stringify v
     end).

(** [generateQuizQuestions] (lines 17-52), which calls the quiz handler. *)

Section Quiz.

Variable JSON_parse : jsstring -> Completion JSValue.
Variable nullRead : jsstring -> Thrown.

(** The decimal text of a number ([Number.prototype.toString]) belongs to
    the engine. *)
Variable numberToString : Q -> jsstring.

(** [String(v)], which [new Error(v)] applies to its argument: an array
    joins its elements by commas, [null] elements as empty strings. *)
Fixpoint toStringValue (v : JSValue) : jsstring :=
  match v with
  | JNull => lit "null"
  | JBool true => lit "true"
  | JBool false => lit "false"
  | JNumber q => numberToString q
  | JString s => s
  | JArray items =>
      joinWith [COMMA]
        (map (fun x => match x with JNull => [] | _ => toStringValue x end) items)
  | JObject _ => lit "[object Object]"
  end.

(** [errorData.error || `HTTP ${response.status}`], as [new Error] takes it. *)
Definition errorMessage (error : Slot) (status : Z) : jsstring :=
  match error with
  | Some v => if truthy v then toStringValue v else lit "HTTP " ++ ofZ status
  | None => lit "HTTP " ++ ofZ status
  end.

(** What it returns is the parsed body of a 2xx response, as it is. *)
Definition generateQuizQuestions (fetched : Fetched) : Completion JSValue :=
  tryCatch
    (match fetched with
     | Rejected e => Throw e
     | Resolved status bodyText =>
         if negb (ok status) then
           errorData ←
             tryCatch (JSON_parse bodyText)
               (fun _ => Return (JObject [(lit "error", JString (lit "Unknown error"))]));
           error ← getProp nullRead errorData (lit "error");
           Throw (Err ErrorK (errorMessage error status))
         else JSON_parse bodyText
     end)
    (fun error => Throw (Direct.quizFailure (Direct.messageOrUnknown error))).

End Quiz.

End Client.

(* ===================================================================== *)
(** ** The quiz-play screen *)
(* ===================================================================== *)

(** The QuizGame component (src/unnamed/part_000): the questions it plays
    (lines 27-113), its state (lines 115-126), the timer effect (lines
    131-146), the timer-update effect (lines 149-151), [handleAnswerSelect]
    with the callback it schedules (lines 153-209) and
    [getAnswerButtonClass] (lines 211-228). A non-integer [correctAnswer] equals no answer index, as an
    integer out of range does, so answers and correct answers are integers
    here. The callback that hides the confetti touches [showConfetti] only
    and is left out. *)

Module QuizGame.

Record Question := {
  id : option Z;
  question : jsstring;
  options : list jsstring;
  correctAnswer : Z;
  explanation : option jsstring;
  difficulty : option Difficulty;
  timeLimit : option Z
}.

(** The mock data used when no AI-generated questions arrive. *)
Definition mockQuestions : list Question :=
  [ {| id := Some 1%Z;
       question := lit "What is the primary purpose of software testing?";
       options := [ lit "To find bugs and defects";
                    lit "To make software faster";
                    lit "To reduce development cost";
                    lit "To improve user interface" ];
       correctAnswer := 0;
       explanation := Some (lit "Software testing primarily aims to identify bugs and defects to ensure software quality.");
       difficulty := Some medium;
       timeLimit := Some 30%Z |};
    {| id := Some 2%Z;
       question := lit "Which type of testing focuses on individual components or modules?";
       options := [ lit "Integration testing";
                    lit "System testing";
                    lit "Unit testing";
                    lit "Acceptance testing" ];
       correctAnswer := 2;
       explanation := Some (lit "Unit testing focuses on testing individual components or modules in isolation.");
       difficulty := Some medium;
       timeLimit := Some 30%Z |};
    {| id := Some 3%Z;
       question := lit "What does the acronym 'TDD' stand for in software development?";
       options := [ lit "Test-Driven Development";
                    lit "Technical Design Document";
                    lit "Tool Development Division";
                    lit "Time-Driven Delivery" ];
       correctAnswer := 0;
       explanation := Some (lit "TDD stands for Test-Driven Development, where tests are written before the actual code.");
       difficulty := Some medium;
       timeLimit := Some 30%Z |};
    {| id := Some 4%Z;
       question := lit "Which testing technique involves testing without knowing the internal code structure?";
       options := [ lit "White box testing";
                    lit "Gray box testing";
                    lit "Black box testing";
                    lit "Glass box testing" ];
       correctAnswer := 2;
       explanation := Some (lit "Black box testing focuses on testing functionality without knowledge of internal implementation.");
       difficulty := Some medium;
       timeLimit := Some 30%Z |};
    {| id := Some 5%Z;
       question := lit "What is regression testing primarily concerned with?";
       options := [ lit "Testing new features";
                    lit "Ensuring existing functionality still works";
                    lit "Performance optimization";
                    lit "Security vulnerabilities" ];
       correctAnswer := 1;
       explanation := Some (lit "Regression testing ensures that new changes don't break existing functionality.");
       difficulty := Some medium;
       timeLimit := Some 30%Z |} ].

(** [location.state]: absent, or an object whose fields may be absent. *)
Record LocationState := {
  ls_topic : option jsstring;
  ls_difficulty : option jsstring;
  ls_questions : option (list Question)
}.

(** [location.state?.topic || "General Knowledge"] *)
Definition topicOf (state : option LocationState) : jsstring :=
  match state ≫= ls_topic with
  | Some (c :: t) => c :: t
  | _ => lit "General Knowledge"
  end.

(** [location.state?.difficulty || "medium"] *)
Definition difficultyOf (state : option LocationState) : jsstring :=
  match state ≫= ls_difficulty with
  | Some (c :: t) => c :: t
  | _ => lit "medium"
  end.

(** [location.state?.questions || []] *)
Definition aiQuestionsOf (state : option LocationState) : list Question :=
  match state ≫= ls_questions with
  | Some qs => qs
  | None => []
  end.

(** Use AI-generated questions or fall back to the mock data. *)
Definition questionsOf (state : option LocationState) : list Question :=
  let aiQuestions := aiQuestionsOf state in
  if 0 <? length aiQuestions then aiQuestions else mockQuestions.

(** The outcome strings handed to the results page. *)
Inductive Outcome := correct | incorrect | unanswered.

#[global] Instance Outcome_eq_dec : EqDecision Outcome.
Proof. solve_decision. Defined.

(** One entry of the [questions] array of the navigation state: the question
    spread over [id: i], and its outcome. *)
Record QuestionResult := {
  r_id : Z;
  r_question : Question;
  userAnswer : Outcome
}.

(** The state passed to [navigate("/results", ...)]. *)
Record ResultsState := {
  rs_score : Z;
  totalQuestions : nat;
  rs_topic : jsstring;
  rs_difficulty : jsstring;
  rs_questions : list QuestionResult
}.

(** What the callback scheduled by [handleAnswerSelect] closes over: the
    values of the render in which the answer was given. *)
Record Pending := {
  p_index : nat;
  p_answer : Z;
  p_question : Question;
  p_score : Z;
  p_answered : list bool;
  p_userAnswers : list Z
}.

(** The component state, the scheduled result-delay callbacks, and the
    navigations made. *)
Record State := {
  currentQuestionIndex : nat;
  selectedAnswer : option Z;
  showResult : bool;
  score : Z;
  timeLeft : Z;
  answeredQuestions : list bool;
  userAnswers : list Z;
  showConfetti : bool;
  scheduled : list Pending;
  navigated : list ResultsState
}.

Section Session.

Variable topic : jsstring.
Variable difficulty : jsstring.
Variable questions : list Question.

(** [questions[i]?.timeLimit || 30] *)
Definition timeLimitAt (i : nat) : Z :=
  match questions !! i ≫= timeLimit with
  | Some t => if (t =? 0)%Z then 30%Z else t
  | None => 30%Z
  end.

Definition initial : State :=
  {| currentQuestionIndex := 0;
     selectedAnswer := None;
     showResult := false;
     score := 0;
     timeLeft := timeLimitAt 0;
     answeredQuestions := replicate (length questions) false;
     userAnswers := replicate (length questions) (-1)%Z;
     showConfetti := false;
     scheduled := [];
     navigated := [] |}.

(** [answeredQuestions[i]] as a condition: a missing entry is falsy. *)
Definition answeredAt (answered : list bool) (i : nat) : bool :=
  default false (answered !! i).

(** [handleAnswerSelect(answerIndex)], run against the state of the latest
    render. [None] is the [TypeError] of reading [correctAnswer] from a
    current question that does not exist. The two array writes are in range
    in every state in which both arrays have one entry per question, which
    the initial state has and every step keeps (out of range JavaScript
    would extend the array, where the list insertion does nothing). *)
Definition handleAnswerSelect (answerIndex : Z) (st : State) : option State :=
  if answeredAt (answeredQuestions st) (currentQuestionIndex st) || showResult st
  then Some st
  else
    currentQuestion ← questions !! currentQuestionIndex st;
    let isCorrect := (answerIndex =? correctAnswer currentQuestion)%Z in
    Some
      {| currentQuestionIndex := currentQuestionIndex st;
         selectedAnswer := Some answerIndex;
         showResult := true;
         score := if isCorrect then (score st + 1)%Z else score st;
         timeLeft := timeLeft st;
         answeredQuestions := <[currentQuestionIndex st := true]> (answeredQuestions st);
         userAnswers := <[currentQuestionIndex st := answerIndex]> (userAnswers st);
         showConfetti := if isCorrect then true else showConfetti st;
         scheduled :=
           scheduled st
           ++ [ {| p_index := currentQuestionIndex st;
                   p_answer := answerIndex;
                   p_question := currentQuestion;
                   p_score := score st;
                   p_answered := answeredQuestions st;
                   p_userAnswers := userAnswers st |} ];
         navigated := navigated st |}.

(** The [userAnswer] of question [i] in the navigation state, computed from
    the values the callback closed over. *)
Definition outcomeOf (p : Pending) (i : nat) (q : Question) : Outcome :=
  if i =? p_index p then
    if (p_answer p =? -1)%Z then unanswered
    else if (p_answer p =? correctAnswer (p_question p))%Z then correct
    else incorrect
  else if answeredAt (p_answered p) i then
    match p_userAnswers p !! i with
    | Some a => if (a =? correctAnswer q)%Z then correct else incorrect
    | None => incorrect
    end
  else unanswered.

Definition resultsOf (p : Pending) : ResultsState :=
  let finalScore :=
    if (p_answer p =? correctAnswer (p_question p))%Z
    then (p_score p + 1)%Z else p_score p in
  {| rs_score := finalScore;
     totalQuestions := length questions;
     rs_topic := topic;
     rs_difficulty := difficulty;
     rs_questions :=
       imap (fun i q =>
               {| r_id := default (Z.of_nat i) (id q);
                  r_question := q;
                  userAnswer := outcomeOf p i q |}) questions |}.

(** The callback of [setTimeout(..., 3000)]: auto-advance to the next
    question, or finish the quiz. Without a scheduled callback nothing
    happens. *)
Definition resultDelay (st : State) : State :=
  match scheduled st with
  | [] => st
  | p :: later =>
      if (Z.of_nat (p_index p) <? Z.of_nat (length questions) - 1)%Z then
        {| currentQuestionIndex := p_index p + 1;
           selectedAnswer := None;
           showResult := false;
           score := score st;
           timeLeft := timeLeft st;
           answeredQuestions := answeredQuestions st;
           userAnswers := userAnswers st;
           showConfetti := showConfetti st;
           scheduled := later;
           navigated := navigated st |}
      else
        {| currentQuestionIndex := currentQuestionIndex st;
           selectedAnswer := selectedAnswer st;
           showResult := showResult st;
           score := score st;
           timeLeft := timeLeft st;
           answeredQuestions := answeredQuestions st;
           userAnswers := userAnswers st;
           showConfetti := showConfetti st;
           scheduled := later;
           navigated := navigated st ++ [resultsOf p] |}
  end.

(** The callback of the one-second timer: [setTimeLeft(timeLeft - 1)]. *)
Definition tick (st : State) : State :=
  {| currentQuestionIndex := currentQuestionIndex st;
     selectedAnswer := selectedAnswer st;
     showResult := showResult st;
     score := score st;
     timeLeft := (timeLeft st - 1)%Z;
     answeredQuestions := answeredQuestions st;
     userAnswers := userAnswers st;
     showConfetti := showConfetti st;
     scheduled := scheduled st;
     navigated := navigated st |}.

(** The timer effect: what it does in a render with state [st]. *)
Inductive TimerAction :=
  | ScheduleTick     (* setTimeout(() => setTimeLeft(timeLeft - 1), 1000) *)
  | TimesUp          (* handleAnswerSelect(-1) *)
  | Idle.

Definition timerEffect (st : State) : TimerAction :=
  let answered := answeredAt (answeredQuestions st) (currentQuestionIndex st) in
  if (0 <? timeLeft st)%Z && negb (showResult st) && negb answered then ScheduleTick
  else if (timeLeft st =? 0)%Z && negb answered && negb (showResult st) then TimesUp
  else Idle.

(** The state after the timer effect of a render has run. *)
Definition afterTimerEffect (st : State) : option State :=
  match timerEffect st with
  | TimesUp => handleAnswerSelect (-1) st
  | ScheduleTick | Idle => Some st
  end.

(** An answer event is a click on an option or the expiry of the timer; both
    end in [handleAnswerSelect], the expiry with the sentinel [-1]. Each is
    followed by the result delay. *)
Definition answerThenDelay (st : State) (answerIndex : Z) : option State :=
  resultDelay <$> handleAnswerSelect answerIndex st.

Fixpoint play (st : State) (answers : list Z) : option State :=
  match answers with
  | [] => Some st
  | a :: rest => st' ← answerThenDelay st a; play st' rest
  end.

(** How many questions have their recorded answer equal to their correct
    answer. *)
Fixpoint matches (qs : list Question) (answers : list Z) : Z :=
  match qs, answers with
  | q :: qs', a :: answers' =>
      ((if a =? correctAnswer q then 1 else 0) + matches qs' answers')%Z
  | _, _ => 0%Z
  end.

(** The session stands at question [k] with the first [k] of [answers]
    recorded, waiting for an answer. *)
Definition awaiting (answers : list Z) (k : nat) (st : State) : Prop :=
  currentQuestionIndex st = k /\
  showResult st = false /\
  answeredQuestions st = replicate k true ++ replicate (length questions - k) false /\
  userAnswers st = take k answers ++ replicate (length questions - k) (-1)%Z /\
  score st = matches questions (take k answers) /\
  scheduled st = [] /\
  navigated st = [].

(** The session is completed: it has navigated to the results once, from
    the callback of the last answer, which closed over the state in front of
    that answer; every question is answered, the last result is still
    showing and nothing is scheduled. *)
Definition completed (answers : list Z) (st : State) : Prop :=
  exists p,
    navigated st = [resultsOf p] /\
    S (p_index p) = length questions /\
    answers !! p_index p = Some (p_answer p) /\
    questions !! p_index p = Some (p_question p) /\
    p_score p = matches questions (take (p_index p) answers) /\
    p_answered p = replicate (p_index p) true ++ [false] /\
    p_userAnswers p = take (p_index p) answers ++ [(-1)%Z] /\
    userAnswers st = answers /\
    showResult st = true /\
    scheduled st = [].

(** The outcome the specification gives a recorded answer. *)
Definition classify (q : Question) (answer : Z) : Outcome :=
  if (answer =? correctAnswer q)%Z then correct
  else if (answer =? -1)%Z then unanswered
  else incorrect.

(** The effect that updates the timer when the question changes:
    [setTimeLeft(questions[currentQuestionIndex]?.timeLimit || 30)]. *)
Definition timerReset (st : State) : State :=
  {| currentQuestionIndex := currentQuestionIndex st;
     selectedAnswer := selectedAnswer st;
     showResult := showResult st;
     score := score st;
     timeLeft := timeLimitAt (currentQuestionIndex st);
     answeredQuestions := answeredQuestions st;
     userAnswers := userAnswers st;
     showConfetti := showConfetti st;
     scheduled := scheduled st;
     navigated := navigated st |}.

(** What happens to the mounted component, one piece of its code at a time:
    a click on an option with some index, the 3-second callback, the
    1-second callback, a run of the timer effect, a run of the timer-update
    effect. Whatever order the browser and React run them in is a list of
    these; each piece runs against the state of the latest render. *)
Inductive Event :=
  | Select (answerIndex : Z)
  | ResultDelay
  | Tick
  | TimerEffect
  | TimerReset.

Definition step (st : State) (e : Event) : option State :=
  match e with
  | Select answerIndex => handleAnswerSelect answerIndex st
  | ResultDelay => Some (resultDelay st)
  | Tick => Some (tick st)
  | TimerEffect => afterTimerEffect st
  | TimerReset => Some (timerReset st)
  end.

Fixpoint steps (st : State) (events : list Event) : option State :=
  match events with
  | [] => Some st
  | e :: rest => st' ← step st e; steps st' rest
  end.

(** [answeredQuestions.filter(Boolean).length], the progress line under the
    question card. *)
Definition completedCount (st : State) : nat :=
  length (filter (fun b => b = true) (answeredQuestions st)).

(** The session shows the result of question [k], the last of the [S k]
    recorded [answers]; the callback of this answer is scheduled and closes
    over the state in front of it. *)
Definition showing (answers : list Z) (k : nat) (st : State) : Prop :=
  exists q a,
    questions !! k = Some q /\ answers !! k = Some a /\
    currentQuestionIndex st = k /\
    showResult st = true /\
    answeredQuestions st
      = replicate (S k) true ++ replicate (length questions - S k) false /\
    userAnswers st
      = take (S k) answers ++ replicate (length questions - S k) (-1)%Z /\
    score st = matches questions (take (S k) answers) /\
    scheduled st
      = [ {| p_index := k; p_answer := a; p_question := q;
             p_score := matches questions (take k answers);
             p_answered := replicate k true ++ replicate (length questions - k) false;
             p_userAnswers :=
               take k answers ++ replicate (length questions - k) (-1)%Z |} ] /\
    navigated st = [].

(** The session is completed and still stands on its last question, with
    every question answered and the score of all the answers. *)
Definition finished (answers : list Z) (st : State) : Prop :=
  completed answers st /\
  S (currentQuestionIndex st) = length questions /\
  answeredQuestions st = replicate (length questions) true /\
  score st = matches questions answers.

(** The states a session goes through: waiting for the next answer, showing
    the result of the last answer, or completed. *)
Definition inSession (st : State) : Prop :=
  exists answers,
    (length answers < length questions /\ awaiting answers (length answers) st) \/
    (exists k, length answers = S k /\ showing answers k st) \/
    (length answers = length questions /\ finished answers st).

(** The classes of the answer buttons. *)
Definition baseClass : jsstring :=
  lit "w-full p-4 text-left rounded-xl font-medium transition-all duration-300 transform hover:-translate-y-1".

Definition OPEN_CLASS : jsstring :=
  baseClass ++ lit " bg-surface hover:bg-primary hover:text-white border-2 border-border hover:border-primary".

Definition CORRECT_CLASS : jsstring :=
  baseClass ++ lit " bg-green-500 text-white border-2 border-green-600 animate-pulse".

Definition WRONG_CLASS : jsstring :=
  baseClass ++ lit " bg-red-500 text-white border-2 border-red-600".

Definition MUTED_CLASS : jsstring :=
  baseClass ++ lit " bg-surface text-text-muted border-2 border-border opacity-50".

(** [getAnswerButtonClass(index)]; [None] is the [TypeError] of reading
    [correctAnswer] from a current question that does not exist. *)
Definition getAnswerButtonClass (st : State) (index : Z) : option jsstring :=
  if negb (showResult st) then Some OPEN_CLASS
  else
    currentQuestion ← questions !! currentQuestionIndex st;
    if (index =? correctAnswer currentQuestion)%Z then Some CORRECT_CLASS
    else if bool_decide (selectedAnswer st = Some index)
            && negb (index =? correctAnswer currentQuestion)%Z
    then Some WRONG_CLASS
    else Some MUTED_CLASS.

End Session.

End QuizGame.

(* ===================================================================== *)
(** ** The results screen *)
(* ===================================================================== *)

(** src/src/src/components/ResultsPage.tsx, lines 36-45. *)

Module ResultsPage.

Import QuizGame.

Definition withOutcome (o : Outcome) (questions : list QuestionResult) : list QuestionResult :=
  filter (fun q => userAnswer q = o) questions.

Definition correctAnswers (s : ResultsState) : nat :=
  length (withOutcome correct (rs_questions s)).

Definition incorrectAnswers (s : ResultsState) : nat :=
  length (withOutcome incorrect (rs_questions s)).

Definition unansweredQuestions (s : ResultsState) : nat :=
  length (withOutcome unanswered (rs_questions s)).

(** The questions handed to the deep-dive review. *)
Definition missedQuestions (s : ResultsState) : list QuestionResult :=
  withOutcome incorrect (rs_questions s).

End ResultsPage.

(* ===================================================================== *)
(** ** The topic form *)
(* ===================================================================== *)

(** The TopicInput component (src/unnamed/part_001): [handleSubmit] (lines
    41-73). *)

Module TopicInput.

(** The state passed to [navigate("/quiz", ...)]; [questions] is what the
    read of [quizData.questions] gave. *)
Record QuizState := {
  topic : jsstring;
  difficulty : Difficulty;
  questions : Slot;
  quizData : JSValue
}.

(** What a submission ends in: nothing at all, the navigation to the quiz,
    or the error message on the form. *)
Inductive Outcome :=
  | Ignored
  | Navigated (state : QuizState)
  | Failed (error : jsstring).

Definition GENERIC_FAILURE : jsstring :=
  lit "Failed to generate quiz questions. Please try again.".

Section Engine.

Variable nullRead : jsstring -> Thrown.

(** The imported [generateQuizQuestions]. *)
Variable generateQuizQuestions : jsstring -> Difficulty -> N -> Completion JSValue.

Definition handleSubmit (topic : jsstring) (difficulty : Difficulty) : Outcome :=
  if bool_decide (trim topic = []) then Ignored
  else
    match
      (quizData ← generateQuizQuestions (trim topic) difficulty 10%N;
       questions ← getProp nullRead quizData (lit "questions");
       Return {| topic := trim topic; difficulty := difficulty;
                 questions := questions; quizData := quizData |})
    with
    | Return state => Navigated state
    | Throw (Err _ message) => Failed message
    | Throw NotAnError => Failed GENERIC_FAILURE
    end.

End Engine.

End TopicInput.

(* ===================================================================== *)
(** ** The review of the missed questions *)
(* ===================================================================== *)

(** The DeepDive component (src/src/src/services/geminiService.ts, lines
    98-213): the effect that fetches a hint for every missed question (lines
    109-128) and the hint it shows (lines 175-178). *)

Module DeepDive.

(** A missed question as the page reads it: its [userAnswer] is a number
    (an index into the options) or one of the outcome strings. *)
Record MissedQuestion := {
  id : Z;
  question : jsstring;
  options : list jsstring;
  userAnswer : Z + QuizGame.Outcome
}.

Definition outcomeText (o : QuizGame.Outcome) : jsstring :=
  match o with
  | QuizGame.correct => lit "correct"
  | QuizGame.incorrect => lit "incorrect"
  | QuizGame.unanswered => lit "unanswered"
  end.

(** An entry of the results page, read as a missed question. *)
Definition ofResult (r : QuizGame.QuestionResult) : MissedQuestion :=
  {| id := QuizGame.r_id r;
     question := QuizGame.question (QuizGame.r_question r);
     options := QuizGame.options (QuizGame.r_question r);
     userAnswer := inr (QuizGame.userAnswer r) |}.

(** [typeof q.userAnswer === "number" ? q.options[q.userAnswer]
    : String(q.userAnswer)]; [None] is [undefined]. *)
Definition userAnsText (q : MissedQuestion) : option jsstring :=
  match userAnswer q with
  | inl i => if (i <? 0)%Z then None else options q !! Z.to_nat i
  | inr o => Some (outcomeText o)
  end.

(** The arguments of one call of [generateHint]. *)
Record HintRequest := {
  hr_question : jsstring;
  hr_userAnswer : option jsstring
}.

(** [generateHint(q.question, userAnsText)] *)
Definition requestOf (q : MissedQuestion) : HintRequest :=
  {| hr_question := question q; hr_userAnswer := userAnsText q |}.

(** What [fetch] gives for the [k]-th hint request of the page. *)
Definition Network := nat -> HintRequest -> Client.Fetched.

(** The state of the page, and the hint requests it has sent. *)
Record State := {
  hints : gmap Z JSValue;
  loadingIds : list Z;
  error : option jsstring;
  sent : list HintRequest
}.

Definition initial : State :=
  {| hints := ∅; loadingIds := []; error := None; sent := [] |}.

Section Engine.

Variable JSON_parse : jsstring -> Completion JSValue.
Variable nullRead : jsstring -> Thrown.
Variable network : Network.

(** Pre-fetch hints for missed questions: the loop of the effect, with the
    [catch] that ends it. *)
Fixpoint prefetch (missed : list MissedQuestion) (st : State) : State :=
  match missed with
  | [] => st
  | q :: rest =>
      let request := requestOf q in
      let loading := loadingIds st ++ [id q] in
      match Client.generateHint JSON_parse nullRead (network (length (sent st)) request) with
      | Return hint =>
          prefetch rest
            {| hints := <[id q := hint]> (hints st);
               loadingIds := filter (fun i => i <> id q) loading;
               error := error st;
               sent := sent st ++ [request] |}
      | Throw e =>
          {| hints := hints st;
             loadingIds := loading;
             error := Some (lit "Failed to fetch hints. Please try again later.");
             sent := sent st ++ [request] |}
      end
  end.

End Engine.

(** [hints[q.id] || (loadingIds.includes(q.id) ? "Generating..."
    : "No hint available")] *)
Definition shownHint (st : State) (q : MissedQuestion) : JSValue :=
  let placeholder :=
    JString (if bool_decide (id q ∈ loadingIds st) then lit "Generating..."
             else lit "No hint available") in
  match hints st !! id q with
  | Some hint => if truthy hint then hint else placeholder
  | None => placeholder
  end.

End DeepDive.

(* ===================================================================== *)
(** ** The browser against the serverless handlers *)
(* ===================================================================== *)

(** The fetch-based client with the handler behind it: the request carries
    the arguments of the call (its body is taken as decoded into the fields
    it was encoded from), the handler runs on a fresh provider log, and its
    response comes back with the body serialised by [stringify]. *)

Module EndToEnd.

Section Engine.

Variable JSON_parse : jsstring -> Completion JSValue.
Variable nullRead : jsstring -> Thrown.
Variable numberToString : Q -> jsstring.
Variable stringify : JSValue -> jsstring.
Variable provider : Provider.
Variable apiKey : option jsstring.

Definition generateQuizQuestions (topic : jsstring) (difficulty : Difficulty)
    (numQuestions : N) : Completion JSValue :=
  response ←
    fst (Handler.generateQuiz JSON_parse nullRead provider (lit "POST") apiKey
           {| Handler.topic := topic; Handler.difficulty := difficulty;
              Handler.numQuestions := numQuestions |} []);
  Client.generateQuizQuestions JSON_parse nullRead numberToString
    (Client.delivered stringify response).

Definition generateHint (question userAnswer : jsstring) : Completion JSValue :=
  response ←
    fst (Handler.generateHint provider (lit "POST") apiKey
           {| Handler.question := question; Handler.userAnswer := userAnswer |} []);
  Client.generateHint JSON_parse nullRead (Client.delivered stringify response).

(** The topic form on top of it. *)
Definition handleSubmit (topic : jsstring) (difficulty : Difficulty) : TopicInput.Outcome :=
  TopicInput.handleSubmit nullRead generateQuizQuestions topic difficulty.

End Engine.

End EndToEnd.

(* ===================================================================== *)
(** ** Vocabulary of the specification *)
(* ===================================================================== *)

Module Spec.

(** Neither an opening nor a closing brace. *)
Definition notBrace (c : N) : Prop := c <> LBRACE /\ c <> RBRACE.


(** The text of a JSON object: it opens with a brace and closes with one. *)
Definition objectText (mid : jsstring) : jsstring := LBRACE :: mid ++ [RBRACE].



(** A curly quote as the plain quote the clean-up puts for it. *)
Definition straighten (c : N) : N :=
  if (N.eqb c 8220 || N.eqb c 8221)%N then DQUOTE
  else if (N.eqb c 8216 || N.eqb c 8217)%N then SQUOTE
  else c.

(** A text without its white space and commas, curly quotes straightened. *)
Definition essence (s : jsstring) : jsstring :=
  filter (fun c => is_space c = false /\ c <> COMMA) (map straighten s).

(** What the validation of the first response checks on one question. *)
Definition acceptable (q : JSValue) : Prop :=
  exists fields opts n,
    q = JObject fields /\
    truthySlot (lookupField (lit "question") fields) = true /\
    lookupField (lit "options") fields = Some (JArray opts) /\
    length opts = 4 /\
    lookupField (lit "correctAnswer") fields = Some (JNumber n) /\
    (0 <= n)%Q /\ (n <= 3)%Q.

(** What the validation of the first response accepts. *)
Definition wellFormed (quizData : JSValue) : Prop :=
  exists fields qs,
    quizData = JObject fields /\
    lookupField (lit "questions") fields = Some (JArray qs) /\
    Forall acceptable qs.

(** What the specification asks of one question: a non-empty question
    string, exactly four options, and an integer answer index in 0..3. *)
Definition strict (q : JSValue) : Prop :=
  exists fields text opts k,
    q = JObject fields /\
    lookupField (lit "question") fields = Some (JString text) /\ text <> [] /\
    lookupField (lit "options") fields = Some (JArray opts) /\
    length opts = 4 /\
    lookupField (lit "correctAnswer") fields = Some (JNumber (inject_Z k)) /\
    (0 <= k <= 3)%Z.

(** The quiz data the specification promises for a request of
    [numQuestions] questions. *)
Definition promised (numQuestions : N) (quizData : JSValue) : Prop :=
  exists fields qs,
    quizData = JObject fields /\
    lookupField (lit "questions") fields = Some (JArray qs) /\
    length qs = N.to_nat numQuestions /\
    Forall strict qs.

(** The keyword families of the topic-specific instructions, in the order
    of the specification. *)
Inductive Family := Testing | Programming | Performance.

Definition keywords (f : Family) : list jsstring :=
  match f with
  | Testing => [lit "software testing"; lit "testing"]
  | Programming => [lit "javascript"; lit "programming"]
  | Performance => [lit "performance"; lit "optimization"]
  end.

(** Matching without regard to case, said without any conversion of the
    topic: a character of the topic matches a character of a keyword when it
    is that character or its capital letter. *)
Definition matchesIgnoringCase (c k : N) : bool :=
  ((c =? k) || ((65 <=? c) && (c <=? 90) && (c + 32 =? k)))%N.

(** The keyword stands at the front of the text, whatever the case of the
    text. *)
Fixpoint startsIgnoringCase (keyword s : jsstring) : bool :=
  match keyword, s with
  | [], _ => true
  | _ :: _, [] => false
  | k :: keyword', c :: s' => matchesIgnoringCase c k && startsIgnoringCase keyword' s'
  end.

(** The keyword stands somewhere in the text, whatever the case of the
    text. *)
Fixpoint containsIgnoringCase (keyword s : jsstring) : bool :=
  startsIgnoringCase keyword s
  || match s with [] => false | _ :: r => containsIgnoringCase keyword r end.

(** A topic matches a family when it contains one of its keywords, in
    whatever case. *)
Definition inFamily (topic : jsstring) (f : Family) : bool :=
  existsb (fun k => containsIgnoringCase k topic) (keywords f).

(** Two characters that are the same up to case: equal, or one the capital
    letter of the other. *)
Definition sameCharUpToCase (a b : N) : Prop :=
  a = b \/
  ((65 <= a <= 90)%N /\ b = (a + 32)%N) \/
  ((65 <= b <= 90)%N /\ a = (b + 32)%N).

(** Two topics that differ in case only. *)
Definition sameUpToCase (s t : jsstring) : Prop := Forall2 sameCharUpToCase s t.

(** The first matching family wins. *)
Definition firstFamily (topic : jsstring) : option Family :=
  List.find (inFamily topic) [Testing; Programming; Performance].

(** The instruction for the winning family and the difficulty. Programming
    and performance topics have guidance of their own at hard difficulty
    only. *)
Definition guidance (f : option Family) (d : Difficulty) : jsstring :=
  match f, d with
  | Some Testing, hard => Direct.FOR_TESTING_HARD
  | Some Testing, medium => Direct.FOR_TESTING_MEDIUM
  | Some Testing, easy => Direct.FOR_TESTING_EASY
  | Some Programming, hard => Direct.FOR_PROGRAMMING_HARD
  | Some Performance, hard => Direct.FOR_PERFORMANCE_HARD
  | None, hard => Direct.FOR_TECHNICAL_HARD
  | _, _ => Direct.PRACTICAL
  end.

End Spec.

(* ===================================================================== *)
(** ** Concrete inputs of the examples *)
(* ===================================================================== *)

Module Examples.

(** A well-formed quiz payload with one question. *)
Definition oneQuestion : jsstring :=
  jlit "{'questions':[{'question':'Which river is longest?','options':['Nile','Rhine','Elbe','Po'],'correctAnswer':0,'explanation':'By length.'}],'topic':'Rivers','difficulty':'medium'}".


(** A payload without a questions field. *)
Definition noQuestions : jsstring := jlit "{'topic':'Rivers'}".

Definition notJson : jsstring := lit "Sorry, I cannot help with that.".

(** A provider that answers the first call with [first] and every later
    call with [second]. *)
Definition scripted (first second : jsstring) : Provider :=
  fun k _ => match k with O => Return first | S _ => Return second end.

(** A provider that rejects every call. *)
Definition failing : Provider :=
  fun _ _ => Throw (Err ErrorK (lit "503 Service Unavailable")).

Definition riversRequest : Handler.QuizRequest :=
  {| Handler.topic := lit "Rivers"; Handler.difficulty := medium; Handler.numQuestions := 10 |}.

Definition POST : jsstring := lit "POST".
Definition someKey : option jsstring := Some (lit "key").

(** The player who never clicks: every question ends by the expiry of its
    timer. *)
Definition neverAnswers : list Z := [-1; -1; -1; -1; -1]%Z.

(** The built-in questions with the clock of the first question run down:
    the first effects after mounting, then thirty ticks, each followed by
    the timer effect of its render; the last of them calls the handler with
    the sentinel. *)
Definition firstTimedOut : QuizGame.State :=
  default (QuizGame.initial QuizGame.mockQuestions)
    (QuizGame.steps (lit "Software Testing") (lit "medium") QuizGame.mockQuestions
       (QuizGame.initial QuizGame.mockQuestions)
       (QuizGame.TimerEffect :: QuizGame.TimerReset
        :: concat (replicate 30 [QuizGame.Tick; QuizGame.TimerEffect]))).

(** [JSON.stringify] and the decimal text of a number, through the
    reference serialiser. *)
Definition stringify (v : JSValue) : jsstring := default [] (Json.stringify v).

Definition numberToString (q : Q) : jsstring := default [] (Json.stringifyNumber q).

(** What the one-question payload parses to. *)
Definition oneQuestionData : JSValue :=
  match Json.parse oneQuestion with
  | Return quizData => quizData
  | Throw _ => JNull
  end.

(** A question that passes the validation, and one with three options. *)
Definition goodQuestion : JSValue :=
  JObject [ (lit "question", JString (lit "Which river is longest?"));
            (lit "options", JArray [ JString (lit "Nile"); JString (lit "Rhine");
                                     JString (lit "Elbe"); JString (lit "Po") ]);
            (lit "correctAnswer", JNumber 0) ].

Definition threeOptions : JSValue :=
  JObject [ (lit "question", JString (lit "Which river is shortest?"));
            (lit "options", JArray [ JString (lit "Nile"); JString (lit "Rhine");
                                     JString (lit "Elbe") ]);
            (lit "correctAnswer", JNumber 0) ].

(** A hint as a provider words it, with white space around it. *)
Definition hintText : jsstring :=
  lit "  Compare the lengths of the rivers." ++ [LF].

End Examples.

(* ===================================================================== *)
(** * Properties *)
(* ===================================================================== *)

(** ** Strings: trimming and anchored replacements *)

(** Normalise nested appends and compare. *)
Ltac app_norm := repeat (simpl; rewrite <- ?app_assoc); try reflexivity.

Section StringFacts.

Implicit Types (s a b p : jsstring) (c d : N).


Lemma trimStart_suffix s : exists w, s = w ++ trimStart s.
Proof.
  induction s as [|c s [w Hw]]; simpl.
  - by exists [].
  - destruct (is_space c).
    + exists (c :: w). simpl. by f_equal.
    + by exists [].
Qed.




Lemma startsWith_app p s : startsWith p (p ++ s) = true.
Proof. induction p as [|c p IH]; simpl; [done|]. by rewrite N.eqb_refl. Qed.





(** *** Text in which a JSON object is embedded *)

Import Spec.








End StringFacts.

(** ** Strings: the global replacements *)

Section ReplaceFacts.

Import Spec.

Implicit Types (s a b r : jsstring) (c d : N) (m : matcher).





(** *** The white-space run behind a match start *)



Lemma spaceRun_prefix r : r = spaceRun r ++ drop (length (spaceRun r)) r.
Proof.
  induction r as [|c r IH]; simpl; [done|].
  destruct (is_space c); simpl; [by f_equal | done].
Qed.

Lemma behindLastLF_bound s k : behindLastLF s = Some k -> k <= length s.
Proof.
  revert k. induction s as [|c s IH]; intros k; simpl; [done|].
  destruct (behindLastLF s) as [j|].
  - intros [= <-]. specialize (IH j eq_refl). lia.
  - destruct (N.eqb c LF); intros [= <-]. lia.
Qed.

(** *** Each matcher: its match lies within the text *)




(** A trailing-comma match is a comma, white space [ws] and a closer [d];
    what remains of the text is [rest]. *)
Lemma trailingComma_spec s r n :
  trailingComma s = Some (r, n) ->
  exists ws d rest,
    s = COMMA :: ws ++ d :: rest /\ r = ws ++ [d] /\ n = S (S (length ws)) /\
    (d = RBRACE \/ d = RBRACKET) /\ ws = spaceRun ws.
Proof.
  destruct s as [|c s]; simpl; [done|].
  destruct (N.eqb c COMMA) eqn:Hc; [|done]. apply N.eqb_eq in Hc as ->.
  destruct (drop _ s) as [|d rest] eqn:Hdrop; [done|].
  destruct (_ || _) eqn:Hd; [|done]. intros [= <- <-].
  exists (spaceRun s), d, rest. repeat split.
  - f_equal. rewrite <- Hdrop. apply spaceRun_prefix.
  - apply orb_true_iff in Hd as [H|H]; apply N.eqb_eq in H; auto.
  - clear. induction s as [|c s IH]; simpl; [done|].
    destruct (is_space c) eqn:Hc; simpl; [|done]. by rewrite Hc, <- IH.
Qed.



(** *** Locality in front of an opening brace and behind a closing brace *)








(** *** A pass keeps the closing brace at the end *)



End ReplaceFacts.

(** ** The clean-up of a response in which a JSON object is embedded *)

Section CleanupFacts.

Import Spec.

Implicit Types (s a b mid pre post : jsstring) (m : matcher).


Lemma notBrace_DQUOTE : notBrace DQUOTE.
Proof. by split. Qed.

Lemma notBrace_SQUOTE : notBrace SQUOTE.
Proof. by split. Qed.

Lemma notBrace_LF : notBrace LF.
Proof. by split. Qed.






(** *** Slicing between the first opening and the last closing brace *)

Lemma indexOf_nonneg_lt c s : (-1 <= indexOf c s < Z.of_nat (length s))%Z.
Proof.
  induction s as [|a s IH]; simpl; [lia|].
  destruct (N.eqb a c); [lia|]. destruct (Z.ltb_spec (indexOf c s) 0); lia.
Qed.

Lemma indexOf_first c pre b :
  Forall (fun x => x <> c) pre -> indexOf c (pre ++ c :: b) = Z.of_nat (length pre).
Proof.
  induction pre as [|a pre IH]; intros H; simpl.
  - by rewrite N.eqb_refl.
  - inversion H as [|? ? Ha H']; subst.
    destruct (N.eqb_spec a c); [done|]. rewrite IH by done.
    destruct (Z.ltb_spec (Z.of_nat (length pre)) 0); lia.
Qed.

Lemma lastIndexOf_last c a post :
  Forall (fun x => x <> c) post ->
  lastIndexOf c (a ++ c :: post) = Z.of_nat (length a).
Proof.
  intros H. unfold lastIndexOf.
  rewrite rev_app_distr. simpl. rewrite <- app_assoc. simpl.
  rewrite indexOf_first by (by apply Forall_rev).
  rewrite length_rev, length_app. simpl.
  destruct (Z.ltb_spec (Z.of_nat (length post)) 0); lia.
Qed.


Lemma substring_middle a x b :
  substring (a ++ x ++ b) (Z.of_nat (length a)) (Z.of_nat (length a + length x)) = x.
Proof.
  unfold substring. rewrite !length_app.
  set (n := length a). set (k := length x). set (l := length b).
  replace (Z.to_nat (0 `max` (Z.of_nat n `min` Z.of_nat (n + (k + l))))) with n by lia.
  replace (Z.to_nat (0 `max` (Z.of_nat (n + k) `min` Z.of_nat (n + (k + l)))))
    with (n + k) by lia.
  replace (n `min` (n + k)) with n by lia.
  replace (n `max` (n + k) - n) with k by lia.
  subst n k. rewrite drop_app_length. by rewrite take_app_length.
Qed.



End CleanupFacts.

(** ** The clean-up on concrete responses *)

Example extractJson_fenced :
  extractJson (FENCE_JSON ++ [LF] ++ jlit "{'a': [1, 2,], }" ++ [LF] ++ FENCE)
  = jlit "{'a': [1, 2] }".
Proof. reflexivity. Qed.

Example extractJson_prose :
  extractJson (lit "Sure! Here it is: " ++ jlit "{'a': 1}" ++ lit " Anything else?")
  = jlit "{'a': 1}".
Proof. reflexivity. Qed.

Example extractJson_smart_quotes :
  extractJson ([LBRACE; 8220; 97; 8221; 58; 49; RBRACE]%N) = jlit "{'a':1}".
Proof. reflexivity. Qed.

Example extractJson_blank_lines :
  extractJson (lit "{" ++ [LF; 32; LF; LF]%N ++ jlit "'a':1" ++ [LF]%N ++ lit "}")
  = lit "{" ++ [LF] ++ jlit "'a':1" ++ [LF] ++ lit "}".
Proof. reflexivity. Qed.

Example extractJson_no_braces : extractJson (lit "  no json here ") = lit "no json here".
Proof. reflexivity. Qed.

Example parse_reference :
  Json.parse (jlit "{'a': [1, 2.5, true], 'b': null}")
  = Return (JObject [(lit "a", JArray [JNumber 1; JNumber (Qmake 25 10); JBool true]);
                     (lit "b", JNull)]).
Proof. reflexivity. Qed.

(** ** The normaliser is insensitive to fences and prose around the payload *)






(** ** Validation of the parsed response *)

Section ValidationFacts.

Import Spec.

Variable JSON_parse : jsstring -> Completion JSValue.
Variable nullRead : jsstring -> Thrown.

Lemma Qltb_false_iff a b : Qltb a b = false <-> (b <= a)%Q.
Proof.
  unfold Qltb. rewrite negb_false_iff. apply Qle_bool_iff.
Qed.

(** A question passes the check exactly when it is acceptable; otherwise the
    check throws. *)
Lemma checkQuestion_Return q index :
  checkQuestion nullRead q index = Return tt <-> acceptable q.
Proof.
  unfold checkQuestion, acceptable. split.
  - intros H. destruct q as [| | | | |fields]; try discriminate H. cbn in H.
    destruct (truthySlot (lookupField (lit "question") fields)) eqn:Hq;
      cbn in H; [|discriminate H].
    destruct (lookupField (lit "options") fields) as [[| | | |opts|]|] eqn:Ho;
      cbn in H; try discriminate H.
    destruct (Nat.eqb_spec (length opts) 4) as [Hlen|]; cbn in H; [|discriminate H].
    destruct (lookupField (lit "correctAnswer") fields) as [[| |n| | |]|] eqn:Hc;
      cbn in H; try discriminate H.
    destruct (Qltb n 0) eqn:H0; cbn in H; [discriminate H|].
    destruct (Qltb 3 n) eqn:H3; cbn in H; [discriminate H|].
    exists fields, opts, n. repeat split; try done.
    + by apply Qltb_false_iff.
    + by apply Qltb_false_iff.
  - intros (fields & opts & n & -> & Hq & Ho & Hlen & Hc & H0 & H3). cbn.
    rewrite Hq. cbn. rewrite Ho. cbn. rewrite Hlen. cbn. rewrite Hc.
    apply Qltb_false_iff in H0, H3. by rewrite H0, H3.
Qed.

Lemma checkQuestion_cases q index :
  checkQuestion nullRead q index = Return tt \/
  exists e, checkQuestion nullRead q index = Throw e.
Proof.
  destruct (checkQuestion nullRead q index) as [[]|e]; [by left | right; by exists e].
Qed.

Lemma forEachFrom_Return qs index :
  forEachFrom nullRead index qs = Return tt <-> Forall acceptable qs.
Proof.
  revert index. induction qs as [|q qs IH]; intros index; simpl.
  - split; [constructor | done].
  - split.
    + destruct (checkQuestion nullRead q index) as [[]|e] eqn:Hq;
        [|intros H; discriminate H].
      cbn. intros H. constructor; [by eapply checkQuestion_Return | by eapply IH].
    + intros H. inversion H as [|? ? Hq Hqs]; subst.
      apply (checkQuestion_Return q index) in Hq. rewrite Hq. cbn. by apply IH.
Qed.

(** The check of the questions array fails with the given message on every
    object whose [questions] is not an array. *)
Lemma checkQuestionsArray_object fields message :
  checkQuestionsArray nullRead (JObject fields) message =
    if isArray (lookupField (lit "questions") fields)
    then Return (lookupField (lit "questions") fields)
    else Throw (Err ErrorK (lit message)).
Proof.
  unfold checkQuestionsArray. cbn.
  destruct (lookupField (lit "questions") fields) as [[| | | | |]|]; cbn; try done.
  - by destruct b.
  - by destruct (negb (Qeq_bool q 0)).
  - by destruct (negb (bool_decide (s = []))).
Qed.

Lemma validateQuiz_Return quizData result :
  validateQuiz nullRead quizData = Return result <->
  result = quizData /\ wellFormed quizData.
Proof.
  unfold validateQuiz, wellFormed. split.
  - intros H. destruct quizData as [| | | | |fields]; try discriminate H.
    cbn [mbind Completion_bind] in H. rewrite checkQuestionsArray_object in H.
    destruct (lookupField (lit "questions") fields) as [[| | | |qs|]|] eqn:Hq;
      try discriminate H. cbn in H.
    destruct (forEachFrom nullRead 0 qs) as [[]|e] eqn:Hall; [|discriminate H].
    cbn in H. injection H as <-. split; [done|].
    exists fields, qs. repeat split; try done. by eapply forEachFrom_Return.
  - intros (-> & fields & qs & -> & Hq & Hall).
    cbn [mbind Completion_bind]. rewrite checkQuestionsArray_object, Hq. cbn.
    apply (forEachFrom_Return qs 0) in Hall. by rewrite Hall.
Qed.

Lemma normalizeQuiz_Return text result :
  normalizeQuiz JSON_parse nullRead text = Return result <->
  JSON_parse (extractJson text) = Return result /\ wellFormed result.
Proof.
  unfold normalizeQuiz. destruct (JSON_parse (extractJson text)) as [v|e]; cbn.
  - rewrite validateQuiz_Return. split.
    + by intros [-> H].
    + by intros [[= ->] H].
  - split; [discriminate | by intros [? _]].
Qed.

End ValidationFacts.

(** ** The quiz handler *)

Section HandlerFacts.

Import Spec.

Variable JSON_parse : jsstring -> Completion JSValue.
Variable nullRead : jsstring -> Thrown.
Variable provider : Provider.

(** A POST with an API key and a topic: one provider call, then the
    normalisation decides between 200 and 500. *)
Lemma generateQuiz_run (k : N) (key : jsstring) (c : N) (topic : jsstring)
    (d : Difficulty) (n : N) (log : list jsstring) :
  let req := {| Handler.topic := c :: topic; Handler.difficulty := d;
                Handler.numQuestions := n |} in
  let prompt := Prompts.quizPrompt (c :: topic) d n in
  Handler.generateQuiz JSON_parse nullRead provider (lit "POST") (Some (k :: key)) req log
  = (Return
       match provider (length log) prompt ≫= normalizeQuiz JSON_parse nullRead with
       | Return quizData =>
           {| Handler.statusCode := 200; Handler.body := Handler.Json quizData |}
       | Throw e =>
           {| Handler.statusCode := 500;
              Handler.body := Handler.errorBody
                                (lit "Failed to generate quiz: " ++ Handler.messageText e) |}
       end,
     log ++ [prompt]).
Proof.
  intros req prompt. unfold Handler.generateQuiz, Handler.guarded.
  replace (bool_decide (lit "POST" = lit "OPTIONS")) with false by done.
  replace (bool_decide (lit "POST" = lit "POST")) with true by done.
  cbn -[Prompts.quizPrompt normalizeQuiz].
  unfold tryIO, generateContent, lift, mbind, IO_bind. cbn -[Prompts.quizPrompt normalizeQuiz].
  fold prompt.
  destruct (provider (length log) prompt) as [text|e]; cbn -[normalizeQuiz]; [|done].
  by destruct (normalizeQuiz JSON_parse nullRead text).
Qed.

End HandlerFacts.

(** C1 (amended). A raw provider response is accepted by the quiz
    normalisation of the handler exactly when it parses to an object whose
    [questions] is an array of objects that each have a truthy question, an
    options array of exactly four entries and a numeric correctAnswer between
    0 and 3; the number of questions is not compared with numQuestions.
    Every other response makes the handler answer 500 with a quiz-generation
    error. *)
Theorem normalizeQuiz_accepts
    (JSON_parse : jsstring -> Completion JSValue) (nullRead : jsstring -> Thrown)
    (provider : Provider) (k : N) (key : jsstring) (c : N) (topic : jsstring)
    (d : Difficulty) (n : N) :
  (forall text quizData,
     normalizeQuiz JSON_parse nullRead text = Return quizData <->
     JSON_parse (extractJson text) = Return quizData /\ Spec.wellFormed quizData) /\
  (forall text quizData,
     provider 0 (Prompts.quizPrompt (c :: topic) d n) = Return text ->
     normalizeQuiz JSON_parse nullRead text = Return quizData ->
     fst (Handler.generateQuiz JSON_parse nullRead provider (lit "POST") (Some (k :: key))
            {| Handler.topic := c :: topic; Handler.difficulty := d;
               Handler.numQuestions := n |} [])
     = Return {| Handler.statusCode := 200; Handler.body := Handler.Json quizData |}) /\
  (forall text e,
     provider 0 (Prompts.quizPrompt (c :: topic) d n) = Return text ->
     normalizeQuiz JSON_parse nullRead text = Throw e ->
     fst (Handler.generateQuiz JSON_parse nullRead provider (lit "POST") (Some (k :: key))
            {| Handler.topic := c :: topic; Handler.difficulty := d;
               Handler.numQuestions := n |} [])
     = Return {| Handler.statusCode := 500;
                 Handler.body := Handler.errorBody
                                   (lit "Failed to generate quiz: "
                                    ++ Handler.messageText e) |}).
Proof.
  split; [|split].
  - intros text quizData. apply normalizeQuiz_Return.
  - intros text quizData Hp Hn. rewrite generateQuiz_run. cbn [fst length].
    rewrite Hp. cbn [mbind Completion_bind]. by rewrite Hn.
  - intros text e Hp Hn. rewrite generateQuiz_run. cbn [fst length].
    rewrite Hp. cbn [mbind Completion_bind]. by rewrite Hn.
Qed.

(** C1 as stated fails: asked for ten questions, the handler accepts a
    response with a single question and answers 200 with it. *)
Lemma normalizeQuiz_ignores_count :
  exists quizData,
    normalizeQuiz Json.parse Json.nullRead Examples.oneQuestion = Return quizData /\
    fst (Handler.generateQuiz Json.parse Json.nullRead
           (Examples.scripted Examples.oneQuestion Examples.oneQuestion)
           Examples.POST Examples.someKey Examples.riversRequest [])
    = Return {| Handler.statusCode := 200; Handler.body := Handler.Json quizData |} /\
    Handler.numQuestions Examples.riversRequest = 10%N /\
    ~ Spec.promised (Handler.numQuestions Examples.riversRequest) quizData.
Proof.
  eexists. split; [vm_compute; reflexivity|]. split; [vm_compute; reflexivity|].
  split; [reflexivity|].
  intros (fields & qs & Hv & Hq & Hlen & _).
  injection Hv as <-. vm_compute in Hq. injection Hq as <-. discriminate Hlen.
Qed.

(** C7. A payload that parses to an object whose [questions] is missing or
    is not an array never normalises: the validation of the first response
    throws the missing-questions-array error, the validation of the retry
    throws its own structure error, and the handler answers 500 with the
    former; no quiz data, empty or not, is returned. *)
Theorem missing_questions_rejected
    (JSON_parse : jsstring -> Completion JSValue) (nullRead : jsstring -> Thrown)
    (fields : list (jsstring * JSValue)) :
  isArray (lookupField (lit "questions") fields) = false ->
  let missing := Err ErrorK (lit "Invalid response structure: missing questions array") in
  validateQuiz nullRead (JObject fields) = Throw missing /\
  (forall text,
     JSON_parse (extractJson text) = Return (JObject fields) ->
     normalizeQuiz JSON_parse nullRead text = Throw missing /\
     Direct.normalizeRetry JSON_parse nullRead text
       = Throw (Err ErrorK (lit "Invalid retry response structure"))) /\
  (forall provider k key c topic d n text,
     provider 0 (Prompts.quizPrompt (c :: topic) d n) = Return text ->
     JSON_parse (extractJson text) = Return (JObject fields) ->
     fst (Handler.generateQuiz JSON_parse nullRead provider (lit "POST") (Some (k :: key))
            {| Handler.topic := c :: topic; Handler.difficulty := d;
               Handler.numQuestions := n |} [])
     = Return {| Handler.statusCode := 500;
                 Handler.body :=
                   Handler.errorBody
                     (lit "Failed to generate quiz: "
                      ++ lit "Invalid response structure: missing questions array") |}).
Proof.
  intros Hq missing.
  assert (validateQuiz nullRead (JObject fields) = Throw missing) as Hv.
  { unfold validateQuiz. cbn [mbind Completion_bind].
    by rewrite checkQuestionsArray_object, Hq. }
  assert (forall text, JSON_parse (extractJson text) = Return (JObject fields) ->
            normalizeQuiz JSON_parse nullRead text = Throw missing) as Hn.
  { intros text Hp. unfold normalizeQuiz. rewrite Hp. exact Hv. }
  split; [exact Hv | split].
  - intros text Hp. split; [by apply Hn|].
    unfold Direct.normalizeRetry. rewrite Hp. cbn [mbind Completion_bind].
    by rewrite checkQuestionsArray_object, Hq.
  - intros provider k key c topic d n text Hprov Hp.
    rewrite generateQuiz_run. cbn [fst length]. rewrite Hprov.
    cbn [mbind Completion_bind]. by rewrite (Hn text Hp).
Qed.

(** The payload without a questions field is rejected. *)
Lemma missing_questions_rejected_example :
  isArray (lookupField (lit "questions") [(lit "topic", JString (lit "Rivers"))]) = false /\
  Json.parse (extractJson Examples.noQuestions)
    = Return (JObject [(lit "topic", JString (lit "Rivers"))]) /\
  normalizeQuiz Json.parse Json.nullRead Examples.noQuestions
    = Throw (Err ErrorK (lit "Invalid response structure: missing questions array")).
Proof.
  split; [reflexivity|]. split; [vm_compute; reflexivity|].
  apply (missing_questions_rejected Json.parse Json.nullRead
           [(lit "topic", JString (lit "Rivers"))] eq_refl).
  vm_compute. reflexivity.
Defined.

(** ** The retry of the direct client *)

Section DirectFacts.

Variable JSON_parse : jsstring -> Completion JSValue.
Variable nullRead : jsstring -> Thrown.
Variable provider : Provider.

(** Every run of [generateQuizQuestions], by cases. *)
Lemma generateQuizQuestions_run topic d n :
  let p1 := Prompts.directPrompt (Direct.getTopicSpecificInstructions topic d) topic d n in
  let p2 := Prompts.simplePrompt topic d n in
  Direct.generateQuizQuestions JSON_parse nullRead provider topic d n [] =
    match provider 0 p1 with
    | Throw e => (Throw (Direct.quizFailure (Direct.messageOrUnknown e)), [p1])
    | Return text =>
        match normalizeQuiz JSON_parse nullRead text with
        | Return quizData => (Return quizData, [p1])
        | Throw _ =>
            (match provider 1 p2 ≫= Direct.normalizeRetry JSON_parse nullRead with
             | Return quizData => Return quizData
             | Throw _ => Throw (Direct.quizFailure Direct.RETRY_FAILED)
             end, [p1; p2])
        end
    end.
Proof.
  intros p1 p2. unfold Direct.generateQuizQuestions.
  fold p1 p2. unfold tryIO, generateContent, lift, throw, mbind, IO_bind.
  cbn [length app].
  destruct (provider 0 p1) as [text|e]; [|done].
  destruct (normalizeQuiz JSON_parse nullRead text); [done|].
  cbn [length app].
  destruct (provider 1 p2) as [retry|e']; [|done].
  cbn [Completion_bind].
  by destruct (Direct.normalizeRetry JSON_parse nullRead retry).
Qed.

(** A response the first validation accepts is accepted by the retry. *)
Lemma normalizeRetry_of_normalizeQuiz text quizData :
  normalizeQuiz JSON_parse nullRead text = Return quizData ->
  Direct.normalizeRetry JSON_parse nullRead text = Return quizData.
Proof.
  intros H. apply normalizeQuiz_Return in H as (Hp & fields & qs & -> & Hq & _).
  unfold Direct.normalizeRetry. rewrite Hp. cbn [mbind Completion_bind].
  by rewrite checkQuestionsArray_object, Hq.
Qed.

End DirectFacts.

Lemma includes_cons p c s : includes p s = true -> includes p (c :: s) = true.
Proof. intros H. cbn [includes]. rewrite H. apply orb_true_r. Qed.

Lemma includes_app_r p a s : includes p s = true -> includes p (a ++ s) = true.
Proof. intros H. induction a as [|c a IH]; [done|]. by apply includes_cons. Qed.

Lemma includes_startsWith p s : startsWith p s = true -> includes p s = true.
Proof. intros H. destruct s; cbn [includes]; by rewrite H. Qed.

Lemma startsWith_app_l p a b : startsWith p a = true -> startsWith p (a ++ b) = true.
Proof.
  revert a. induction p as [|c p IH]; intros a H; [done|].
  destruct a as [|x a]; [done|]. cbn [startsWith app] in *.
  apply andb_true_iff in H as [-> H]. by rewrite IH.
Qed.

Lemma includes_app_l p a b : includes p a = true -> includes p (a ++ b) = true.
Proof.
  induction a as [|c a IH]; cbn [includes app]; intros H.
  - rewrite orb_false_r in H. destruct p; [|done]. by destruct b.
  - apply orb_true_iff in H as [H|H].
    + apply orb_true_iff. left. exact (startsWith_app_l p (c :: a) b H).
    + apply orb_true_iff. right. by apply IH.
Qed.

Lemma includes_joinLines p l ls :
  In l ls -> includes p l = true -> includes p (joinLines ls) = true.
Proof.
  intros Hin Hp. induction ls as [|x ls IH]; [done|].
  destruct Hin as [->|Hin].
  - destruct ls; [done|]. cbn [joinLines]. by apply includes_app_l.
  - specialize (IH Hin). destruct ls as [|y ls]; [done|].
    change (joinLines (x :: y :: ls)) with (x ++ LF :: joinLines (y :: ls)).
    by apply includes_app_r, includes_cons.
Qed.

Lemma simplePrompt_strict topic d n :
  includes (lit "Return ONLY valid JSON") (Prompts.simplePrompt topic d n) = true.
Proof.
  apply (includes_joinLines _
           (lit "Return ONLY valid JSON in this exact format with no extra text:")).
  - right. left. reflexivity.
  - reflexivity.
Qed.

(** C4 (amended). In the direct client, when the first response fails to
    parse or to validate, exactly one further provider call is made, with the
    simplified prompt that asks for JSON only; a retry response that passes
    the normalisation is returned; when the retry call is rejected, or its
    response does not parse or has no questions array, the call fails with
    the fixed quiz-generation error of the retry, which does not name the
    cause; in no case is there a third call. A rejected first call and an
    accepted first response take one call. The serverless handler never
    retries: it makes one provider call. *)
Theorem retry_once
    (JSON_parse : jsstring -> Completion JSValue) (nullRead : jsstring -> Thrown)
    (provider : Provider) (topic : jsstring) (d : Difficulty) (n : N) :
  let p1 := Prompts.directPrompt (Direct.getTopicSpecificInstructions topic d) topic d n in
  let p2 := Prompts.simplePrompt topic d n in
  let run := Direct.generateQuizQuestions JSON_parse nullRead provider topic d n [] in
  includes (lit "Return ONLY valid JSON") p2 = true /\
  (forall e, provider 0 p1 = Throw e ->
     run = (Throw (Direct.quizFailure (Direct.messageOrUnknown e)), [p1])) /\
  (forall text quizData,
     provider 0 p1 = Return text ->
     normalizeQuiz JSON_parse nullRead text = Return quizData ->
     run = (Return quizData, [p1])) /\
  (forall text e,
     provider 0 p1 = Return text ->
     normalizeQuiz JSON_parse nullRead text = Throw e ->
     snd run = [p1; p2] /\
     (forall retry quizData,
        provider 1 p2 = Return retry ->
        normalizeQuiz JSON_parse nullRead retry = Return quizData ->
        fst run = Return quizData) /\
     (forall e',
        provider 1 p2 ≫= Direct.normalizeRetry JSON_parse nullRead = Throw e' ->
        fst run = Throw (Direct.quizFailure Direct.RETRY_FAILED))) /\
  (forall k key c t,
     snd (Handler.generateQuiz JSON_parse nullRead provider (lit "POST") (Some (k :: key))
            {| Handler.topic := c :: t; Handler.difficulty := d;
               Handler.numQuestions := n |} [])
     = [Prompts.quizPrompt (c :: t) d n]).
Proof.
  intros p1 p2 run. split; [apply simplePrompt_strict|].
  subst run. rewrite generateQuizQuestions_run. fold p1 p2.
  split; [|split; [|split]].
  - by intros e ->.
  - by intros text quizData -> ->.
  - intros text e -> ->. split; [done|]. split.
    + intros retry quizData Hr Hn. cbn [fst]. rewrite Hr. cbn [mbind Completion_bind].
      by rewrite (normalizeRetry_of_normalizeQuiz _ _ _ _ Hn).
    + intros e' He. cbn [fst]. by rewrite He.
  - intros k key c t. by rewrite generateQuiz_run.
Qed.

(** C4 as stated fails. With a first response that is no JSON and a retry
    response without questions, the direct client fails with the fixed retry
    message, in which the cause (the structure error of the retry) does not
    occur; and the handler, given a first response that is no JSON, stops
    after its single call. *)
Lemma retry_error_drops_cause :
  let run := Direct.generateQuizQuestions Json.parse Json.nullRead
               (Examples.scripted Examples.notJson Examples.noQuestions)
               (lit "Rivers") medium 10 [] in
  let served := Handler.generateQuiz Json.parse Json.nullRead
                  (Examples.scripted Examples.notJson Examples.oneQuestion)
                  Examples.POST Examples.someKey Examples.riversRequest [] in
  fst run = Throw (Err ErrorK (lit "Failed to generate quiz questions: Failed to parse quiz questions from AI response after retry")) /\
  Direct.normalizeRetry Json.parse Json.nullRead Examples.noQuestions
    = Throw (Err ErrorK (lit "Invalid retry response structure")) /\
  includes (lit "Invalid retry response structure")
    (lit "Failed to generate quiz questions: Failed to parse quiz questions from AI response after retry") = false /\
  length (snd served) = 1 /\
  (response ← fst served; Return (Handler.statusCode response)) = Return 500%Z.
Proof.
  repeat split; vm_compute; reflexivity.
Qed.

(** ** The topic-specific instructions *)

Section CaseFacts.

Import Spec.

(** A keyword character that is no capital letter equals the lower-cased
    character of the topic exactly when the two match without regard to
    case. *)
Lemma lowerChar_matches k c :
  ((65 <=? k) && (k <=? 90))%N = false ->
  N.eqb k (lowerChar c) = matchesIgnoringCase c k.
Proof.
  intros Hk. unfold lowerChar, matchesIgnoringCase.
  apply andb_false_iff in Hk.
  destruct (N.leb_spec 65 c), (N.leb_spec c 90); cbn [andb orb];
    rewrite ?orb_false_r; try apply N.eqb_sym.
  destruct (N.eqb_spec c k) as [->|Hne]; cbn [orb].
  - exfalso. destruct Hk as [Hk|Hk].
    + apply N.leb_gt in Hk. lia.
    + apply N.leb_gt in Hk. lia.
  - apply N.eqb_sym.
Qed.

Lemma startsWith_lower keyword s :
  forallb (fun k => negb ((65 <=? k) && (k <=? 90))%N) keyword = true ->
  startsWith keyword (toLowerCase s) = startsIgnoringCase keyword s.
Proof.
  revert s. induction keyword as [|k keyword IH]; intros s Hkey; [done|].
  cbn [forallb] in Hkey. apply andb_true_iff in Hkey as [Hk Hkey].
  apply negb_true_iff in Hk.
  destruct s as [|c s]; [done|].
  cbn [toLowerCase map startsWith startsIgnoringCase].
  rewrite (lowerChar_matches k c Hk). f_equal. by apply IH.
Qed.

(** Searching a keyword without capital letters in the lower-cased topic is
    searching it in the topic without regard to case. *)
Lemma includes_lower keyword s :
  forallb (fun k => negb ((65 <=? k) && (k <=? 90))%N) keyword = true ->
  includes keyword (toLowerCase s) = containsIgnoringCase keyword s.
Proof.
  intros Hkey. induction s as [|c s IH].
  - cbn [toLowerCase map includes containsIgnoringCase].
    by rewrite <- (startsWith_lower keyword [] Hkey).
  - cbn [toLowerCase map includes containsIgnoringCase].
    change (map lowerChar s) with (toLowerCase s). rewrite IH.
    by rewrite <- (startsWith_lower keyword (c :: s) Hkey).
Qed.

(** Topics that differ in case only have the same lower-case form. *)
Lemma toLowerCase_sameUpToCase s t : sameUpToCase s t -> toLowerCase s = toLowerCase t.
Proof.
  induction 1 as [|a b s t Hab _ IH]; [done|].
  cbn [toLowerCase map]. f_equal; [|exact IH].
  unfold lowerChar.
  destruct Hab as [->|[[Ha ->]|[Hb ->]]]; [done| |].
  - destruct (N.leb_spec 65 a), (N.leb_spec a 90); try lia. cbn [andb].
    destruct (N.leb_spec 65 (a + 32)), (N.leb_spec (a + 32) 90); try lia; done.
  - destruct (N.leb_spec 65 b), (N.leb_spec b 90); try lia. cbn [andb].
    destruct (N.leb_spec 65 (b + 32)), (N.leb_spec (b + 32) 90); try lia; done.
Qed.

End CaseFacts.

(** C8. The topic is matched without regard to case against the keyword
    families testing, javascript/programming and performance/optimization,
    in this order, and the first family that matches decides: the
    instruction returned is the one the specification's table gives for that
    family and the difficulty, where a family matches when one of its
    keywords stands somewhere in the topic with each character as written or
    as its capital letter. Two topics that differ only in case get the same
    instruction. A topic matching no family gets the generic
    quantitative-analysis instruction at hard difficulty and the generic
    practical-application instruction otherwise. *)
Theorem topic_instructions (topic : jsstring) (d : Difficulty) :
  Direct.getTopicSpecificInstructions topic d = Spec.guidance (Spec.firstFamily topic) d /\
  (forall other,
     Spec.sameUpToCase other topic ->
     Direct.getTopicSpecificInstructions other d
     = Direct.getTopicSpecificInstructions topic d) /\
  (Spec.firstFamily topic = None ->
     Direct.getTopicSpecificInstructions topic d
     = if bool_decide (d = hard) then Direct.FOR_TECHNICAL_HARD else Direct.PRACTICAL).
Proof.
  assert (Direct.getTopicSpecificInstructions topic d
          = Spec.guidance (Spec.firstFamily topic) d) as Hfirst.
  { unfold Direct.getTopicSpecificInstructions, Spec.firstFamily, Spec.inFamily,
      Spec.keywords. cbn [List.find existsb].
    rewrite !includes_lower by reflexivity.
    destruct (Spec.containsIgnoringCase (lit "software testing") topic);
    destruct (Spec.containsIgnoringCase (lit "testing") topic);
    destruct (Spec.containsIgnoringCase (lit "javascript") topic);
    destruct (Spec.containsIgnoringCase (lit "programming") topic);
    destruct (Spec.containsIgnoringCase (lit "performance") topic);
    destruct (Spec.containsIgnoringCase (lit "optimization") topic);
    destruct d; reflexivity. }
  split; [exact Hfirst | split].
  - intros other Hcase. unfold Direct.getTopicSpecificInstructions.
    by rewrite (toLowerCase_sameUpToCase other topic Hcase).
  - intros Hnone. rewrite Hfirst, Hnone. by destruct d.
Qed.

(** Topics written with capital letters: a testing topic, a programming
    topic and a performance topic at hard difficulty, a testing topic that
    also names a programming keyword, and a topic in capitals against the
    same topic in small letters. *)
Lemma topic_instructions_example :
  Direct.getTopicSpecificInstructions (lit "Unit TESTING Basics") hard
    = Direct.FOR_TESTING_HARD /\
  Direct.getTopicSpecificInstructions (lit "JavaScript Closures") hard
    = Direct.FOR_PROGRAMMING_HARD /\
  Direct.getTopicSpecificInstructions (lit "Query OPTIMIZATION") hard
    = Direct.FOR_PERFORMANCE_HARD /\
  Direct.getTopicSpecificInstructions (lit "Testing JavaScript") medium
    = Direct.FOR_TESTING_MEDIUM /\
  Direct.getTopicSpecificInstructions (lit "WORLD HISTORY") hard
    = Direct.FOR_TECHNICAL_HARD /\
  Direct.getTopicSpecificInstructions (lit "PROGRAMMING IN C") hard
    = Direct.getTopicSpecificInstructions (lit "programming in c") hard.
Proof.
  split; [exact (proj1 (topic_instructions (lit "Unit TESTING Basics") hard))|].
  split; [exact (proj1 (topic_instructions (lit "JavaScript Closures") hard))|].
  split; [exact (proj1 (topic_instructions (lit "Query OPTIMIZATION") hard))|].
  split; [exact (proj1 (topic_instructions (lit "Testing JavaScript") medium))|].
  split; [exact (proj2 (proj2 (topic_instructions (lit "WORLD HISTORY") hard)) eq_refl)|].
  apply (proj1 (proj2 (topic_instructions (lit "programming in c") hard))).
  unfold Spec.sameUpToCase.
  set (capitals := lit "PROGRAMMING IN C"). vm_compute in capitals. subst capitals.
  set (small := lit "programming in c"). vm_compute in small. subst small.
  repeat (constructor;
          [first [left; reflexivity | right; left; split; [lia | reflexivity]]|]).
  constructor.
Defined.

(** ** Hints *)

(** C9. Hint generation never propagates a failure. The fetch-based
    [generateHint] returns for every outcome of the request, and returns the
    generic fallback hint when the request is rejected (network error), when
    the status is not 2xx, when the body does not parse, when the parsed
    body is null, and when its hint field is missing or falsy. The hint
    handler answers a provider failure with status 500, which the client
    turns into the fallback hint, and the direct client returns the
    fallback hint when the provider fails. *)
Theorem hint_never_fails
    (JSON_parse : jsstring -> Completion JSValue) (nullRead : jsstring -> Thrown) :
  (forall fetched, exists hint,
     Client.generateHint JSON_parse nullRead fetched = Return hint) /\
  (forall e,
     Client.generateHint JSON_parse nullRead (Client.Rejected e)
     = Return (JString fallbackHint)) /\
  (forall status bodyText,
     Client.ok status = false ->
     Client.generateHint JSON_parse nullRead (Client.Resolved status bodyText)
     = Return (JString fallbackHint)) /\
  (forall status bodyText e,
     JSON_parse bodyText = Throw e ->
     Client.generateHint JSON_parse nullRead (Client.Resolved status bodyText)
     = Return (JString fallbackHint)) /\
  (forall status bodyText data,
     JSON_parse bodyText = Return data ->
     (data = JNull \/
      exists slot, getProp nullRead data (lit "hint") = Return slot /\
                   truthySlot slot = false) ->
     Client.generateHint JSON_parse nullRead (Client.Resolved status bodyText)
     = Return (JString fallbackHint)) /\
  (forall provider stringify k key q qs a answer e,
     provider 0 (Prompts.hintPrompt (q :: qs) (a :: answer)) = Throw e ->
     let served :=
       fst (Handler.generateHint provider (lit "POST") (Some (k :: key))
              {| Handler.question := q :: qs; Handler.userAnswer := a :: answer |} []) in
     served = Return {| Handler.statusCode := 500;
                        Handler.body :=
                          Handler.Json (JObject [(lit "hint", JString fallbackHint)]) |} /\
     (response ← served;
      Client.generateHint JSON_parse nullRead (Client.delivered stringify response))
     = Return (JString fallbackHint)) /\
  (forall provider question userAnswer e,
     provider 0 (Prompts.hintPrompt question userAnswer) = Throw e ->
     fst (Direct.generateHint provider question userAnswer []) = Return fallbackHint).
Proof.
  assert (forall status bodyText, Client.ok status = false ->
            Client.generateHint JSON_parse nullRead (Client.Resolved status bodyText)
            = Return (JString fallbackHint)) as Hstatus.
  { intros status bodyText Hok. unfold Client.generateHint. by rewrite Hok. }
  split; [|split; [|split; [|split; [|split; [|split]]]]].
  - intros [e|status bodyText]; unfold Client.generateHint; cbn [tryCatch].
    + by eexists.
    + destruct (negb (Client.ok status)); [by eexists|].
      destruct (JSON_parse bodyText) as [data|e]; cbn; [|by eexists].
      destruct (getProp nullRead data (lit "hint")) as [[v|]|e]; cbn;
        [destruct (truthy v)| |]; by eexists.
  - done.
  - exact Hstatus.
  - intros status bodyText e Hp. unfold Client.generateHint.
    destruct (negb (Client.ok status)); [done|]. by rewrite Hp.
  - intros status bodyText data Hp Hd. unfold Client.generateHint.
    destruct (negb (Client.ok status)); [done|]. rewrite Hp. cbn [mbind Completion_bind].
    destruct Hd as [->|(slot & Hslot & Hfalsy)].
    + done.
    + rewrite Hslot. cbn [mbind Completion_bind]. destruct slot as [v|]; [|done].
      change (truthy v = false) in Hfalsy. by rewrite Hfalsy.
  - intros provider stringify k key q qs a answer e Hp served.
    assert (served = Return {| Handler.statusCode := 500;
                               Handler.body :=
                                 Handler.Json (JObject [(lit "hint", JString fallbackHint)]) |})
      as ->.
    { subst served. unfold Handler.generateHint, Handler.guarded.
      replace (bool_decide (lit "POST" = lit "OPTIONS")) with false by done.
      replace (bool_decide (lit "POST" = lit "POST")) with true by done.
      cbn -[Prompts.hintPrompt]. unfold tryIO, generateContent, mbind, IO_bind.
      cbn -[Prompts.hintPrompt]. by rewrite Hp. }
    split; [done|]. cbn [mbind Completion_bind]. by apply Hstatus.
  - intros provider question userAnswer e Hp.
    unfold Direct.generateHint, tryIO, generateContent, mbind, IO_bind.
    cbn -[Prompts.hintPrompt]. by rewrite Hp.
Qed.

(** ** The quiz-play session *)

Section SessionFacts.

Import QuizGame.

Variable topic : jsstring.
Variable difficulty : jsstring.
Variable questions : list Question.

Local Abbreviation n := (length questions).
Local Abbreviation handle := (handleAnswerSelect questions).
Local Abbreviation run := (play topic difficulty questions).

Lemma matches_nil_r qs : matches qs [] = 0%Z.
Proof. by destruct qs. Qed.

Lemma matches_snoc qs l q a :
  qs !! length l = Some q ->
  matches qs (l ++ [a])
  = (matches qs l + (if (a =? correctAnswer q)%Z then 1 else 0))%Z.
Proof.
  revert qs. induction l as [|b l IH]; intros [|q0 qs] Hq; try done.
  - cbn in Hq. injection Hq as ->. cbn. rewrite matches_nil_r. lia.
  - cbn in Hq. cbn. rewrite (IH qs Hq). lia.
Qed.

(** A call on a question that is already answered, or while the result is
    showing, changes nothing. *)
Lemma handle_noop i st :
  answeredAt (answeredQuestions st) (currentQuestionIndex st) || showResult st = true ->
  handle i st = Some st.
Proof. intros H. unfold handleAnswerSelect. by rewrite H. Qed.

(** Both arrays keep one entry per question, and an answer is written
    within them. *)
Lemma arrays_keep_length i st st' :
  length (answeredQuestions st) = n -> length (userAnswers st) = n ->
  handle i st = Some st' ->
  length (answeredQuestions st') = n /\ length (userAnswers st') = n /\
  length (answeredQuestions (resultDelay topic difficulty questions st')) = n /\
  length (userAnswers (resultDelay topic difficulty questions st')) = n /\
  (st' = st \/ currentQuestionIndex st < n).
Proof.
  intros Ha Hu Hstep.
  assert (length (answeredQuestions st') = n /\ length (userAnswers st') = n /\
          (st' = st \/ currentQuestionIndex st < n)) as (H1 & H2 & H3).
  { unfold handleAnswerSelect in Hstep. destruct (_ || _).
    - injection Hstep as <-. auto.
    - destruct (questions !! currentQuestionIndex st) as [q|] eqn:Hq; [|done].
      cbn in Hstep. injection Hstep as <-. cbn. rewrite !length_insert.
      apply lookup_lt_Some in Hq. auto. }
  repeat split; try done; unfold resultDelay;
    destruct (scheduled st') as [|p later]; try done; by destruct (_ <? _)%Z.
Qed.

(** One answer and its result delay move a waiting session to the next
    question, or complete it at the last question. *)
Lemma answer_step answers k st a :
  length answers = n -> k < n -> answers !! k = Some a ->
  awaiting questions answers k st ->
  exists st',
    answerThenDelay topic difficulty questions st a = Some st' /\
    if decide (S k < n) then awaiting questions answers (S k) st'
    else completed topic difficulty questions answers st'.
Proof.
  intros Hlen Hk Ha (Hi & Hshow & Hans & Hua & Hscore & Hsched & Hnav).
  destruct (lookup_lt_is_Some_2 questions k Hk) as [q Hq].
  assert (length (take k answers) = k) as Htake by (rewrite length_take; lia).
  assert (answeredAt (answeredQuestions st) k = false) as Hopen.
  { unfold answeredAt. rewrite Hans, lookup_app_r by (rewrite length_replicate; lia).
    rewrite length_replicate, Nat.sub_diag, lookup_replicate_2 by lia. done. }
  assert (<[k:=true]> (answeredQuestions st)
          = replicate (S k) true ++ replicate (n - S k) false) as Hans'.
  { rewrite Hans, insert_app_r_alt by (rewrite length_replicate; lia).
    rewrite length_replicate, Nat.sub_diag.
    replace (n - k) with (S (n - S k)) by lia.
    by rewrite (replicate_S_end k true), <- app_assoc. }
  assert (<[k:=a]> (userAnswers st)
          = take (S k) answers ++ replicate (n - S k) (-1)%Z) as Hua'.
  { rewrite Hua, insert_app_r_alt by lia. rewrite Htake, Nat.sub_diag.
    replace (n - k) with (S (n - S k)) by lia.
    by rewrite (take_S_r _ _ _ Ha), <- app_assoc. }
  assert (matches questions (take (S k) answers)
          = (score st + (if (a =? correctAnswer q)%Z then 1 else 0))%Z) as Hscore'.
  { rewrite (take_S_r _ _ _ Ha), matches_snoc with (q := q), Hscore; [done|].
    by rewrite Htake. }
  unfold answerThenDelay, handleAnswerSelect.
  rewrite Hi, Hopen, Hshow, Hq. cbn [orb mbind option_bind fmap option_map].
  eexists. split; [reflexivity|].
  unfold resultDelay. cbn [scheduled]. rewrite Hsched. cbn [app p_index].
  destruct (decide (S k < n)) as [Hmore|Hlast].
  - destruct (Z.ltb_spec (Z.of_nat k) (Z.of_nat n - 1)); [|lia].
    unfold awaiting. cbn. rewrite Hans', Hua', Hscore'.
    repeat split; try done; try lia.
    destruct (a =? correctAnswer q)%Z; lia.
  - destruct (Z.ltb_spec (Z.of_nat k) (Z.of_nat n - 1)); [lia|].
    assert (n - k = 1) as Hone by lia.
    unfold completed. cbn. rewrite Hnav. eexists. split; [reflexivity|].
    cbn. rewrite Hua', Hans, Hua, Hone.
    replace (n - S k) with 0 by lia. rewrite app_nil_r.
    rewrite (take_ge answers (S k)) by lia.
    repeat split; try done. lia.
Qed.

(** What a completed session reported. *)
Lemma completed_results answers st :
  length answers = n ->
  completed topic difficulty questions answers st ->
  exists r,
    navigated st = [r] /\
    rs_score r = matches questions answers /\
    totalQuestions r = n /\
    userAnswers st = answers /\
    showResult st = true /\
    scheduled st = [].
Proof.
  intros Hlen (p & Hnav & Hidx & Ha & Hq & Hscore & _ & _ & Hua & Hshow & Hsched).
  exists (resultsOf topic difficulty questions p). repeat split; try done.
  assert (answers = take (p_index p) answers ++ [p_answer p]) as Hsplit.
  { rewrite <- (take_S_r _ _ _ Ha). symmetry. apply take_ge. lia. }
  cbn. transitivity (matches questions (take (p_index p) answers ++ [p_answer p]));
    [|by rewrite <- Hsplit].
  rewrite matches_snoc with (q := p_question p).
  - rewrite Hscore. destruct (p_answer p =? correctAnswer (p_question p))%Z; lia.
  - rewrite length_take. replace (p_index p `min` length answers) with (p_index p) by lia.
    done.
Qed.

Lemma play_app st l1 l2 :
  run st (l1 ++ l2) = run st l1 ≫= fun st' => run st' l2.
Proof.
  revert st. induction l1 as [|a l1 IH]; intros st; [done|].
  cbn. destruct (answerThenDelay topic difficulty questions st a); [|done].
  cbn. apply IH.
Qed.

Lemma initial_awaiting answers : awaiting questions answers 0 (initial questions).
Proof.
  unfold awaiting, initial. cbn. rewrite Nat.sub_0_r, matches_nil_r. done.
Qed.

(** After [j] answers the session waits at question [j]. *)
Lemma play_prefix answers j :
  length answers = n -> j < n ->
  exists st, run (initial questions) (take j answers) = Some st /\
             awaiting questions answers j st.
Proof.
  intros Hlen. induction j as [|j IH]; intros Hj.
  - exists (initial questions). split; [done | apply initial_awaiting].
  - destruct IH as (st & Hrun & Hwait); [lia|].
    destruct (lookup_lt_is_Some_2 answers j) as [a Ha]; [lia|].
    destruct (answer_step answers j st a) as (st' & Hstep & Hnext); try done; [lia|].
    destruct (decide (S j < n)) as [Hmore|Hlast]; [|lia].
    exists st'. split; [|done].
    rewrite (take_S_r _ _ _ Ha), play_app, Hrun. cbn. by rewrite Hstep.
Qed.

(** After all answers the session is completed. *)
Lemma play_all answers :
  length answers = n -> 0 < n ->
  exists st, run (initial questions) answers = Some st /\
             completed topic difficulty questions answers st.
Proof.
  intros Hlen Hn.
  destruct (play_prefix answers (n - 1)) as (st & Hrun & Hwait); [done | lia |].
  destruct (lookup_lt_is_Some_2 answers (n - 1)) as [a Ha]; [lia|].
  destruct (answer_step answers (n - 1) st a) as (st' & Hstep & Hnext); try done; [lia|].
  destruct (decide (S (n - 1) < n)) as [Hmore|Hlast]; [lia|].
  exists st'. split; [|done].
  rewrite <- (firstn_all answers) at 1. rewrite Hlen.
  replace n with (S (n - 1)) at 1 by lia.
  rewrite (take_S_r _ _ _ Ha), play_app, Hrun. cbn. by rewrite Hstep.
Qed.

(** Once completed, further answer events change nothing. *)
Lemma completed_stays answers st more :
  completed topic difficulty questions answers st -> run st more = Some st.
Proof.
  intros (p & _ & _ & _ & _ & _ & _ & _ & _ & Hshow & Hsched).
  induction more as [|a more IH]; [done|].
  cbn. unfold answerThenDelay. rewrite handle_noop by (rewrite Hshow; apply orb_true_r).
  cbn. unfold resultDelay. rewrite Hsched. cbn. exact IH.
Qed.

(** The outcome computed for question [i] by the callback of the last
    answer, from the answer recorded for it: the last question is unanswered
    on the sentinel; a question before the last is correct or incorrect,
    whatever was recorded. *)
Lemma outcomeOf_last_callback p answers i q a :
  S (p_index p) = n ->
  answers !! p_index p = Some (p_answer p) ->
  questions !! p_index p = Some (p_question p) ->
  p_answered p = replicate (p_index p) true ++ [false] ->
  p_userAnswers p = take (p_index p) answers ++ [(-1)%Z] ->
  questions !! i = Some q -> answers !! i = Some a ->
  outcomeOf p i q =
    if decide (S i = n) then
      if (a =? -1)%Z then unanswered
      else if (a =? correctAnswer q)%Z then correct else incorrect
    else
      if (a =? correctAnswer q)%Z then correct else incorrect.
Proof.
  intros Hidx Hlast Hq' Hans Hua Hq Ha. unfold outcomeOf.
  assert (i < n) as Hi by (by apply lookup_lt_Some in Hq).
  destruct (Nat.eqb_spec i (p_index p)) as [->|Hne].
  - rewrite Hlast in Ha. injection Ha as <-. rewrite Hq' in Hq. injection Hq as <-.
    destruct (decide (S (p_index p) = n)); [done | lia].
  - destruct (decide (S i = n)) as [Hend|Hmid]; [lia|].
    assert (i < p_index p) as Hlt by lia.
    assert (p_index p <= length answers) as Hle by (apply lookup_lt_Some in Hlast; lia).
    unfold answeredAt.
    rewrite Hans, lookup_app_l by (by rewrite length_replicate).
    rewrite lookup_replicate_2 by done.
    cbn. rewrite Hua, lookup_app_l by (rewrite length_take; lia).
    rewrite lookup_take_lt by done. by rewrite Ha.
Qed.

(** The outcomes a completed session reports. *)
Lemma reported_outcomes answers st :
  length answers = n ->
  completed topic difficulty questions answers st ->
  exists r,
    navigated st = [r] /\
    forall i q a,
      questions !! i = Some q -> answers !! i = Some a ->
      exists entry,
        rs_questions r !! i = Some entry /\
        r_question entry = q /\
        userAnswer entry =
          if decide (S i = n) then
            if (a =? -1)%Z then unanswered
            else if (a =? correctAnswer q)%Z then correct else incorrect
          else
            if (a =? correctAnswer q)%Z then correct else incorrect.
Proof.
  intros Hlen (p & Hnav & Hidx & Hlast & Hq' & _ & Hans & Hua & _).
  exists (resultsOf topic difficulty questions p). split; [done|].
  intros i q a Hq Ha. eexists. split.
  - cbn. rewrite list_lookup_imap, Hq. reflexivity.
  - split; [done|]. cbn. by eapply outcomeOf_last_callback.
Qed.

(** With a valid question, the reported outcome is the classification of
    the recorded answer for the last question and for every answer that is
    not the sentinel; a sentinel recorded before the last question is
    reported as incorrect. *)
Lemma reported_against_classify answers st i q a :
  length answers = n ->
  completed topic difficulty questions answers st ->
  questions !! i = Some q -> answers !! i = Some a ->
  correctAnswer q <> (-1)%Z ->
  exists r entry,
    navigated st = [r] /\
    rs_questions r !! i = Some entry /\
    (S i = n \/ a <> (-1)%Z -> userAnswer entry = classify q a) /\
    (S i < n -> a = (-1)%Z ->
     userAnswer entry = incorrect /\ classify q a = unanswered).
Proof.
  intros Hlen Hdone Hq Ha Hvalid.
  destruct (reported_outcomes answers st Hlen Hdone) as (r & Hnav & Hout).
  destruct (Hout i q a Hq Ha) as (entry & Hentry & _ & Hanswer).
  exists r, entry. split; [done|]. split; [done|].
  rewrite Hanswer. unfold classify.
  split.
  - intros Hcase.
    destruct (decide (S i = n)); destruct (Z.eqb_spec a (-1));
      destruct (Z.eqb_spec a (correctAnswer q)); (done || lia).
  - intros Hlt ->. destruct (decide (S i = n)); [lia|].
    destruct (Z.eqb_spec (-1) (correctAnswer q)); [done|]. done.
Qed.

(** Counting the entries marked correct counts the matching answers, when
    an entry is marked correct exactly on a matching answer. *)
Lemma count_correct (f : nat -> Question -> QuestionResult) qs answers :
  length answers = length qs ->
  (forall i q a, qs !! i = Some q -> answers !! i = Some a ->
     userAnswer (f i q) = correct <-> a = correctAnswer q) ->
  Z.of_nat (length (filter (fun entry => userAnswer entry = correct) (imap f qs)))
  = matches qs answers.
Proof.
  revert f answers. induction qs as [|q qs IH]; intros f [|a answers] Hlen Hf; try done.
  rewrite imap_cons, filter_cons. cbn [matches].
  specialize (IH (f ∘ S) answers).
  rewrite <- IH.
  - pose proof (Hf 0 q a eq_refl eq_refl) as H0.
    destruct (decide (userAnswer (f 0 q) = correct)) as [Hc|Hc];
      destruct (Z.eqb_spec a (correctAnswer q)) as [He|He]; cbn [length]; try lia.
    + by apply H0 in Hc.
    + by apply H0 in He.
  - cbn in Hlen. lia.
  - intros i q' a' Hq' Ha'. apply (Hf (S i) q' a'); done.
Qed.

(** With valid questions, the score a completed session reports is the
    number of questions it reports as correct. *)
Lemma score_counts_correct answers st :
  length answers = n ->
  Forall (fun q => correctAnswer q <> (-1)%Z) questions ->
  completed topic difficulty questions answers st ->
  exists r,
    navigated st = [r] /\
    Z.of_nat (ResultsPage.correctAnswers r) = rs_score r.
Proof.
  intros Hlen Hvalid Hdone.
  destruct (completed_results answers st Hlen Hdone) as (r & Hnav & Hscore & _).
  exists r. split; [done|]. rewrite Hscore.
  destruct Hdone as (p & Hnav' & Hidx & Hlast & Hq' & _ & Hans & Hua & _).
  rewrite Hnav in Hnav'. injection Hnav' as ->.
  unfold ResultsPage.correctAnswers, ResultsPage.withOutcome. cbn [rs_questions resultsOf].
  apply count_correct; [done|].
  intros i q a Hq Ha. cbn [userAnswer].
  rewrite (outcomeOf_last_callback p answers i q a) by done.
  assert (correctAnswer q <> (-1)%Z) as Hq1.
  { rewrite List.Forall_forall in Hvalid. apply Hvalid.
    apply list_elem_of_lookup_2 in Hq. by apply list_elem_of_In in Hq. }
  destruct (decide (S i = n)); destruct (Z.eqb_spec a (-1));
    destruct (Z.eqb_spec a (correctAnswer q)); split; intros; (done || lia).
Qed.

End SessionFacts.

(** C2. For every sequence of answer events (selections, or expiries of the
    timer with the sentinel -1) as long as the question list, each followed
    by its result delay, the session completes exactly once: it navigates to
    the results after the last event, not before, and further events change
    nothing. A call of [handleAnswerSelect] on a question that is already
    answered, or while the result is showing, leaves the state as it is. The
    score reported to the results equals the number of questions whose
    recorded answer equals the question's correctAnswer. *)
Theorem session_completes_once
    (topic difficulty : jsstring) (questions : list QuizGame.Question)
    (answers : list Z) :
  0 < length questions ->
  length answers = length questions ->
  (exists st r,
     QuizGame.play topic difficulty questions (QuizGame.initial questions) answers
       = Some st /\
     QuizGame.navigated st = [r] /\
     QuizGame.userAnswers st = answers /\
     QuizGame.rs_score r = QuizGame.matches questions answers /\
     QuizGame.totalQuestions r = length questions /\
     forall more, QuizGame.play topic difficulty questions st more = Some st) /\
  (forall j, j < length questions ->
     exists st,
       QuizGame.play topic difficulty questions (QuizGame.initial questions)
         (take j answers) = Some st /\
       QuizGame.navigated st = []) /\
  (forall st i,
     QuizGame.answeredAt (QuizGame.answeredQuestions st) (QuizGame.currentQuestionIndex st)
       || QuizGame.showResult st = true ->
     QuizGame.handleAnswerSelect questions i st = Some st).
Proof.
  intros Hn Hlen. split; [|split].
  - destruct (play_all topic difficulty questions answers Hlen Hn) as (st & Hrun & Hdone).
    pose proof (completed_stays topic difficulty questions answers st) as Hstay.
    destruct (completed_results topic difficulty questions answers st Hlen Hdone)
      as (r & Hnav & Hscore & Htotal & Hua & _).
    exists st, r. repeat split; try done.
    intros more. by apply Hstay.
  - intros j Hj.
    destruct (play_prefix topic difficulty questions answers j Hlen Hj)
      as (st & Hrun & Hwait).
    exists st. split; [done|]. apply Hwait.
  - intros st i. apply handle_noop.
Qed.

(** The built-in questions, every one answered correctly. *)
Lemma session_completes_once_example :
  0 < length QuizGame.mockQuestions /\
  length [0; 2; 0; 2; 1]%Z = length QuizGame.mockQuestions /\
  exists st r,
    QuizGame.play (lit "Software Testing") (lit "medium") QuizGame.mockQuestions
      (QuizGame.initial QuizGame.mockQuestions) [0; 2; 0; 2; 1]%Z = Some st /\
    QuizGame.navigated st = [r] /\
    QuizGame.rs_score r = 5%Z.
Proof.
  assert (0 < length QuizGame.mockQuestions) as Hn by (simpl; lia).
  assert (length [0; 2; 0; 2; 1]%Z = length QuizGame.mockQuestions) as Hlen
    by reflexivity.
  split; [exact Hn | split; [exact Hlen |]].
  destruct (session_completes_once (lit "Software Testing") (lit "medium")
              QuizGame.mockQuestions [0; 2; 0; 2; 1]%Z Hn Hlen)
    as [(st & r & Hrun & Hnav & _ & Hscore & _) _].
  exists st, r. split; [exact Hrun | split; [exact Hnav |]].
  rewrite Hscore. reflexivity.
Defined.

(** ** The built-in questions *)

(** C10. Entered without questions (no navigation state, a state without a
    questions field, or an empty list), the quiz-play screen uses its five
    built-in software-testing questions, each with exactly four options and
    a correctAnswer in 0..3, and the session runs on them: its state has five
    slots, the first built-in question is current, and five answer events
    complete it with a total of five. *)
Theorem mock_questions_substituted :
  QuizGame.questionsOf None = QuizGame.mockQuestions /\
  (forall t d,
     QuizGame.questionsOf
       (Some {| QuizGame.ls_topic := t; QuizGame.ls_difficulty := d;
                QuizGame.ls_questions := None |}) = QuizGame.mockQuestions) /\
  (forall t d,
     QuizGame.questionsOf
       (Some {| QuizGame.ls_topic := t; QuizGame.ls_difficulty := d;
                QuizGame.ls_questions := Some [] |}) = QuizGame.mockQuestions) /\
  length QuizGame.mockQuestions = 5 /\
  Forall (fun q => length (QuizGame.options q) = 4 /\
                   (0 <= QuizGame.correctAnswer q <= 3)%Z) QuizGame.mockQuestions /\
  Forall (fun q => includes (lit "test") (toLowerCase (QuizGame.question q)) = true
                   \/ includes (lit "tdd") (toLowerCase (QuizGame.question q)) = true)
    QuizGame.mockQuestions /\
  (let st := QuizGame.initial (QuizGame.questionsOf None) in
   length (QuizGame.answeredQuestions st) = 5 /\
   length (QuizGame.userAnswers st) = 5 /\
   QuizGame.questionsOf None !! QuizGame.currentQuestionIndex st
     = head QuizGame.mockQuestions) /\
  (forall topic difficulty answers,
     length answers = 5 ->
     exists st r,
       QuizGame.play topic difficulty (QuizGame.questionsOf None)
         (QuizGame.initial (QuizGame.questionsOf None)) answers = Some st /\
       QuizGame.navigated st = [r] /\
       QuizGame.totalQuestions r = 5).
Proof.
  split; [reflexivity|]. split; [reflexivity|]. split; [reflexivity|].
  split; [reflexivity|]. split.
  { repeat constructor; discriminate. }
  split.
  { repeat (constructor; [vm_compute; auto|]). constructor. }
  split; [by repeat split|].
  intros topic difficulty answers Hlen.
  change (QuizGame.questionsOf None) with QuizGame.mockQuestions.
  destruct (play_all topic difficulty QuizGame.mockQuestions answers)
    as (st & Hrun & Hdone); [done | simpl; lia |].
  destruct (completed_results topic difficulty QuizGame.mockQuestions answers st Hlen Hdone)
    as (r & Hnav & _ & Htotal & _).
  by exists st, r.
Qed.

(** ** The outcome of a question whose timer ran out *)

(** The timer effect calls [handleAnswerSelect] with the sentinel when the
    time is up on a question that is not answered yet. *)
Lemma timer_expiry_is_sentinel (questions : list QuizGame.Question) (st : QuizGame.State) :
  QuizGame.timeLeft st = 0%Z ->
  QuizGame.answeredAt (QuizGame.answeredQuestions st) (QuizGame.currentQuestionIndex st)
    = false ->
  QuizGame.showResult st = false ->
  QuizGame.timerEffect st = QuizGame.TimesUp /\
  QuizGame.afterTimerEffect questions st = QuizGame.handleAnswerSelect questions (-1) st.
Proof.
  intros Ht Ha Hs. unfold QuizGame.afterTimerEffect, QuizGame.timerEffect.
  by rewrite Ht, Ha, Hs.
Qed.

(** While time is left the effect only schedules the next tick, and the last
    tick brings the time to zero. *)
Lemma timer_counts_down (st : QuizGame.State) :
  (0 < QuizGame.timeLeft st)%Z ->
  QuizGame.answeredAt (QuizGame.answeredQuestions st) (QuizGame.currentQuestionIndex st)
    = false ->
  QuizGame.showResult st = false ->
  QuizGame.timerEffect st = QuizGame.ScheduleTick /\
  QuizGame.timeLeft (QuizGame.tick st) = (QuizGame.timeLeft st - 1)%Z /\
  (QuizGame.timeLeft st = 1%Z -> QuizGame.timerEffect (QuizGame.tick st) = QuizGame.TimesUp).
Proof.
  intros Ht Ha Hs. unfold QuizGame.timerEffect. cbn. rewrite Ha, Hs.
  destruct (Z.ltb_spec 0 (QuizGame.timeLeft st)); [|lia].
  split; [done|]. split; [done|]. by intros ->.
Qed.

(** The direct client answers a failing provider with the generic hint. *)
Lemma direct_hint_fallback_example :
  fst (Direct.generateHint Examples.failing (lit "Which river is longest?") (lit "Rhine") [])
  = Return fallbackHint.
Proof. reflexivity. Qed.

(** The sentinel never scores on a question whose correctAnswer is valid. *)
Lemma sentinel_never_scores (questions : list QuizGame.Question) (st st' : QuizGame.State) :
  Forall (fun q => (0 <= QuizGame.correctAnswer q <= 3)%Z) questions ->
  QuizGame.handleAnswerSelect questions (-1) st = Some st' ->
  QuizGame.score st' = QuizGame.score st.
Proof.
  intros Hvalid. unfold QuizGame.handleAnswerSelect.
  destruct (_ || _); [by intros [= <-]|].
  destruct (questions !! QuizGame.currentQuestionIndex st) as [q|] eqn:Hq; [|done].
  cbn. intros [= <-]. cbn.
  apply list_elem_of_lookup_2, list_elem_of_In in Hq.
  rewrite List.Forall_forall in Hvalid. apply Hvalid in Hq.
  destruct (QuizGame.correctAnswer q); (done || lia).
Qed.

(** C3, at the player who never answers the five built-in questions: every
    expiry records the sentinel and the score stays 0, but the four
    questions before the last are reported as incorrect; only the last one
    is reported as unanswered. *)
Lemma timed_out_question_marked_incorrect :
  exists st r,
    QuizGame.play (lit "Software Testing") (lit "medium") QuizGame.mockQuestions
      (QuizGame.initial QuizGame.mockQuestions) Examples.neverAnswers = Some st /\
    QuizGame.navigated st = [r] /\
    QuizGame.userAnswers st = [-1; -1; -1; -1; -1]%Z /\
    QuizGame.rs_score r = 0%Z /\
    QuizGame.userAnswer <$> QuizGame.rs_questions r
      = [QuizGame.incorrect; QuizGame.incorrect; QuizGame.incorrect;
         QuizGame.incorrect; QuizGame.unanswered].
Proof.
  eexists _, _. split; [vm_compute; reflexivity|].
  split; [reflexivity|]. split; [reflexivity|]. split; reflexivity.
Qed.

(** ** The results *)

(** The three counts of the results page add up to the number of questions. *)
Lemma counts_partition (s : QuizGame.ResultsState) :
  ResultsPage.correctAnswers s + ResultsPage.incorrectAnswers s
    + ResultsPage.unansweredQuestions s
  = length (QuizGame.rs_questions s).
Proof.
  unfold ResultsPage.correctAnswers, ResultsPage.incorrectAnswers,
    ResultsPage.unansweredQuestions, ResultsPage.withOutcome.
  induction (QuizGame.rs_questions s) as [|q l IH]; [done|].
  rewrite !filter_cons. destruct (QuizGame.userAnswer q);
    repeat case_decide; try done; cbn; lia.
Qed.

(** C5, at the player who never answers the five built-in questions: the
    four timed-out questions before the last are counted as incorrect and
    handed to the review; one question counts as unanswered. *)
Lemma timed_out_questions_reach_review :
  exists st r,
    QuizGame.play (lit "Software Testing") (lit "medium") QuizGame.mockQuestions
      (QuizGame.initial QuizGame.mockQuestions) Examples.neverAnswers = Some st /\
    QuizGame.navigated st = [r] /\
    ResultsPage.correctAnswers r = 0 /\
    ResultsPage.incorrectAnswers r = 4 /\
    ResultsPage.unansweredQuestions r = 1 /\
    QuizGame.r_id <$> ResultsPage.missedQuestions r = [1; 2; 3; 4]%Z.
Proof.
  eexists _, _. split; [vm_compute; reflexivity|].
  split; [reflexivity|]. repeat split; vm_compute; reflexivity.
Qed.

(** ** Every order of events *)

Section TraceFacts.

Import QuizGame.

Variable topic : jsstring.
Variable difficulty : jsstring.
Variable questions : list Question.

Local Abbreviation n := (length questions).
Local Abbreviation handle := (handleAnswerSelect questions).

(** A click or an expiry on a waiting session records the answer and shows
    its result. *)
Lemma select_awaiting answers k a st :
  k = length answers -> k < n ->
  awaiting questions answers k st ->
  exists st', handle a st = Some st' /\
              showing questions (answers ++ [a]) k st'.
Proof.
  intros Hlen Hk (Hi & Hshow & Hans & Hua & Hscore & Hsched & Hnav).
  destruct (lookup_lt_is_Some_2 questions k Hk) as [q Hq].
  rewrite take_ge in Hua, Hscore by lia.
  assert (answeredAt (answeredQuestions st) k = false) as Hopen.
  { unfold answeredAt. rewrite Hans, lookup_app_r by (rewrite length_replicate; lia).
    rewrite length_replicate, Nat.sub_diag, lookup_replicate_2 by lia. done. }
  assert (take (S k) (answers ++ [a]) = answers ++ [a]) as HtakeS.
  { apply take_ge. rewrite length_app. cbn. lia. }
  assert (take k (answers ++ [a]) = answers) as Htake.
  { rewrite Hlen. by rewrite take_app_length. }
  assert (<[k:=true]> (answeredQuestions st)
          = replicate (S k) true ++ replicate (n - S k) false) as Hans'.
  { rewrite Hans, insert_app_r_alt by (rewrite length_replicate; lia).
    rewrite length_replicate, Nat.sub_diag.
    replace (n - k) with (S (n - S k)) by lia.
    by rewrite (replicate_S_end k true), <- app_assoc. }
  assert (<[k:=a]> (userAnswers st)
          = (answers ++ [a]) ++ replicate (n - S k) (-1)%Z) as Hua'.
  { rewrite Hua, insert_app_r_alt by lia. rewrite <- Hlen, Nat.sub_diag.
    replace (n - k) with (S (n - S k)) by lia.
    by rewrite <- app_assoc. }
  assert (matches questions (answers ++ [a])
          = (score st + (if (a =? correctAnswer q)%Z then 1 else 0))%Z) as Hscore'.
  { rewrite (matches_snoc questions answers q a), Hscore; [done|]. by rewrite <- Hlen. }
  unfold handleAnswerSelect.
  rewrite Hi, Hopen, Hshow, Hq. cbn [orb mbind option_bind].
  eexists. split; [reflexivity|].
  exists q, a. cbn. rewrite HtakeS, Htake, Hsched, Hnav, Hans', Hua', Hscore', Hans, Hua, Hscore.
  repeat split; try done.
  - rewrite Hlen. by rewrite lookup_app_r, Nat.sub_diag by lia.
  - destruct (a =? correctAnswer q)%Z; lia.
Qed.

(** The 3-second callback of a shown result moves to the next question, or
    completes the session at the last one. *)
Lemma delay_showing answers k st :
  length answers = S k ->
  showing questions answers k st ->
  if decide (S k < n)
  then awaiting questions answers (S k) (resultDelay topic difficulty questions st)
  else finished topic difficulty questions answers
         (resultDelay topic difficulty questions st).
Proof.
  intros Hlen (q & a & Hq & Ha & Hi & Hshow & Hans & Hua & Hscore & Hsched & Hnav).
  assert (k < n) as Hk by (by apply lookup_lt_Some in Hq).
  unfold resultDelay. rewrite Hsched. cbn [p_index].
  destruct (decide (S k < n)) as [Hmore|Hlast].
  - destruct (Z.ltb_spec (Z.of_nat k) (Z.of_nat n - 1)); [|lia].
    unfold awaiting. cbn. repeat split; try done. lia.
  - destruct (Z.ltb_spec (Z.of_nat k) (Z.of_nat n - 1)); [lia|].
    assert (n - k = 1) as Hone by lia.
    assert (n - S k = 0) as Hzero by lia.
    rewrite Hzero, app_nil_r in Hans, Hua.
    rewrite take_ge in Hua, Hscore by lia.
    unfold finished, completed. cbn. rewrite Hnav, Hone.
    repeat split; try done; try lia.
    + eexists. split; [reflexivity|]. cbn. repeat split; try done. lia.
    + rewrite Hans. f_equal. lia.
Qed.

Lemma awaiting_timeLeft answers k st st' :
  currentQuestionIndex st' = currentQuestionIndex st ->
  showResult st' = showResult st ->
  answeredQuestions st' = answeredQuestions st ->
  userAnswers st' = userAnswers st ->
  score st' = score st ->
  scheduled st' = scheduled st ->
  navigated st' = navigated st ->
  awaiting questions answers k st -> awaiting questions answers k st'.
Proof. unfold awaiting. intros -> -> -> -> -> -> ->. done. Qed.

Lemma showing_timeLeft answers k st st' :
  currentQuestionIndex st' = currentQuestionIndex st ->
  showResult st' = showResult st ->
  answeredQuestions st' = answeredQuestions st ->
  userAnswers st' = userAnswers st ->
  score st' = score st ->
  scheduled st' = scheduled st ->
  navigated st' = navigated st ->
  showing questions answers k st -> showing questions answers k st'.
Proof. unfold showing. intros -> -> -> -> -> -> ->. done. Qed.

Lemma finished_timeLeft answers st st' :
  currentQuestionIndex st' = currentQuestionIndex st ->
  showResult st' = showResult st ->
  answeredQuestions st' = answeredQuestions st ->
  userAnswers st' = userAnswers st ->
  score st' = score st ->
  scheduled st' = scheduled st ->
  navigated st' = navigated st ->
  finished topic difficulty questions answers st ->
  finished topic difficulty questions answers st'.
Proof. unfold finished, completed. intros -> -> -> -> -> -> ->. done. Qed.

Lemma inSession_timeLeft st st' :
  currentQuestionIndex st' = currentQuestionIndex st ->
  showResult st' = showResult st ->
  answeredQuestions st' = answeredQuestions st ->
  userAnswers st' = userAnswers st ->
  score st' = score st ->
  scheduled st' = scheduled st ->
  navigated st' = navigated st ->
  inSession topic difficulty questions st -> inSession topic difficulty questions st'.
Proof.
  intros H1 H2 H3 H4 H5 H6 H7 (answers & [[Hlen Hw] | [(k & Hlen & Hs) | [Hlen Hf]]]);
    exists answers.
  - left. split; [done|]. by eapply awaiting_timeLeft.
  - right. left. exists k. split; [done|]. by eapply showing_timeLeft.
  - right. right. split; [done|]. by eapply finished_timeLeft.
Qed.

(** While a result shows, a further call of [handleAnswerSelect] and the
    timer effect change nothing. *)
Lemma shown_ignores st a :
  showResult st = true ->
  handle a st = Some st /\ afterTimerEffect questions st = Some st.
Proof.
  intros Hshow. split.
  - apply handle_noop. rewrite Hshow. apply orb_true_r.
  - unfold afterTimerEffect, timerEffect. rewrite Hshow.
    by rewrite !andb_false_r, ?andb_false_l.
Qed.

(** Every event keeps the session in one of its three phases. *)
Lemma step_inSession st e :
  inSession topic difficulty questions st ->
  exists st', step topic difficulty questions st e = Some st' /\
              inSession topic difficulty questions st'.
Proof.
  intros Hin.
  assert (forall a, exists st', handle a st = Some st' /\
                      inSession topic difficulty questions st') as Hselect.
  { intros a. destruct Hin as (answers & [[Hlen Hw] | [(k & Hlen & Hs) | [Hlen Hf]]]).
    - destruct (select_awaiting answers _ a st eq_refl Hlen Hw) as (st' & Hst' & Hs).
      exists st'. split; [done|]. exists (answers ++ [a]). right. left.
      exists (length answers). split; [|done]. rewrite length_app. cbn. lia.
    - exists st. split.
      + apply shown_ignores. by destruct Hs as (? & ? & ? & ? & ? & ? & ?).
      + exists answers. right. left. by exists k.
    - exists st. split.
      + apply shown_ignores. destruct Hf as [(p & Hp) _]. tauto.
      + exists answers. right. right. done. }
  destruct e as [a| | | |]; cbn [step].
  - apply Hselect.
  - eexists. split; [reflexivity|].
    destruct Hin as (answers & [[Hlen Hw] | [(k & Hlen & Hs) | [Hlen Hf]]]).
    + assert (scheduled st = []) as Hsched by (unfold awaiting in Hw; tauto).
      unfold resultDelay. rewrite Hsched. exists answers. by left.
    + pose proof (delay_showing answers k st Hlen Hs) as Hnext.
      assert (k < n) as Hk.
      { destruct Hs as (q & ? & Hq & _). by apply lookup_lt_Some in Hq. }
      exists answers. destruct (decide (S k < n)).
      * left. rewrite Hlen. done.
      * right. right. split; [lia|done].
    + assert (scheduled st = []) as Hsched.
      { destruct Hf as [(p & Hp) _]. tauto. }
      unfold resultDelay. rewrite Hsched. exists answers. right. right. done.
  - eexists. split; [reflexivity|]. by eapply inSession_timeLeft; [..|exact Hin].
  - unfold afterTimerEffect. destruct (timerEffect st).
    + by exists st.
    + apply Hselect.
    + by exists st.
  - eexists. split; [reflexivity|]. by eapply inSession_timeLeft; [..|exact Hin].
Qed.

Lemma steps_inSession events st :
  inSession topic difficulty questions st ->
  exists st', steps topic difficulty questions st events = Some st' /\
              inSession topic difficulty questions st'.
Proof.
  revert st. induction events as [|e events IH]; intros st Hin.
  - by exists st.
  - destruct (step_inSession st e Hin) as (st1 & Hst1 & Hin1).
    destruct (IH st1 Hin1) as (st' & Hst' & Hin').
    exists st'. split; [|done]. cbn [steps]. rewrite Hst1. done.
Qed.

Lemma initial_inSession : 0 < n -> inSession topic difficulty questions (initial questions).
Proof.
  intros Hn. exists []. left. split; [done|]. apply initial_awaiting.
Qed.

End TraceFacts.

Section TraceObservables.

Import QuizGame.

Variable topic : jsstring.
Variable difficulty : jsstring.
Variable questions : list Question.

Local Abbreviation n := (length questions).

Lemma matches_bounds qs l :
  (0 <= matches qs l <= Z.of_nat (length l))%Z.
Proof.
  revert l. induction qs as [|q qs IH]; intros [|a l]; cbn; try lia.
  specialize (IH l). destruct (a =? correctAnswer q)%Z; lia.
Qed.

Lemma count_answered k m :
  length (filter (fun b => b = true) (replicate k true ++ replicate m false)) = k.
Proof.
  rewrite list.filter_app, length_app.
  assert (forall j, filter (fun b => b = true) (replicate j true) = replicate j true) as Ht.
  { induction j as [|j IH]; [done|]. cbn [replicate]. rewrite filter_cons_True by done. by rewrite IH. }
  assert (forall j, filter (fun b => b = true) (replicate j false) = []) as Hf.
  { induction j as [|j IH]; [done|]. cbn [replicate]. by rewrite filter_cons_False. }
  rewrite Ht, Hf, length_replicate. cbn. lia.
Qed.

Lemma resultsOf_length p :
  length (rs_questions (resultsOf topic difficulty questions p)) = n.
Proof. cbn. by rewrite length_imap. Qed.

(** What holds in each phase of a session. *)
Lemma inSession_observed st :
  inSession topic difficulty questions st ->
  currentQuestionIndex st < n /\
  length (answeredQuestions st) = n /\
  length (userAnswers st) = n /\
  completedCount st <= n /\
  (0 <= score st <= Z.of_nat (completedCount st))%Z /\
  score st = matches questions (take (completedCount st) (userAnswers st)) /\
  length (scheduled st) <= 1 /\
  length (navigated st) <= 1 /\
  (forall r, navigated st = [r] ->
     completedCount st = n /\ rs_score r = score st /\ totalQuestions r = n /\
     length (rs_questions r) = n).
Proof.
  intros (answers & [[Hlen Hw] | [(k & Hlen & Hs) | [Hlen Hf]]]).
  - destruct Hw as (Hi & Hshow & Hans & Hua & Hscore & Hsched & Hnav).
    rewrite take_ge in Hua, Hscore by lia.
    assert (completedCount st = length answers) as Hc.
    { unfold completedCount. rewrite Hans. apply count_answered. }
    rewrite Hc, Hans, Hua, Hsched, Hnav, Hscore, Hi.
    rewrite !length_app, !length_replicate, take_app_length.
    pose proof (matches_bounds questions answers).
    split_and!; cbn; try lia. intros r Hr. discriminate Hr.
  - destruct Hs as (q & a & Hq & Ha & Hi & Hshow & Hans & Hua & Hscore & Hsched & Hnav).
    apply lookup_lt_Some in Hq.
    rewrite take_ge in Hua, Hscore by lia.
    assert (completedCount st = S k) as Hc.
    { unfold completedCount. rewrite Hans. apply count_answered. }
    rewrite Hc, Hans, Hua, Hsched, Hnav, Hscore, Hi.
    rewrite !length_app, !length_replicate, <- Hlen, take_app_length.
    pose proof (matches_bounds questions answers).
    split_and!; cbn; try lia. intros r Hr. discriminate Hr.
  - destruct Hf as (Hdone & Hi & Hans & Hscore).
    destruct (completed_results topic difficulty questions answers st Hlen Hdone)
      as (r & Hnav & Hr & Htotal & Hua & Hshow & Hsched).
    assert (completedCount st = n) as Hc.
    { unfold completedCount. rewrite Hans, <- (app_nil_r (replicate n true)).
      apply (count_answered n 0). }
    rewrite Hc, Hans, Hua, Hsched, Hnav, Hscore, length_replicate, take_ge by lia.
    pose proof (matches_bounds questions answers).
    split_and!; cbn; try lia.
    intros r' Hr'. injection Hr' as <-. split_and!; try done.
    destruct Hdone as (p & Hp & _). rewrite Hnav in Hp. injection Hp as ->.
    apply resultsOf_length.
Qed.

End TraceObservables.

(** X1. Whatever happens to the mounted quiz screen, in whatever order -
    clicks on options with any index, the 3-second callbacks, timer ticks,
    runs of the timer effect and of the timer-update effect - the component
    never fails and its state stays consistent: the current question exists
    (so the class of every answer button can be computed), both arrays keep
    one entry per question, the score is the number of
    answered questions whose recorded answer is the correct one (so it lies
    between 0 and the number of answered questions), at most one 3-second
    callback is pending, and the screen navigates to the results at most
    once, only when every question is answered, with the score on screen and
    one entry per question. *)
Theorem session_invariants (topic difficulty : jsstring)
    (questions : list QuizGame.Question) (events : list QuizGame.Event) :
  0 < length questions ->
  exists st,
    QuizGame.steps topic difficulty questions (QuizGame.initial questions) events = Some st /\
    QuizGame.currentQuestionIndex st < length questions /\
    length (QuizGame.answeredQuestions st) = length questions /\
    length (QuizGame.userAnswers st) = length questions /\
    QuizGame.completedCount st <= length questions /\
    (0 <= QuizGame.score st <= Z.of_nat (QuizGame.completedCount st))%Z /\
    QuizGame.score st
      = QuizGame.matches questions
          (take (QuizGame.completedCount st) (QuizGame.userAnswers st)) /\
    length (QuizGame.scheduled st) <= 1 /\
    length (QuizGame.navigated st) <= 1 /\
    (forall r, QuizGame.navigated st = [r] ->
       QuizGame.completedCount st = length questions /\
       QuizGame.rs_score r = QuizGame.score st /\
       QuizGame.totalQuestions r = length questions /\
       length (QuizGame.rs_questions r) = length questions) /\
    (forall index, is_Some (QuizGame.getAnswerButtonClass questions st index)).
Proof.
  intros Hn.
  destruct (steps_inSession topic difficulty questions events _
              (initial_inSession topic difficulty questions Hn)) as (st & Hst & Hin).
  pose proof (inSession_observed topic difficulty questions st Hin)
    as (Hi & Ha & Hu & Hc & Hs & Hm & Hp & Hnav & Hr).
  exists st. do 10 (split; [done|]).
  intros index. unfold is_Some, QuizGame.getAnswerButtonClass.
  destruct (negb (QuizGame.showResult st)); [by eexists|].
  destruct (lookup_lt_is_Some_2 questions _ Hi) as [q ->]. cbn [mbind option_bind].
  destruct (index =? QuizGame.correctAnswer q)%Z; [by eexists|].
  destruct (_ && _); by eexists.
Qed.

(** The built-in questions under a disorderly run: a double click, a timer
    effect while the result shows, a stray callback, ticks and a reset. *)
Lemma session_invariants_example :
  0 < length QuizGame.mockQuestions /\
  exists st,
    QuizGame.steps (lit "Software Testing") (lit "medium") QuizGame.mockQuestions
      (QuizGame.initial QuizGame.mockQuestions)
      [QuizGame.ResultDelay; QuizGame.Select 0; QuizGame.Select 3; QuizGame.TimerEffect;
       QuizGame.ResultDelay; QuizGame.Tick; QuizGame.TimerReset; QuizGame.Select 7;
       QuizGame.ResultDelay; QuizGame.ResultDelay] = Some st /\
    QuizGame.currentQuestionIndex st < length QuizGame.mockQuestions /\
    (0 <= QuizGame.score st <= Z.of_nat (QuizGame.completedCount st))%Z /\
    length (QuizGame.navigated st) <= 1.
Proof.
  split; [cbn; lia|].
  destruct (session_invariants (lit "Software Testing") (lit "medium")
              QuizGame.mockQuestions
              [QuizGame.ResultDelay; QuizGame.Select 0; QuizGame.Select 3;
               QuizGame.TimerEffect; QuizGame.ResultDelay; QuizGame.Tick;
               QuizGame.TimerReset; QuizGame.Select 7; QuizGame.ResultDelay;
               QuizGame.ResultDelay])
    as (st & Hst & Hi & _ & _ & _ & Hscore & _ & _ & Hnav & _ & _).
  - cbn. lia.
  - exists st. repeat split; try done; lia.
Defined.

(** ** The countdown *)

Lemma ticks_state (st : QuizGame.State) (j : nat) :
  let st' := Nat.iter j QuizGame.tick st in
  QuizGame.timeLeft st' = (QuizGame.timeLeft st - Z.of_nat j)%Z /\
  QuizGame.currentQuestionIndex st' = QuizGame.currentQuestionIndex st /\
  QuizGame.showResult st' = QuizGame.showResult st /\
  QuizGame.answeredQuestions st' = QuizGame.answeredQuestions st.
Proof.
  induction j as [|j IH].
  - cbn. split_and!; try done. lia.
  - destruct IH as (Ht & Hi & Hs & Ha). rewrite Nat.iter_succ.
    cbn [QuizGame.tick QuizGame.timeLeft QuizGame.currentQuestionIndex
         QuizGame.showResult QuizGame.answeredQuestions].
    split_and!; try done. lia.
Qed.

(** X2. On a question that waits for its answer, with [t] on the clock, the
    timer effect schedules a tick as long as time is left and calls
    [handleAnswerSelect(-1)] exactly in the render in which the clock shows
    0, that is after [t] ticks: not before, and never again once the clock
    is negative. A question whose clock starts below zero is never timed
    out. *)
Theorem timer_fires_at_zero (questions : list QuizGame.Question) (st : QuizGame.State)
    (j : nat) :
  QuizGame.showResult st = false ->
  QuizGame.answeredAt (QuizGame.answeredQuestions st) (QuizGame.currentQuestionIndex st)
    = false ->
  let st' := Nat.iter j QuizGame.tick st in
  QuizGame.timeLeft st' = (QuizGame.timeLeft st - Z.of_nat j)%Z /\
  QuizGame.timerEffect st' =
    (if (Z.of_nat j <? QuizGame.timeLeft st)%Z then QuizGame.ScheduleTick
     else if (Z.of_nat j =? QuizGame.timeLeft st)%Z then QuizGame.TimesUp
     else QuizGame.Idle) /\
  QuizGame.afterTimerEffect questions st' =
    (if (Z.of_nat j =? QuizGame.timeLeft st)%Z
     then QuizGame.handleAnswerSelect questions (-1) st' else Some st') /\
  ((QuizGame.timeLeft st < 0)%Z -> QuizGame.timerEffect st' = QuizGame.Idle).
Proof.
  intros Hshow Hopen st'.
  destruct (ticks_state st j) as (Ht & Hi & Hs & Ha). fold st' in Ht, Hi, Hs, Ha.
  assert (QuizGame.timerEffect st' =
    (if (Z.of_nat j <? QuizGame.timeLeft st)%Z then QuizGame.ScheduleTick
     else if (Z.of_nat j =? QuizGame.timeLeft st)%Z then QuizGame.TimesUp
     else QuizGame.Idle)) as Heffect.
  { unfold QuizGame.timerEffect. rewrite Ht, Hi, Hs, Ha, Hshow, Hopen. cbn [negb andb].
    rewrite !andb_true_r.
    destruct (Z.ltb_spec (Z.of_nat j) (QuizGame.timeLeft st)),
             (Z.eqb_spec (Z.of_nat j) (QuizGame.timeLeft st)),
             (Z.ltb_spec 0 (QuizGame.timeLeft st - Z.of_nat j)),
             (Z.eqb_spec (QuizGame.timeLeft st - Z.of_nat j) 0); (done || lia). }
  split_and!; [done|done| |].
  - unfold QuizGame.afterTimerEffect. rewrite Heffect.
    destruct (Z.ltb_spec (Z.of_nat j) (QuizGame.timeLeft st)),
             (Z.eqb_spec (Z.of_nat j) (QuizGame.timeLeft st)); (done || lia).
  - intros Hneg. rewrite Heffect.
    destruct (Z.ltb_spec (Z.of_nat j) (QuizGame.timeLeft st)),
             (Z.eqb_spec (Z.of_nat j) (QuizGame.timeLeft st)); (done || lia).
Qed.

(** The first built-in question has 30 seconds on the clock; the effect of
    the render after the 30th tick is decided by the comparison of 30 with
    that clock. *)
Lemma timer_fires_at_zero_example :
  let st := QuizGame.initial QuizGame.mockQuestions in
  let st' := Nat.iter 30 QuizGame.tick st in
  QuizGame.timeLeft st = 30%Z /\
  QuizGame.showResult st = false /\
  QuizGame.answeredAt (QuizGame.answeredQuestions st) (QuizGame.currentQuestionIndex st)
    = false /\
  QuizGame.timeLeft st' = (QuizGame.timeLeft st - Z.of_nat 30)%Z /\
  QuizGame.afterTimerEffect QuizGame.mockQuestions st' =
    (if (Z.of_nat 30 =? QuizGame.timeLeft st)%Z
     then QuizGame.handleAnswerSelect QuizGame.mockQuestions (-1) st' else Some st').
Proof.
  intros st st'. split; [reflexivity|]. split; [reflexivity|]. split; [reflexivity|].
  pose proof (timer_fires_at_zero QuizGame.mockQuestions st 30 eq_refl eq_refl) as H.
  split; [exact (proj1 H)|exact (proj1 (proj2 (proj2 H)))].
Defined.

(** ** The guards of the handlers *)

Section GuardFacts.

Variable provider : Provider.

(** Before its own work a handler answers the pre-flight, a wrong method
    and a missing API key, without running the work. *)
Lemma guarded_run httpMethod apiKey work log :
  Handler.guarded httpMethod apiKey work log =
    if bool_decide (httpMethod = lit "OPTIONS") then
      (Return {| Handler.statusCode := 200; Handler.body := Handler.Empty |}, log)
    else if bool_decide (httpMethod = lit "POST") then
      match apiKey with
      | Some (_ :: _) => work log
      | _ => (Return {| Handler.statusCode := 500;
                        Handler.body := Handler.errorBody
                          (lit "Server configuration error: API key not found") |}, log)
      end
    else
      (Return {| Handler.statusCode := 405;
                 Handler.body := Handler.errorBody (lit "Method Not Allowed") |}, log).
Proof.
  unfold Handler.guarded.
  destruct (bool_decide (httpMethod = lit "OPTIONS")); [done|].
  destruct (bool_decide (httpMethod = lit "POST")); [|done].
  by destruct apiKey as [[|c k]|].
Qed.

(** The work of the quiz handler: without a topic no provider call. *)
Lemma quiz_work_run JSON_parse nullRead req log :
  tryIO
    (if bool_decide (Handler.topic req = []) then
       mret {| Handler.statusCode := 400;
               Handler.body := Handler.errorBody (lit "Topic is required") |}
     else
       text ← generateContent provider
                (Prompts.quizPrompt (Handler.topic req) (Handler.difficulty req)
                   (Handler.numQuestions req));
       quizData ← lift (normalizeQuiz JSON_parse nullRead text);
       mret {| Handler.statusCode := 200; Handler.body := Handler.Json quizData |})
    (fun error =>
       mret {| Handler.statusCode := 500;
               Handler.body := Handler.errorBody
                 (lit "Failed to generate quiz: " ++ Handler.messageText error) |}) log
  = if bool_decide (Handler.topic req = []) then
      (Return {| Handler.statusCode := 400;
                 Handler.body := Handler.errorBody (lit "Topic is required") |}, log)
    else
      let prompt := Prompts.quizPrompt (Handler.topic req) (Handler.difficulty req)
                      (Handler.numQuestions req) in
      (Return
         match provider (length log) prompt ≫= normalizeQuiz JSON_parse nullRead with
         | Return quizData =>
             {| Handler.statusCode := 200; Handler.body := Handler.Json quizData |}
         | Throw e =>
             {| Handler.statusCode := 500;
                Handler.body := Handler.errorBody
                  (lit "Failed to generate quiz: " ++ Handler.messageText e) |}
         end, log ++ [prompt]).
Proof.
  destruct (bool_decide (Handler.topic req = [])); [done|].
  unfold tryIO, generateContent, lift, mbind, IO_bind. cbn -[Prompts.quizPrompt normalizeQuiz].
  destruct (provider _ _) as [text|e]; cbn -[normalizeQuiz]; [|done].
  by destruct (normalizeQuiz JSON_parse nullRead text).
Qed.

(** The work of the hint handler. *)
Lemma hint_work_run req log :
  tryIO
    (if bool_decide (Handler.question req = []) || bool_decide (Handler.userAnswer req = [])
     then
       mret {| Handler.statusCode := 400;
               Handler.body :=
                 Handler.errorBody (lit "Question and userAnswer are required") |}
     else
       text ← generateContent provider
                (Prompts.hintPrompt (Handler.question req) (Handler.userAnswer req));
       mret {| Handler.statusCode := 200;
               Handler.body := Handler.Json (JObject [(lit "hint", JString (trim text))]) |})
    (fun error =>
       mret {| Handler.statusCode := 500;
               Handler.body := Handler.Json (JObject [(lit "hint", JString fallbackHint)]) |})
    log
  = if bool_decide (Handler.question req = []) || bool_decide (Handler.userAnswer req = [])
    then
      (Return {| Handler.statusCode := 400;
                 Handler.body :=
                   Handler.errorBody (lit "Question and userAnswer are required") |}, log)
    else
      let prompt := Prompts.hintPrompt (Handler.question req) (Handler.userAnswer req) in
      (Return
         match provider (length log) prompt with
         | Return text =>
             {| Handler.statusCode := 200;
                Handler.body := Handler.Json (JObject [(lit "hint", JString (trim text))]) |}
         | Throw _ =>
             {| Handler.statusCode := 500;
                Handler.body := Handler.Json (JObject [(lit "hint", JString fallbackHint)]) |}
         end, log ++ [prompt]).
Proof.
  destruct (bool_decide (Handler.question req = []) || bool_decide (Handler.userAnswer req = []));
    [done|].
  unfold tryIO, generateContent, mbind, IO_bind. cbn -[Prompts.hintPrompt].
  by destruct (provider _ _).
Qed.

End GuardFacts.

(** X3. The quiz handler calls the provider only for a POST that comes with
    an API key and a topic. The pre-flight (OPTIONS) gets 200 with an empty
    body, any other method than POST gets 405, a POST without (or with an
    empty) API key gets 500 with the configuration error, a POST without a
    topic gets 400; none of these reaches the provider. A POST with an API
    key and a topic sends exactly one prompt, the quiz prompt of the
    request, whatever was sent before; it answers 200 with the quiz data
    when the provider's text passes the normalisation, and 500 with the
    quiz-generation error and the message of the cause when the provider
    call or the normalisation throws an Error. *)
Theorem quiz_handler_guards
    (JSON_parse : jsstring -> Completion JSValue) (nullRead : jsstring -> Thrown)
    (provider : Provider) (httpMethod : jsstring) (apiKey : option jsstring)
    (req : Handler.QuizRequest) (log : list jsstring) :
  let run := Handler.generateQuiz JSON_parse nullRead provider httpMethod apiKey req log in
  let answer status message :=
    (Return {| Handler.statusCode := status; Handler.body := Handler.errorBody message |},
     log) in
  let prompt := Prompts.quizPrompt (Handler.topic req) (Handler.difficulty req)
                  (Handler.numQuestions req) in
  (httpMethod = lit "OPTIONS" ->
     run = (Return {| Handler.statusCode := 200; Handler.body := Handler.Empty |}, log)) /\
  (httpMethod <> lit "OPTIONS" -> httpMethod <> lit "POST" ->
     run = answer 405%Z (lit "Method Not Allowed")) /\
  (httpMethod = lit "POST" -> apiKey = None \/ apiKey = Some [] ->
     run = answer 500%Z (lit "Server configuration error: API key not found")) /\
  (httpMethod = lit "POST" -> (exists c key, apiKey = Some (c :: key)) ->
     Handler.topic req = [] ->
     run = answer 400%Z (lit "Topic is required")) /\
  (httpMethod = lit "POST" -> (exists c key, apiKey = Some (c :: key)) ->
     Handler.topic req <> [] ->
     snd run = log ++ [prompt] /\
     (forall quizData,
        provider (length log) prompt ≫= normalizeQuiz JSON_parse nullRead
          = Return quizData ->
        fst run = Return {| Handler.statusCode := 200;
                            Handler.body := Handler.Json quizData |}) /\
     (forall kind message,
        provider (length log) prompt ≫= normalizeQuiz JSON_parse nullRead
          = Throw (Err kind message) ->
        fst run = Return {| Handler.statusCode := 500;
                            Handler.body :=
                              Handler.errorBody
                                (lit "Failed to generate quiz: " ++ message) |})) /\
  (snd run = log \/
   snd run = log ++ [prompt] /\
   httpMethod = lit "POST" /\ (exists c key, apiKey = Some (c :: key)) /\
   Handler.topic req <> []).
Proof.
  intros run answer prompt. subst run answer prompt. unfold Handler.generateQuiz.
  rewrite guarded_run.
  split_and!.
  - intros ->. done.
  - intros Ho Hp. by rewrite !bool_decide_eq_false_2.
  - intros -> [-> | ->]; done.
  - intros -> (c & key & ->) Ht.
    replace (bool_decide (lit "POST" = lit "OPTIONS")) with false by done.
    replace (bool_decide (lit "POST" = lit "POST")) with true by done.
    rewrite quiz_work_run. by rewrite bool_decide_eq_true_2.
  - intros -> (c & key & ->) Ht.
    replace (bool_decide (lit "POST" = lit "OPTIONS")) with false by done.
    replace (bool_decide (lit "POST" = lit "POST")) with true by done.
    rewrite quiz_work_run. rewrite (bool_decide_eq_false_2 _ Ht). cbn [fst snd].
    split; [done|]. split.
    + intros quizData ->. done.
    + intros kind message ->. done.
  - case_bool_decide; [by left|].
    case_bool_decide; [|by left].
    destruct apiKey as [[|c key]|]; try by left.
    rewrite quiz_work_run.
    case_bool_decide; [by left|].
    right. split_and!; try done. by exists c, key.
Qed.

(** X4. The hint handler answers every request like the quiz handler for
    the pre-flight, a wrong method and a missing API key; a POST in which
    the question or the answer is missing or empty gets 400; none of these
    reaches the provider. Every other POST sends exactly one prompt, the
    hint prompt of the question and the answer, and answers 200 with the
    provider's text, trimmed, as the hint, or 500 with the generic hint when
    the provider fails. *)
Theorem hint_handler_answers
    (provider : Provider) (httpMethod : jsstring) (apiKey : option jsstring)
    (req : Handler.HintRequest) (log : list jsstring) :
  let run := Handler.generateHint provider httpMethod apiKey req log in
  let answer status message :=
    (Return {| Handler.statusCode := status; Handler.body := Handler.errorBody message |},
     log) in
  let hint status text :=
    {| Handler.statusCode := status;
       Handler.body := Handler.Json (JObject [(lit "hint", JString text)]) |} in
  let prompt := Prompts.hintPrompt (Handler.question req) (Handler.userAnswer req) in
  (httpMethod = lit "OPTIONS" ->
     run = (Return {| Handler.statusCode := 200; Handler.body := Handler.Empty |}, log)) /\
  (httpMethod <> lit "OPTIONS" -> httpMethod <> lit "POST" ->
     run = answer 405%Z (lit "Method Not Allowed")) /\
  (httpMethod = lit "POST" -> apiKey = None \/ apiKey = Some [] ->
     run = answer 500%Z (lit "Server configuration error: API key not found")) /\
  (httpMethod = lit "POST" -> (exists c key, apiKey = Some (c :: key)) ->
     Handler.question req = [] \/ Handler.userAnswer req = [] ->
     run = answer 400%Z (lit "Question and userAnswer are required")) /\
  (httpMethod = lit "POST" -> (exists c key, apiKey = Some (c :: key)) ->
     Handler.question req <> [] -> Handler.userAnswer req <> [] ->
     run = (Return match provider (length log) prompt with
                   | Return text => hint 200%Z (trim text)
                   | Throw _ => hint 500%Z fallbackHint
                   end, log ++ [prompt])) /\
  (snd run = log \/ snd run = log ++ [prompt]).
Proof.
  intros run answer hint prompt. subst run answer hint prompt.
  unfold Handler.generateHint. rewrite guarded_run.
  split_and!.
  - intros ->. done.
  - intros Ho Hp. by rewrite !bool_decide_eq_false_2.
  - intros -> [-> | ->]; done.
  - intros -> (c & key & ->) Hmissing.
    replace (bool_decide (lit "POST" = lit "OPTIONS")) with false by done.
    replace (bool_decide (lit "POST" = lit "POST")) with true by done.
    rewrite hint_work_run.
    destruct Hmissing as [Hq | Ha].
    + by rewrite (bool_decide_eq_true_2 _ Hq).
    + rewrite (bool_decide_eq_true_2 _ Ha). by rewrite orb_true_r.
  - intros -> (c & key & ->) Hq Ha.
    replace (bool_decide (lit "POST" = lit "OPTIONS")) with false by done.
    replace (bool_decide (lit "POST" = lit "POST")) with true by done.
    rewrite hint_work_run.
    by rewrite (bool_decide_eq_false_2 _ Hq), (bool_decide_eq_false_2 _ Ha).
  - case_bool_decide; [by left|].
    case_bool_decide; [|by left].
    destruct apiKey as [[|c key]|]; try by left.
    rewrite hint_work_run.
    destruct (_ || _); [by left|by right].
Qed.

(** ** Hints, from the provider to the page *)

(** What the fetch-based [generateHint] makes of a 2xx response whose body
    is an object with a string as its hint. *)
Lemma client_hint_of_body JSON_parse nullRead status bodyText hint :
  Client.ok status = true ->
  JSON_parse bodyText = Return (JObject [(lit "hint", JString hint)]) ->
  Client.generateHint JSON_parse nullRead (Client.Resolved status bodyText)
  = Return (JString (if bool_decide (hint = []) then fallbackHint else hint)).
Proof.
  intros Hok Hparse. unfold Client.generateHint. rewrite Hok, Hparse.
  cbn [negb mbind Completion_bind getProp lookupField tryCatch].
  replace (bool_decide (lit "hint" = lit "hint")) with true by done.
  cbn [truthy]. by destruct (bool_decide (hint = [])).
Qed.

(** X5. A hint request with a question and an answer, served by the hint
    handler: when the provider answers with a text, the browser's
    [generateHint] returns that text trimmed - or the generic hint when
    nothing but white space is left of it. This needs the response body to
    survive the way from [JSON.stringify] in the handler to the parse in the
    browser. *)
Theorem hint_end_to_end
    (JSON_parse : jsstring -> Completion JSValue) (nullRead : jsstring -> Thrown)
    (stringify : JSValue -> jsstring) (provider : Provider)
    (k : N) (key : jsstring) (q : N) (question : jsstring) (a : N) (answer : jsstring)
    (text : jsstring) :
  provider 0 (Prompts.hintPrompt (q :: question) (a :: answer)) = Return text ->
  JSON_parse (stringify (JObject [(lit "hint", JString (trim text))]))
    = Return (JObject [(lit "hint", JString (trim text))]) ->
  EndToEnd.generateHint JSON_parse nullRead stringify provider (Some (k :: key))
    (q :: question) (a :: answer)
  = Return (JString (if bool_decide (trim text = []) then fallbackHint else trim text)).
Proof.
  intros Hp Hround. unfold EndToEnd.generateHint, Handler.generateHint.
  rewrite guarded_run.
  replace (bool_decide (lit "POST" = lit "OPTIONS")) with false by done.
  replace (bool_decide (lit "POST" = lit "POST")) with true by done.
  rewrite hint_work_run.
  cbn [length fst Handler.question Handler.userAnswer bool_decide orb].
  replace (bool_decide (q :: question = [])) with false by done.
  replace (bool_decide (a :: answer = [])) with false by done.
  cbn [orb length fst]. rewrite Hp.
  cbn [mbind Completion_bind]. unfold Client.delivered. cbn [Handler.statusCode Handler.body].
  by apply client_hint_of_body.
Qed.

(** A provider text with white space around it reaches the page trimmed. *)
Lemma hint_end_to_end_example :
  EndToEnd.generateHint Json.parse Json.nullRead Examples.stringify
    (Examples.scripted Examples.hintText Examples.hintText) Examples.someKey
    (lit "Which river is longest?") (lit "Rhine")
  = Return (JString (lit "Compare the lengths of the rivers.")).
Proof.
  exact (hint_end_to_end Json.parse Json.nullRead Examples.stringify
           (Examples.scripted Examples.hintText Examples.hintText)
           107 (lit "ey") 87 (lit "hich river is longest?") 82 (lit "hine")
           Examples.hintText eq_refl eq_refl).
Defined.

(** ** The fetch-based quiz client *)

(** X6. The fetch-based [generateQuizQuestions] returns exactly for a 2xx
    response whose body parses, and what it returns is the parsed body as it
    is: the client validates nothing. Every failure is an [Error] whose
    message starts with the quiz-generation prefix, followed by: the message
    of a rejected request; for a response outside 2xx, the [error] string of
    the body, or [Unknown error] when the body does not parse, or the HTTP
    status when the body is an object without a truthy [error]; and the
    message of the parse error for a 2xx response whose body does not
    parse. *)
Theorem client_quiz_outcomes
    (JSON_parse : jsstring -> Completion JSValue) (nullRead : jsstring -> Thrown)
    (numberToString : Q -> jsstring) :
  let generate := Client.generateQuizQuestions JSON_parse nullRead numberToString in
  (forall fetched quizData,
     generate fetched = Return quizData <->
     exists status bodyText,
       fetched = Client.Resolved status bodyText /\ Client.ok status = true /\
       JSON_parse bodyText = Return quizData) /\
  (forall fetched e,
     generate fetched = Throw e -> exists message, e = Direct.quizFailure message) /\
  (forall e,
     generate (Client.Rejected e) = Throw (Direct.quizFailure (Direct.messageOrUnknown e))) /\
  (forall status bodyText c message,
     Client.ok status = false ->
     JSON_parse bodyText = Return (JObject [(lit "error", JString (c :: message))]) ->
     generate (Client.Resolved status bodyText)
     = Throw (Direct.quizFailure (c :: message))) /\
  (forall status bodyText e,
     Client.ok status = false -> JSON_parse bodyText = Throw e ->
     generate (Client.Resolved status bodyText)
     = Throw (Direct.quizFailure (lit "Unknown error"))) /\
  (forall status bodyText fields,
     Client.ok status = false -> JSON_parse bodyText = Return (JObject fields) ->
     truthySlot (lookupField (lit "error") fields) = false ->
     generate (Client.Resolved status bodyText)
     = Throw (Direct.quizFailure (lit "HTTP " ++ ofZ status))) /\
  (forall status bodyText e,
     Client.ok status = true -> JSON_parse bodyText = Throw e ->
     generate (Client.Resolved status bodyText)
     = Throw (Direct.quizFailure (Direct.messageOrUnknown e))).
Proof.
  intros generate. subst generate. unfold Client.generateQuizQuestions. split_and!.
  - intros [e|status bodyText] quizData; cbn [tryCatch].
    + split; [done|]. by intros (? & ? & ? & _).
    + destruct (Client.ok status) eqn:Hok; cbn [negb].
      * destruct (JSON_parse bodyText) as [v|e] eqn:Hp; cbn [tryCatch].
        -- split.
           ++ intros [= ->]. by exists status, bodyText.
           ++ intros (? & ? & [= <- <-] & _ & Hv). congruence.
        -- split; [done|]. intros (? & ? & [= <- <-] & _ & Hv). congruence.
      * split.
        -- destruct (JSON_parse bodyText) as [v|e]; cbn [tryCatch mbind Completion_bind].
           ++ by destruct (getProp nullRead v (lit "error")).
           ++ done.
        -- intros (? & ? & [= <- <-] & Hok' & _). congruence.
  - intros [e0|status bodyText] e; cbn [tryCatch].
    + intros [= <-]. by eexists.
    + destruct (negb (Client.ok status)).
      * destruct (JSON_parse bodyText) as [v|e']; cbn [tryCatch mbind Completion_bind].
        -- destruct (getProp nullRead v (lit "error")); cbn; intros [= <-]; by eexists.
        -- cbn. intros [= <-]. by eexists.
      * destruct (JSON_parse bodyText) as [v|e']; cbn; [done|]. intros [= <-]. by eexists.
  - done.
  - intros status bodyText c message Hok Hp. rewrite Hok, Hp.
    cbn [negb tryCatch mbind Completion_bind getProp lookupField].
    replace (bool_decide (lit "error" = lit "error")) with true by done. done.
  - intros status bodyText e Hok Hp. rewrite Hok, Hp.
    cbn [negb tryCatch mbind Completion_bind getProp lookupField].
    replace (bool_decide (lit "error" = lit "error")) with true by done. done.
  - intros status bodyText fields Hok Hp Hfalsy. rewrite Hok, Hp.
    cbn [negb tryCatch mbind Completion_bind getProp].
    unfold Client.errorMessage. destruct (lookupField (lit "error") fields) as [v|]; [|done].
    change (truthy v = false) in Hfalsy. by rewrite Hfalsy.
  - intros status bodyText e Hok Hp. rewrite Hok, Hp. done.
Qed.

(** ** A submitted topic, from the form to the provider and back *)

Section SubmitFacts.

Variable JSON_parse : jsstring -> Completion JSValue.
Variable nullRead : jsstring -> Thrown.
Variable numberToString : Q -> jsstring.
Variable stringify : JSValue -> jsstring.
Variable provider : Provider.

(** The quiz request of the browser, by the outcome of the handler's
    provider call and normalisation. *)
Lemma quiz_over_http (k : N) (key : jsstring) (c : N) (topic : jsstring)
    (d : Difficulty) (n : N) :
  EndToEnd.generateQuizQuestions JSON_parse nullRead numberToString stringify provider
    (Some (k :: key)) (c :: topic) d n
  = match provider 0 (Prompts.quizPrompt (c :: topic) d n)
          ≫= normalizeQuiz JSON_parse nullRead with
    | Return quizData =>
        Client.generateQuizQuestions JSON_parse nullRead numberToString
          (Client.Resolved 200 (stringify quizData))
    | Throw e =>
        Client.generateQuizQuestions JSON_parse nullRead numberToString
          (Client.Resolved 500
             (stringify (JObject [(lit "error",
                JString (lit "Failed to generate quiz: " ++ Handler.messageText e))])))
    end.
Proof.
  unfold EndToEnd.generateQuizQuestions. rewrite generateQuiz_run.
  cbn [fst length mbind Completion_bind].
  by destruct (provider 0 _ ≫= _).
Qed.

End SubmitFacts.

(** X7. A topic that is not blank, submitted on the topic form and served
    by the quiz handler: when the provider's text passes the handler's
    normalisation, the form navigates to the quiz with the trimmed topic,
    the chosen difficulty and the validated quiz data, whose questions are an
    array of acceptable questions; the request was made for 10 questions.
    This needs the quiz data to survive the way from [JSON.stringify] in the
    handler to the parse in the browser. *)
Theorem submit_plays_validated
    (JSON_parse : jsstring -> Completion JSValue) (nullRead : jsstring -> Thrown)
    (numberToString : Q -> jsstring) (stringify : JSValue -> jsstring)
    (provider : Provider) (k : N) (key : jsstring)
    (topic : jsstring) (d : Difficulty) (text : jsstring) (quizData : JSValue) :
  trim topic <> [] ->
  provider 0 (Prompts.quizPrompt (trim topic) d 10) = Return text ->
  normalizeQuiz JSON_parse nullRead text = Return quizData ->
  JSON_parse (stringify quizData) = Return quizData ->
  exists qs,
    EndToEnd.handleSubmit JSON_parse nullRead numberToString stringify provider
      (Some (k :: key)) topic d
    = TopicInput.Navigated
        {| TopicInput.topic := trim topic; TopicInput.difficulty := d;
           TopicInput.questions := Some (JArray qs);
           TopicInput.quizData := quizData |} /\
    Forall Spec.acceptable qs.
Proof.
  intros Htopic Hp Hnorm Hround.
  apply normalizeQuiz_Return in Hnorm as Hgood.
  destruct Hgood as (_ & fields & qs & -> & Hqs & Hall).
  exists qs. split; [|done].
  unfold EndToEnd.handleSubmit, TopicInput.handleSubmit.
  rewrite (bool_decide_eq_false_2 _ Htopic).
  destruct (trim topic) as [|c t] eqn:Ht; [done|].
  rewrite quiz_over_http, Hp. cbn [mbind Completion_bind]. rewrite Hnorm.
  unfold Client.generateQuizQuestions. replace (Client.ok 200) with true by done.
  cbn [negb]. rewrite Hround. cbn [tryCatch mbind Completion_bind getProp].
  by rewrite Hqs.
Qed.

(** The one-question payload, asked for under the topic Rivers with white
    space around it. *)
Lemma submit_plays_validated_example :
  exists qs,
    EndToEnd.handleSubmit Json.parse Json.nullRead Examples.numberToString
      Examples.stringify (Examples.scripted Examples.oneQuestion Examples.oneQuestion)
      Examples.someKey (lit "  Rivers ") medium
    = TopicInput.Navigated
        {| TopicInput.topic := lit "Rivers"; TopicInput.difficulty := medium;
           TopicInput.questions := Some (JArray qs);
           TopicInput.quizData := Examples.oneQuestionData |} /\
    length qs = 1.
Proof.
  destruct (submit_plays_validated Json.parse Json.nullRead Examples.numberToString
              Examples.stringify (Examples.scripted Examples.oneQuestion Examples.oneQuestion)
              107 (lit "ey") (lit "  Rivers ") medium Examples.oneQuestion
              Examples.oneQuestionData)
    as (qs & Hrun & Hall).
  - vm_compute. discriminate.
  - reflexivity.
  - vm_compute. reflexivity.
  - vm_compute. reflexivity.
  - exists qs. split; [exact Hrun|].
    vm_compute in Hrun. injection Hrun as <-. reflexivity.
Defined.

(** X8. A topic that is not blank, submitted on the topic form and served
    by the quiz handler: when the provider call is rejected with an Error,
    or its text fails the handler's normalisation with one, the form shows
    the client's quiz-generation prefix followed by the handler's error,
    which ends in the message of that Error; so the cause reaches the user.
    This needs the error body to survive the way from [JSON.stringify] in
    the handler to the parse in the browser. *)
Theorem submit_shows_cause
    (JSON_parse : jsstring -> Completion JSValue) (nullRead : jsstring -> Thrown)
    (numberToString : Q -> jsstring) (stringify : JSValue -> jsstring)
    (provider : Provider) (k : N) (key : jsstring)
    (topic : jsstring) (d : Difficulty) (kind : ErrorKind) (message : jsstring) :
  trim topic <> [] ->
  provider 0 (Prompts.quizPrompt (trim topic) d 10) ≫= normalizeQuiz JSON_parse nullRead
    = Throw (Err kind message) ->
  JSON_parse
    (stringify (JObject [(lit "error",
       JString (lit "Failed to generate quiz: " ++ message))]))
    = Return (JObject [(lit "error",
        JString (lit "Failed to generate quiz: " ++ message))]) ->
  EndToEnd.handleSubmit JSON_parse nullRead numberToString stringify provider
    (Some (k :: key)) topic d
  = TopicInput.Failed
      (lit "Failed to generate quiz questions: "
       ++ lit "Failed to generate quiz: " ++ message).
Proof.
  intros Htopic Hfail Hround.
  unfold EndToEnd.handleSubmit, TopicInput.handleSubmit.
  rewrite (bool_decide_eq_false_2 _ Htopic).
  destruct (trim topic) as [|c t] eqn:Ht; [done|].
  rewrite quiz_over_http, Hfail. cbn [Handler.messageText].
  unfold Client.generateQuizQuestions. replace (Client.ok 500) with false by done.
  cbn [negb]. rewrite Hround.
  cbn [tryCatch mbind Completion_bind getProp lookupField].
  replace (bool_decide (lit "error" = lit "error")) with true by done.
  done.
Qed.

(** A provider that is unavailable. *)
Lemma submit_shows_cause_example :
  EndToEnd.handleSubmit Json.parse Json.nullRead Examples.numberToString
    Examples.stringify Examples.failing Examples.someKey (lit "  Rivers ") medium
  = TopicInput.Failed
      (lit "Failed to generate quiz questions: Failed to generate quiz: 503 Service Unavailable").
Proof.
  refine (submit_shows_cause Json.parse Json.nullRead Examples.numberToString
            Examples.stringify Examples.failing 107 (lit "ey") (lit "  Rivers ") medium
            ErrorK (lit "503 Service Unavailable") _ _ _).
  - vm_compute. discriminate.
  - reflexivity.
  - vm_compute. reflexivity.
Defined.

(** ** What the clean-up leaves untouched *)

Section EssenceFacts.

Import Spec.

Lemma essence_app a b : essence (a ++ b) = essence a ++ essence b.
Proof. unfold essence. by rewrite map_app, list.filter_app. Qed.

Lemma essence_space c s : is_space c = true -> essence (c :: s) = essence s.
Proof.
  intros Hc. unfold essence. cbn [map].
  assert (straighten c = c) as ->.
  { unfold straighten.
    destruct (N.eqb_spec c 8220) as [->|]; [done|].
    destruct (N.eqb_spec c 8221) as [->|]; [done|].
    destruct (N.eqb_spec c 8216) as [->|]; [done|].
    destruct (N.eqb_spec c 8217) as [->|]; [done|]. done. }
  rewrite filter_cons_False; [done|]. intros [H _]. congruence.
Qed.

Lemma essence_spaces w s : Forall (fun c => is_space c = true) w -> essence (w ++ s) = essence s.
Proof.
  induction 1 as [|c w Hc _ IH]; [done|]. cbn [app]. by rewrite essence_space.
Qed.

Lemma essence_comma s : essence (COMMA :: s) = essence s.
Proof. unfold essence. cbn [map]. rewrite filter_cons_False; [done|]. by intros [_ H]. Qed.

Lemma essence_rev s : essence (rev s) = rev (essence s).
Proof.
  induction s as [|c s IH]; [done|]. cbn [rev].
  rewrite essence_app, IH. change (c :: s) with ([c] ++ s). rewrite essence_app.
  rewrite rev_app_distr. f_equal. unfold essence. cbn [map].
  rewrite filter_cons. by case_decide.
Qed.

Lemma essence_trimStart s : essence (trimStart s) = essence s.
Proof.
  induction s as [|c s IH]; [done|]. cbn [trimStart].
  destruct (is_space c) eqn:Hc; [|done]. by rewrite essence_space.
Qed.

Lemma essence_trim s : essence (trim s) = essence s.
Proof.
  unfold trim, trimEnd.
  by rewrite essence_rev, essence_trimStart, essence_rev, rev_involutive, essence_trimStart.
Qed.

(** A global replacement whose every match is replaced by text of the same
    essence keeps the essence of the whole text. *)
Lemma replaceFrom_essence (m : matcher) :
  (forall x r n, m x = Some (r, n) ->
     1 <= n /\ essence r = essence (take n x)) ->
  forall s k, essence (replaceFrom m k s) = essence (drop k s).
Proof.
  intros Hm. induction s as [|c s IH]; intros k; [by destruct k|].
  cbn [replaceFrom]. destruct k as [|k]; [|by rewrite IH].
  destruct (m (c :: s)) as [[r n]|] eqn:Hmatch.
  - destruct (Hm _ _ _ Hmatch) as [Hn Hr].
    rewrite essence_app, IH, Hr, <- essence_app.
    replace (drop (n - 1) s) with (drop n (c :: s))
      by (destruct n; [lia|]; cbn; by rewrite Nat.sub_0_r).
    by rewrite take_drop.
  - cbn [drop]. change (c :: replaceFrom m 0 s) with ([c] ++ replaceFrom m 0 s).
    rewrite essence_app, IH. cbn [drop]. by rewrite <- essence_app.
Qed.

Lemma spaceRun_spaces r : Forall (fun c => is_space c = true) (spaceRun r).
Proof.
  induction r as [|c r IH]; [constructor|]. cbn [spaceRun].
  destruct (is_space c) eqn:Hc; by constructor.
Qed.

Lemma smartDouble_essence x r n :
  smartDouble x = Some (r, n) -> 1 <= n /\ essence r = essence (take n x).
Proof.
  destruct x as [|c x]; [done|]. cbn [smartDouble].
  destruct (N.eqb c 8220 || N.eqb c 8221)%N eqn:Hc; [|done].
  intros [= <- <-]. split; [done|]. cbn [take]. unfold essence. cbn [map].
  unfold straighten. by rewrite Hc.
Qed.

Lemma smartSingle_essence x r n :
  smartSingle x = Some (r, n) -> 1 <= n /\ essence r = essence (take n x).
Proof.
  destruct x as [|c x]; [done|]. cbn [smartSingle].
  destruct (N.eqb c 8216 || N.eqb c 8217)%N eqn:Hc; [|done].
  intros [= <- <-]. split; [done|]. cbn [take]. unfold essence. cbn [map].
  unfold straighten. rewrite Hc.
  destruct (N.eqb_spec c 8220) as [->|]; [done|].
  destruct (N.eqb_spec c 8221) as [->|]; [done|]. done.
Qed.

Lemma blankLines_essence x r n :
  blankLines x = Some (r, n) -> 1 <= n /\ essence r = essence (take n x).
Proof.
  destruct x as [|c x]; [done|]. cbn [blankLines].
  destruct (N.eqb_spec c LF) as [->|]; [|done].
  destruct (behindLastLF (spaceRun x)) as [k|] eqn:Hk; [|done].
  intros [= <- <-]. split; [lia|]. cbn [take].
  rewrite !(essence_space LF) by done.
  rewrite (spaceRun_prefix x), take_app.
  rewrite essence_app.
  apply behindLastLF_bound in Hk.
  replace (k - length (spaceRun x)) with 0 by lia. rewrite take_0.
  rewrite <- (app_nil_r (take k (spaceRun x))), essence_spaces; [done|].
  apply Forall_take, spaceRun_spaces.
Qed.

Lemma trailingComma_essence x r n :
  trailingComma x = Some (r, n) -> 1 <= n /\ essence r = essence (take n x).
Proof.
  intros H. apply trailingComma_spec in H as (ws & d & rest & -> & -> & -> & _ & _).
  split; [lia|].
  replace (COMMA :: ws ++ d :: rest) with ((COMMA :: ws ++ [d]) ++ rest) by app_norm.
  rewrite take_app_length' by (cbn; rewrite length_app; cbn; lia).
  by rewrite essence_comma.
Qed.

Lemma repairPasses_essence s : essence (repairPasses s) = essence s.
Proof.
  unfold repairPasses, replaceAll.
  rewrite (replaceFrom_essence trailingComma trailingComma_essence), drop_0.
  rewrite (replaceFrom_essence blankLines blankLines_essence), drop_0.
  rewrite (replaceFrom_essence smartSingle smartSingle_essence), drop_0.
  by rewrite (replaceFrom_essence smartDouble smartDouble_essence), drop_0.
Qed.

(** Each step of the extraction keeps a contiguous piece of its input. *)
Lemma trimEnd_prefix s : exists w, s = trimEnd s ++ w.
Proof.
  unfold trimEnd. destruct (trimStart_suffix (rev s)) as [w Hw].
  exists (rev w). rewrite <- rev_app_distr, <- Hw. by rewrite rev_involutive.
Qed.

Lemma trim_piece s : exists a b, s = a ++ trim s ++ b.
Proof.
  destruct (trimStart_suffix s) as [a Ha].
  destruct (trimEnd_prefix (trimStart s)) as [b Hb].
  exists a, b. unfold trim. by rewrite <- Hb.
Qed.

Lemma stripLeading_piece p s : exists a b, s = a ++ stripLeading p s ++ b.
Proof.
  unfold stripLeading. destruct (startsWith p s).
  - destruct (trimStart_suffix (drop (length p) s)) as [w Hw].
    exists (take (length p) s ++ w), []. rewrite app_nil_r, <- app_assoc, <- Hw.
    by rewrite take_drop.
  - exists [], []. by rewrite app_nil_r.
Qed.

Lemma stripTrailing_piece p s : exists a b, s = a ++ stripTrailing p s ++ b.
Proof.
  unfold stripTrailing. destruct (endsWith p s).
  - destruct (trimEnd_prefix (take (length s - length p) s)) as [w Hw].
    exists [], (w ++ drop (length s - length p) s).
    cbn [app]. rewrite app_assoc, <- Hw. by rewrite take_drop.
  - exists [], []. by rewrite app_nil_r.
Qed.

Lemma piece_trans (x y z : jsstring) :
  (exists a b, z = a ++ y ++ b) -> (exists a b, y = a ++ x ++ b) ->
  exists a b, z = a ++ x ++ b.
Proof.
  intros (a & b & ->) (a' & b' & ->). exists (a ++ a'), (b' ++ b). app_norm.
Qed.

Lemma stripFence_piece s : exists a b, s = a ++ stripFence s ++ b.
Proof.
  unfold stripFence.
  destruct (startsWith FENCE_JSON s).
  - eapply piece_trans; [apply stripLeading_piece|apply stripTrailing_piece].
  - destruct (startsWith FENCE s).
    + eapply piece_trans; [apply stripLeading_piece|apply stripTrailing_piece].
    + exists [], []. by rewrite app_nil_r.
Qed.

Lemma substring_piece s i j : exists a b, s = a ++ substring s i j ++ b.
Proof.
  unfold substring. eexists _, _.
  rewrite take_drop. by rewrite take_drop.
Qed.

Lemma sliceObject_piece s : exists a b, s = a ++ sliceObject s ++ b.
Proof.
  unfold sliceObject. destruct (_ && _).
  - apply substring_piece.
  - exists [], []. by rewrite app_nil_r.
Qed.

End EssenceFacts.

(** X9. The extraction never invents content. The four replacements of
    the clean-up and its trim touch nothing but white space, commas and
    curly quotes: with white space and commas taken out and curly quotes
    read as plain ones, the cleaned text is the text that went in. And the
    text that goes to [JSON.parse] is, read the same way, one contiguous
    piece of the provider's response: letters, digits, braces, brackets,
    colons and plain quotes are never added, changed or reordered. *)
Theorem cleanup_keeps_essence (text : jsstring) :
  Spec.essence (repairPasses text) = Spec.essence text /\
  Spec.essence (cleanup text) = Spec.essence text /\
  exists front behind,
    Spec.essence text = front ++ Spec.essence (extractJson text) ++ behind.
Proof.
  split_and!.
  - apply repairPasses_essence.
  - unfold cleanup. by rewrite essence_trim, repairPasses_essence.
  - unfold extractJson.
    destruct (trim_piece text) as (a1 & b1 & H1).
    destruct (stripFence_piece (trim text)) as (a2 & b2 & H2).
    destruct (sliceObject_piece (cleanup (stripFence (trim text)))) as (a3 & b3 & H3).
    exists (Spec.essence a1 ++ Spec.essence a2 ++ Spec.essence a3),
           (Spec.essence b3 ++ Spec.essence b2 ++ Spec.essence b1).
    rewrite H1 at 1. rewrite H2 at 1. rewrite !essence_app.
    assert (Spec.essence (stripFence (trim text))
            = Spec.essence a3
              ++ Spec.essence (sliceObject (cleanup (stripFence (trim text))))
              ++ Spec.essence b3) as ->.
    { rewrite <- !essence_app, <- H3. unfold cleanup.
      by rewrite essence_trim, repairPasses_essence. }
    app_norm.
Qed.

(** ** The slice between the outermost braces, on every text *)

Section SliceFacts.

Import Spec.

(** The first occurrence of a character splits the text, or there is none. *)
Lemma indexOf_split c s :
  (indexOf c s = (-1)%Z /\ Forall (fun x => x <> c) s) \/
  (exists pre b, s = pre ++ c :: b /\ Forall (fun x => x <> c) pre).
Proof.
  induction s as [|a s IH]; [by left|].
  destruct (N.eqb_spec a c) as [->|Hne].
  - right. by exists [], s.
  - destruct IH as [[Hi Hall] | (pre & b & -> & Hpre)].
    + left. split; [|by constructor]. simpl.
      destruct (N.eqb_spec a c); [done|]. rewrite Hi. done.
    + right. exists (a :: pre), b. split; [done|]. by constructor.
Qed.

Lemma lastIndexOf_split c s :
  (lastIndexOf c s = (-1)%Z /\ Forall (fun x => x <> c) s) \/
  (exists a post, s = a ++ c :: post /\ Forall (fun x => x <> c) post).
Proof.
  destruct (indexOf_split c (rev s)) as [[Hi Hall] | (pre & b & Hs & Hpre)].
  - left. split.
    + unfold lastIndexOf. by rewrite Hi.
    + apply Forall_rev in Hall. by rewrite rev_involutive in Hall.
  - right. exists (rev b), (rev pre). split; [|by apply Forall_rev].
    rewrite <- (rev_involutive s), Hs, rev_app_distr. simpl. by rewrite <- app_assoc.
Qed.

(** No occurrence lies in front of the first one, or behind the last one. *)
Lemma indexOf_le c p r : (0 <= indexOf c (p ++ c :: r) <= Z.of_nat (length p))%Z.
Proof.
  induction p as [|a p IH]; simpl.
  - rewrite N.eqb_refl. lia.
  - destruct (N.eqb a c); [lia|].
    destruct (Z.ltb_spec (indexOf c (p ++ c :: r)) 0); lia.
Qed.

Lemma lastIndexOf_ge c x y : (Z.of_nat (length x) <= lastIndexOf c (x ++ c :: y))%Z.
Proof.
  unfold lastIndexOf. rewrite rev_app_distr. simpl. rewrite <- app_assoc. simpl.
  pose proof (indexOf_le c (rev y) (rev x)) as H. rewrite length_rev in H.
  rewrite length_app. simpl.
  destruct (Z.ltb_spec (indexOf c (rev y ++ c :: rev x)) 0); lia.
Qed.

(** The slice of a text with an opening brace in front of a closing one. *)
Lemma sliceObject_between pre mid post :
  Forall (fun x => x <> LBRACE) pre -> Forall (fun x => x <> RBRACE) post ->
  sliceObject (pre ++ objectText mid ++ post) = objectText mid.
Proof.
  intros Hpre Hpost. unfold sliceObject.
  assert (indexOf LBRACE (pre ++ objectText mid ++ post) = Z.of_nat (length pre)) as ->.
  { unfold objectText. simpl. by apply indexOf_first. }
  assert (lastIndexOf RBRACE (pre ++ objectText mid ++ post)
          = Z.of_nat (length pre + S (length mid))) as ->.
  { replace (pre ++ objectText mid ++ post)
      with ((pre ++ LBRACE :: mid) ++ RBRACE :: post) by (unfold objectText; app_norm).
    rewrite lastIndexOf_last by done.
    rewrite length_app. simpl. done. }
  destruct (Z.eqb_spec (Z.of_nat (length pre)) (-1)); [lia|].
  destruct (Z.eqb_spec (Z.of_nat (length pre + S (length mid))) (-1)); [lia|].
  destruct (Z.gtb_spec (Z.of_nat (length pre + S (length mid))) (Z.of_nat (length pre)));
    [|lia].
  simpl.
  replace (Z.of_nat (length pre + S (length mid)) + 1)%Z
    with (Z.of_nat (length pre + length (objectText mid)))
    by (unfold objectText; simpl; rewrite length_app; simpl; lia).
  apply (substring_middle pre (objectText mid) post).
Qed.

(** A text without an opening brace in front of a closing one is left as it
    is. *)
Lemma sliceObject_whole s :
  (forall pre mid post, s <> pre ++ objectText mid ++ post) -> sliceObject s = s.
Proof.
  intros Hnone. unfold sliceObject.
  destruct (indexOf_split LBRACE s) as [[-> _] | (pre & b & Hs & Hpre)]; [done|].
  destruct (lastIndexOf_split RBRACE s) as [[-> _] | (a & post & Hs' & Hpost)].
  { by rewrite andb_false_r. }
  assert (indexOf LBRACE s = Z.of_nat (length pre)) as ->.
  { rewrite Hs. by apply indexOf_first. }
  assert (lastIndexOf RBRACE s = Z.of_nat (length a)) as ->.
  { rewrite Hs'. by apply lastIndexOf_last. }
  destruct (Z.gtb_spec (Z.of_nat (length a)) (Z.of_nat (length pre))) as [Hgt|Hle];
    [|by rewrite andb_false_r].
  exfalso.
  assert (take (length a) s = a) as Ha by (by rewrite Hs', take_app_length).
  assert (a = pre ++ LBRACE :: take (length a - S (length pre)) b) as Hsplit.
  { rewrite <- Ha, Hs at 1. rewrite take_app_ge by lia.
    replace (length a - length pre) with (S (length a - S (length pre))) by lia. done. }
  apply (Hnone pre (take (length a - S (length pre)) b) post).
  rewrite Hs' at 1. rewrite Hsplit at 1. unfold objectText. app_norm.
Qed.

(** A text has an opening brace in front of a closing brace, or it has
    not. *)
Lemma brace_pair_dec s :
  (exists pre mid post,
     s = pre ++ objectText mid ++ post /\
     Forall (fun c => c <> LBRACE) pre /\ Forall (fun c => c <> RBRACE) post) \/
  (forall pre mid post, s <> pre ++ objectText mid ++ post).
Proof.
  destruct (indexOf_split LBRACE s) as [[_ Hall] | (pre & b & Hs & Hpre)].
  { right. intros pre mid post ->.
    apply Forall_app in Hall as [_ Hall]. by inversion Hall. }
  destruct (lastIndexOf_split RBRACE s) as [[_ Hall] | (a & post & Hs' & Hpost)].
  { right. intros pre' mid post' ->.
    apply Forall_app in Hall as [_ Hall]. unfold objectText in Hall.
    apply Forall_app in Hall as [Hall _].
    apply Forall_cons in Hall as [_ Hall].
    apply Forall_app in Hall as [_ Hall]. by inversion Hall. }
  destruct (decide (length pre < length a)) as [Hlt|Hge].
  - left.
    assert (take (length a) s = a) as Ha by (by rewrite Hs', take_app_length).
    assert (a = pre ++ LBRACE :: take (length a - S (length pre)) b) as Hsplit.
    { rewrite <- Ha at 1. rewrite Hs. rewrite take_app_ge by lia.
      replace (length a - length pre) with (S (length a - S (length pre))) by lia. done. }
    exists pre, (take (length a - S (length pre)) b), post. split_and!; try done.
    rewrite Hs' at 1. rewrite Hsplit at 1. unfold objectText. app_norm.
  - right. intros pre' mid' post' Hs''.
    pose proof (indexOf_le LBRACE pre' (mid' ++ RBRACE :: post')) as Hfirst.
    pose proof (lastIndexOf_ge RBRACE (pre' ++ LBRACE :: mid') post') as Hlast.
    replace (pre' ++ LBRACE :: mid' ++ RBRACE :: post') with s in Hfirst
      by (rewrite Hs''; unfold objectText; app_norm).
    replace ((pre' ++ LBRACE :: mid') ++ RBRACE :: post') with s in Hlast
      by (rewrite Hs''; unfold objectText; app_norm).
    assert (indexOf LBRACE s = Z.of_nat (length pre)) as Hi.
    { rewrite Hs. by apply indexOf_first. }
    assert (lastIndexOf RBRACE s = Z.of_nat (length a)) as Hl.
    { rewrite Hs'. by apply lastIndexOf_last. }
    rewrite Hi in Hfirst. rewrite Hl in Hlast.
    rewrite length_app in Hlast. cbn [length] in Hlast. lia.
Qed.

End SliceFacts.

(** X10. The slice that goes to [JSON.parse], on every text. When the text
    has an opening brace somewhere in front of a closing brace, the slice
    runs from the first opening brace to the last closing brace, both
    included, and drops what stands in front and behind; otherwise - no
    opening brace, no closing brace, or every closing brace in front of the
    first opening one - the text is left as it is. Slicing a second time
    changes nothing. *)
Theorem sliceObject_spec (s : jsstring) :
  ((exists pre mid post,
      s = pre ++ Spec.objectText mid ++ post /\
      Forall (fun c => c <> LBRACE) pre /\ Forall (fun c => c <> RBRACE) post /\
      sliceObject s = Spec.objectText mid) \/
   ((forall pre mid post, s <> pre ++ Spec.objectText mid ++ post) /\
    sliceObject s = s)) /\
  sliceObject (sliceObject s) = sliceObject s.
Proof.
  destruct (brace_pair_dec s) as [(pre & mid & post & -> & Hpre & Hpost) | Hno].
  - rewrite (sliceObject_between pre mid post Hpre Hpost). split.
    + left. by exists pre, mid, post.
    + replace (Spec.objectText mid) with ([] ++ Spec.objectText mid ++ []) at 1
        by (by rewrite app_nil_r).
      apply (sliceObject_between [] mid []); constructor.
  - rewrite (sliceObject_whole s Hno). split; [by right|].
    apply (sliceObject_whole s Hno).
Qed.

(** ** Which question the validation rejects *)

Section RejectionFacts.

Import Spec.

Variable JSON_parse : jsstring -> Completion JSValue.
Variable nullRead : jsstring -> Thrown.

(** The loop passes over acceptable questions. *)
Lemma forEachFrom_skip good rest index :
  Forall acceptable good ->
  forEachFrom nullRead index (good ++ rest)
  = forEachFrom nullRead (index + length good) rest.
Proof.
  intros Hgood. revert index. induction Hgood as [|q good Hq Hgood IH]; intros index.
  - cbn. by rewrite Nat.add_0_r.
  - cbn [app forEachFrom length].
    apply (checkQuestion_Return nullRead q index) in Hq. rewrite Hq.
    cbn [mbind Completion_bind]. rewrite IH. f_equal. lia.
Qed.

(** What the check of one question throws, by the shape of the question. *)
Lemma checkQuestion_Throw q index :
  ~ acceptable q ->
  (q = JNull /\ checkQuestion nullRead q index = Throw (nullRead (lit "question"))) \/
  (q <> JNull /\
   checkQuestion nullRead q index = Throw (invalid "Invalid question structure" index) /\
   (forall fields opts,
      q = JObject fields ->
      truthySlot (lookupField (lit "question") fields) = true ->
      lookupField (lit "options") fields = Some (JArray opts) -> length opts <> 4)) \/
  (checkQuestion nullRead q index = Throw (invalid "Invalid correctAnswer" index) /\
   exists fields opts,
     q = JObject fields /\
     truthySlot (lookupField (lit "question") fields) = true /\
     lookupField (lit "options") fields = Some (JArray opts) /\ length opts = 4).
Proof.
  intros Hbad.
  assert (checkQuestion nullRead q index <> Return tt) as Hthrow.
  { intros H. by apply checkQuestion_Return in H. }
  unfold checkQuestion in *.
  destruct q as [| | | | |fields]; cbn in *;
    try (right; left; split_and!; [done|done|intros ? ? [=]]).
  { by left. }
  destruct (truthySlot (lookupField (lit "question") fields)) eqn:Hq; cbn in *.
  2:{ right. left. split_and!; [done|done|]. intros ? ? [= <-]. congruence. }
  destruct (lookupField (lit "options") fields) as [[| | | |opts|]|] eqn:Ho; cbn in *;
    try (right; left; split_and!; [done|done|intros ? ? [= <-] _ ?; congruence]).
  destruct (Nat.eqb_spec (length opts) 4) as [Hlen|Hlen]; cbn in *.
  2:{ right. left. split_and!; [done|done|]. intros ? ? [= <-] _. congruence. }
  right. right. split; [|by exists fields, opts].
  destruct (lookupField (lit "correctAnswer") fields) as [[| |n| | |]|]; try done.
  destruct (Qltb n 0 || Qltb 3 n); [done|]. by destruct Hthrow.
Qed.

End RejectionFacts.

(** X11. The validation of the first response stops at the first question
    that is not acceptable and names its index. With acceptable questions in
    front of it, a question that is [null] raises the engine's error of
    reading a property of [null]; a question with a truthy question text and
    an options array of four entries is reported with the invalid
    correctAnswer message; every other one with the invalid structure
    message. What follows the first bad question is not looked at. *)
Theorem validation_reports_first_bad
    (nullRead : jsstring -> Thrown) (fields : list (jsstring * JSValue))
    (good : list JSValue) (bad : JSValue) (rest : list JSValue) :
  lookupField (lit "questions") fields = Some (JArray (good ++ bad :: rest)) ->
  Forall Spec.acceptable good ->
  ~ Spec.acceptable bad ->
  (bad = JNull /\
   validateQuiz nullRead (JObject fields) = Throw (nullRead (lit "question"))) \/
  (bad <> JNull /\
   validateQuiz nullRead (JObject fields)
     = Throw (invalid "Invalid question structure" (length good)) /\
   (forall members opts,
      bad = JObject members ->
      truthySlot (lookupField (lit "question") members) = true ->
      lookupField (lit "options") members = Some (JArray opts) -> length opts <> 4)) \/
  (validateQuiz nullRead (JObject fields)
     = Throw (invalid "Invalid correctAnswer" (length good)) /\
   exists members opts,
     bad = JObject members /\
     truthySlot (lookupField (lit "question") members) = true /\
     lookupField (lit "options") members = Some (JArray opts) /\ length opts = 4).
Proof.
  intros Hqs Hgood Hbad.
  assert (validateQuiz nullRead (JObject fields)
          = (_ ← checkQuestion nullRead bad (length good); Return (JObject fields)))
    as ->.
  { unfold validateQuiz. cbn [mbind Completion_bind].
    rewrite checkQuestionsArray_object, Hqs. cbn [isArray arrayItems mbind Completion_bind].
    rewrite (forEachFrom_skip nullRead good (bad :: rest) 0 Hgood). cbn [forEachFrom Nat.add].
    destruct (checkQuestion nullRead bad (length good)) as [[]|e] eqn:Hcheck; [|done].
    by apply checkQuestion_Return in Hcheck. }
  destruct (checkQuestion_Throw nullRead bad (length good) Hbad)
    as [[-> ->] | [(Hnull & -> & Hshape) | (-> & Hshape)]].
  - by left.
  - right. left. done.
  - right. right. done.
Qed.

(** An acceptable question followed by one with three options. *)
Lemma validation_reports_first_bad_example :
  validateQuiz Json.nullRead
    (JObject [(lit "questions", JArray [Examples.goodQuestion; Examples.threeOptions])])
  = Throw (Err ErrorK (lit "Invalid question structure at index 1")).
Proof.
  destruct (validation_reports_first_bad Json.nullRead
              [(lit "questions", JArray [Examples.goodQuestion; Examples.threeOptions])]
              [Examples.goodQuestion] Examples.threeOptions [])
    as [[Hnull _] | [(_ & Hrun & _) | (_ & members & opts & Hq & _ & Ho & Hlen)]].
  - reflexivity.
  - constructor; [|constructor].
    by apply (checkQuestion_Return Json.nullRead Examples.goodQuestion 0).
  - intros Hok. by apply (checkQuestion_Return Json.nullRead _ 0) in Hok.
  - discriminate Hnull.
  - exact Hrun.
  - injection Hq as <-. vm_compute in Ho. injection Ho as <-. discriminate Hlen.
Defined.

(** ** What the retry accepts *)

(** X12. The validation of the retry response in the direct client looks at
    the questions array only: a retry text is accepted exactly when the text
    cut out of it parses to an object whose [questions] is an array, whatever
    the array holds, and is returned as it is. So after a first response that
    failed, the direct client returns retry data whose questions were never
    checked; whatever the first validation accepts the retry accepts too. *)
Theorem retry_accepts_any_array
    (JSON_parse : jsstring -> Completion JSValue) (nullRead : jsstring -> Thrown) :
  (forall text quizData,
     Direct.normalizeRetry JSON_parse nullRead text = Return quizData <->
     JSON_parse (extractJson text) = Return quizData /\
     exists fields qs,
       quizData = JObject fields /\ lookupField (lit "questions") fields = Some (JArray qs)) /\
  (forall text quizData,
     normalizeQuiz JSON_parse nullRead text = Return quizData ->
     Direct.normalizeRetry JSON_parse nullRead text = Return quizData) /\
  (forall provider topic d n text e retry fields qs,
     provider 0 (Prompts.directPrompt (Direct.getTopicSpecificInstructions topic d) topic d n)
       = Return text ->
     normalizeQuiz JSON_parse nullRead text = Throw e ->
     provider 1 (Prompts.simplePrompt topic d n) = Return retry ->
     JSON_parse (extractJson retry) = Return (JObject fields) ->
     lookupField (lit "questions") fields = Some (JArray qs) ->
     fst (Direct.generateQuizQuestions JSON_parse nullRead provider topic d n [])
     = Return (JObject fields)).
Proof.
  assert (forall text quizData,
     Direct.normalizeRetry JSON_parse nullRead text = Return quizData <->
     JSON_parse (extractJson text) = Return quizData /\
     exists fields qs,
       quizData = JObject fields /\ lookupField (lit "questions") fields = Some (JArray qs))
    as Hretry.
  { intros text quizData. unfold Direct.normalizeRetry. split.
    - destruct (JSON_parse (extractJson text)) as [v|e]; [|done].
      cbn [mbind Completion_bind].
      destruct v as [| | | | |fields]; try done.
      rewrite checkQuestionsArray_object.
      destruct (lookupField (lit "questions") fields) as [[| | | |qs|]|] eqn:Hq; try done.
      cbn. intros [= <-]. split; [done|]. by exists fields, qs.
    - intros (-> & fields & qs & -> & Hq). cbn [mbind Completion_bind].
      by rewrite checkQuestionsArray_object, Hq. }
  split_and!.
  - exact Hretry.
  - apply normalizeRetry_of_normalizeQuiz.
  - intros provider topic d n text e retry fields qs Hp Hn Hp2 Hparse Hq.
    rewrite generateQuizQuestions_run. cbn zeta. rewrite Hp, Hn, Hp2.
    cbn [mbind Completion_bind fst].
    assert (Direct.normalizeRetry JSON_parse nullRead retry = Return (JObject fields)) as ->.
    { apply Hretry. split; [done|]. by exists fields, qs. }
    done.
Qed.

(** ** The report of a session and the results page *)

(** X14. On every navigation state the results page splits the questions
    three ways: the counts of correct, incorrect and unanswered questions
    add up to the number of questions, and the missed questions handed to
    the review are exactly the entries marked incorrect, in their order: as
    many as the incorrect count, none marked otherwise, none left out. *)
Theorem results_page_partition (s : QuizGame.ResultsState) :
  ResultsPage.correctAnswers s + ResultsPage.incorrectAnswers s
    + ResultsPage.unansweredQuestions s = length (QuizGame.rs_questions s) /\
  length (ResultsPage.missedQuestions s) = ResultsPage.incorrectAnswers s /\
  ResultsPage.missedQuestions s `sublist_of` QuizGame.rs_questions s /\
  (forall entry,
     entry ∈ ResultsPage.missedQuestions s <->
     entry ∈ QuizGame.rs_questions s /\ QuizGame.userAnswer entry = QuizGame.incorrect).
Proof.
  split_and!.
  - apply counts_partition.
  - done.
  - apply sublist_filter.
  - intros entry. unfold ResultsPage.missedQuestions, ResultsPage.withOutcome.
    rewrite list_elem_of_filter. tauto.
Qed.

Section ReportFacts.

Import QuizGame.

(** Entries of which only the last may be unanswered hold at most one
    unanswered entry. *)
Lemma count_unanswered (l : list QuestionResult) :
  (forall i entry, l !! i = Some entry -> S i < length l ->
     userAnswer entry <> unanswered) ->
  length (filter (fun entry => userAnswer entry = unanswered) l) <= 1.
Proof.
  induction l as [|x l IH]; intros Hall; [cbn; lia|].
  destruct l as [|y l].
  - rewrite filter_cons. case_decide; cbn; lia.
  - rewrite filter_cons_False.
    + apply IH. intros i entry Hi Hlt. apply (Hall (S i) entry Hi). cbn in *. lia.
    + apply (Hall 0 x eq_refl). cbn. lia.
Qed.

End ReportFacts.

(** X15. What a completed session reports, for every non-empty question
    list and every sequence of answer events of its length (a click, or -1
    for an expiry of the timer), each followed by its result delay. The
    report has one entry per question, in order, with the question's own id
    when it has one and its index otherwise. A question before the last is
    reported as correct when its recorded answer is the correct one and as
    incorrect otherwise, a timed-out one included; only the last question
    can be reported as unanswered, when its timer ran out. So the results
    page counts at most one unanswered question. *)
Theorem report_marks_only_last_unanswered
    (topic difficulty : jsstring) (questions : list QuizGame.Question) (answers : list Z) :
  0 < length questions ->
  length answers = length questions ->
  exists st r,
    QuizGame.play topic difficulty questions (QuizGame.initial questions) answers
      = Some st /\
    QuizGame.navigated st = [r] /\
    length (QuizGame.rs_questions r) = length questions /\
    (forall i q a,
       questions !! i = Some q -> answers !! i = Some a ->
       exists entry,
         QuizGame.rs_questions r !! i = Some entry /\
         QuizGame.r_question entry = q /\
         QuizGame.r_id entry = default (Z.of_nat i) (QuizGame.id q) /\
         QuizGame.userAnswer entry =
           if decide (S i = length questions) then
             if (a =? -1)%Z then QuizGame.unanswered
             else if (a =? QuizGame.correctAnswer q)%Z then QuizGame.correct
             else QuizGame.incorrect
           else
             if (a =? QuizGame.correctAnswer q)%Z then QuizGame.correct
             else QuizGame.incorrect) /\
    ResultsPage.unansweredQuestions r <= 1.
Proof.
  intros Hn Hlen.
  destruct (play_all topic difficulty questions answers Hlen Hn) as (st & Hplay & Hdone).
  destruct Hdone as (p & Hnav & Hidx & Hlast & Hq' & _ & Hans & Hua & _).
  exists st, (QuizGame.resultsOf topic difficulty questions p).
  assert (forall i q a,
       questions !! i = Some q -> answers !! i = Some a ->
       exists entry,
         QuizGame.rs_questions (QuizGame.resultsOf topic difficulty questions p) !! i
           = Some entry /\
         QuizGame.r_question entry = q /\
         QuizGame.r_id entry = default (Z.of_nat i) (QuizGame.id q) /\
         QuizGame.userAnswer entry =
           if decide (S i = length questions) then
             if (a =? -1)%Z then QuizGame.unanswered
             else if (a =? QuizGame.correctAnswer q)%Z then QuizGame.correct
             else QuizGame.incorrect
           else
             if (a =? QuizGame.correctAnswer q)%Z then QuizGame.correct
             else QuizGame.incorrect) as Hentries.
  { intros i q a Hq Ha. eexists. split.
    - cbn. rewrite list_lookup_imap, Hq. reflexivity.
    - split; [done|]. split; [done|]. cbn.
      by rewrite (outcomeOf_last_callback questions p answers i q a). }
  split_and!; try done.
  - cbn. by rewrite length_imap.
  - unfold ResultsPage.unansweredQuestions, ResultsPage.withOutcome.
    apply count_unanswered. intros i entry Hi Hlt.
    cbn [QuizGame.rs_questions QuizGame.resultsOf] in Hi, Hlt.
    rewrite length_imap in Hlt.
    destruct (lookup_lt_is_Some_2 questions i) as [q Hq]; [lia|].
    destruct (lookup_lt_is_Some_2 answers i) as [a Ha]; [lia|].
    destruct (Hentries i q a Hq Ha) as (entry' & Hi' & _ & _ & Hout).
    cbn [QuizGame.rs_questions QuizGame.resultsOf] in Hi'.
    rewrite Hi in Hi'. injection Hi' as <-. rewrite Hout.
    destruct (decide (S i = length questions)); [lia|].
    by destruct (a =? QuizGame.correctAnswer q)%Z.
Qed.

(** The built-in questions: the second one timed out, which forfeits the
    third; the others answered correctly. *)
Lemma report_marks_only_last_unanswered_example :
  exists st r,
    QuizGame.play (lit "Software Testing") (lit "medium") QuizGame.mockQuestions
      (QuizGame.initial QuizGame.mockQuestions) [0; -1; -1; 2; 1]%Z = Some st /\
    QuizGame.navigated st = [r] /\
    QuizGame.userAnswer <$> QuizGame.rs_questions r
      = [QuizGame.correct; QuizGame.incorrect; QuizGame.incorrect; QuizGame.correct;
         QuizGame.correct] /\
    ResultsPage.unansweredQuestions r <= 1.
Proof.
  destruct (report_marks_only_last_unanswered (lit "Software Testing") (lit "medium")
              QuizGame.mockQuestions [0; -1; -1; 2; 1]%Z)
    as (st & r & Hplay & Hnav & _ & _ & Hone).
  - cbn. lia.
  - reflexivity.
  - exists st, r.
    assert (Hst := Hplay). vm_compute in Hst. injection Hst as <-.
    assert (Hr := Hnav). vm_compute in Hr. injection Hr as <-.
    split; [exact Hplay|]. split; [exact Hnav|]. split; [|exact Hone].
    vm_compute. reflexivity.
Defined.

(** X16. With questions whose correctAnswer is never the sentinel -1, the
    score a completed session hands to the results page is the number of
    questions the page counts as correct, and it never exceeds the number of
    questions. *)
Theorem report_score_is_correct_count
    (topic difficulty : jsstring) (questions : list QuizGame.Question) (answers : list Z) :
  0 < length questions ->
  length answers = length questions ->
  Forall (fun q => QuizGame.correctAnswer q <> (-1)%Z) questions ->
  exists st r,
    QuizGame.play topic difficulty questions (QuizGame.initial questions) answers
      = Some st /\
    QuizGame.navigated st = [r] /\
    QuizGame.rs_score r = Z.of_nat (ResultsPage.correctAnswers r) /\
    ResultsPage.correctAnswers r <= QuizGame.totalQuestions r /\
    QuizGame.totalQuestions r = length questions.
Proof.
  intros Hn Hlen Hvalid.
  destruct (play_all topic difficulty questions answers Hlen Hn) as (st & Hplay & Hdone).
  destruct (score_counts_correct topic difficulty questions answers st Hlen Hvalid Hdone)
    as (r & Hnav & Hscore).
  destruct (completed_results topic difficulty questions answers st Hlen Hdone)
    as (r' & Hnav' & _ & Htotal & _).
  rewrite Hnav in Hnav'. injection Hnav' as <-.
  exists st, r. split_and!; try done.
  rewrite Htotal.
  assert (length (QuizGame.rs_questions r) = length questions) as <-.
  { destruct Hdone as (p & Hp & _). rewrite Hnav in Hp. injection Hp as ->.
    cbn. by rewrite length_imap. }
  pose proof (counts_partition r). lia.
Qed.

(** The built-in questions: two answered correctly, one wrongly, the fourth
    timed out, which forfeits the fifth. *)
Lemma report_score_is_correct_count_example :
  exists st r,
    QuizGame.play (lit "Software Testing") (lit "medium") QuizGame.mockQuestions
      (QuizGame.initial QuizGame.mockQuestions) [0; 1; 0; -1; -1]%Z = Some st /\
    QuizGame.navigated st = [r] /\
    QuizGame.rs_score r = 2%Z /\
    ResultsPage.correctAnswers r = 2.
Proof.
  destruct (report_score_is_correct_count (lit "Software Testing") (lit "medium")
              QuizGame.mockQuestions [0; 1; 0; -1; -1]%Z)
    as (st & r & Hplay & Hnav & Hscore & _).
  - cbn. lia.
  - reflexivity.
  - repeat constructor; done.
  - exists st, r.
    assert (Hst := Hplay). vm_compute in Hst. injection Hst as <-.
    assert (Hr := Hnav). vm_compute in Hr. injection Hr as <-.
    split; [exact Hplay|]. split; [exact Hnav|].
    split; vm_compute; reflexivity.
Defined.

(** ** The review of the missed questions *)

Section DeepDiveFacts.

Variable JSON_parse : jsstring -> Completion JSValue.
Variable nullRead : jsstring -> Thrown.
Variable network : DeepDive.Network.

(** The fetch-based [generateHint] returns, and what it returns is truthy. *)
Lemma client_hint_truthy fetched :
  exists hint,
    Client.generateHint JSON_parse nullRead fetched = Return hint /\ truthy hint = true.
Proof.
  assert (truthy (JString fallbackHint) = true) as Hfallback by done.
  destruct fetched as [e|status bodyText]; unfold Client.generateHint; cbn [tryCatch].
  - by eexists.
  - destruct (negb (Client.ok status)); [by eexists|].
    destruct (JSON_parse bodyText) as [data|e]; cbn; [|by eexists].
    destruct (getProp nullRead data (lit "hint")) as [[v|]|e]; cbn; try by eexists.
    destruct (truthy v) eqn:Hv; by eexists.
Qed.

(** The loop, from a state in which no hint is loading. *)
Lemma prefetch_spec missed st :
  DeepDive.loadingIds st = [] ->
  let st' := DeepDive.prefetch JSON_parse nullRead network missed st in
  DeepDive.error st' = DeepDive.error st /\
  DeepDive.loadingIds st' = [] /\
  DeepDive.sent st' = DeepDive.sent st ++ (DeepDive.requestOf <$> missed) /\
  (forall k, (forall q, q ∈ missed -> DeepDive.id q <> k) ->
     DeepDive.hints st' !! k = DeepDive.hints st !! k) /\
  (forall k h, DeepDive.hints st !! k = Some h -> truthy h = true ->
     exists h', DeepDive.hints st' !! k = Some h' /\ truthy h' = true) /\
  (forall i q, missed !! i = Some q ->
     (forall j q', i < j -> missed !! j = Some q' -> DeepDive.id q' <> DeepDive.id q) ->
     exists h,
       DeepDive.hints st' !! DeepDive.id q = Some h /\
       Client.generateHint JSON_parse nullRead
         (network (length (DeepDive.sent st) + i) (DeepDive.requestOf q)) = Return h) /\
  (forall q, q ∈ missed ->
     exists h, DeepDive.hints st' !! DeepDive.id q = Some h /\ truthy h = true).
Proof.
  revert st. induction missed as [|q rest IH]; intros st Hloading st'.
  - subst st'. cbn. rewrite app_nil_r. split_and!; try done.
    + intros k h Hk Hh. by exists h.
    + intros q Hq. by apply elem_of_nil in Hq.
  - subst st'. cbn [DeepDive.prefetch].
    destruct (client_hint_truthy (network (length (DeepDive.sent st)) (DeepDive.requestOf q)))
      as (h & Hcall & Hh).
    rewrite Hcall, Hloading.
    set (st1 := {| DeepDive.hints := <[DeepDive.id q:=h]> (DeepDive.hints st);
                   DeepDive.loadingIds := _; DeepDive.error := _; DeepDive.sent := _ |}).
    assert (DeepDive.loadingIds st1 = []) as Hloading1.
    { unfold st1. cbn [DeepDive.loadingIds app]. rewrite filter_cons_False; [done|].
      by intros H. }
    destruct (IH st1 Hloading1) as (Herr & Hload & Hsent & Hkeep & Hmono & Hown & Hall).
    assert (length (DeepDive.sent st1) = S (length (DeepDive.sent st))) as Hlen.
    { cbn. rewrite length_app. cbn. lia. }
    split_and!.
    + done.
    + done.
    + rewrite Hsent. cbn. by rewrite <- app_assoc.
    + intros k Hk. rewrite Hkeep.
      * cbn. apply lookup_insert_ne. apply Hk. by left.
      * intros q' Hq'. apply Hk. by right.
    + intros k h0 Hk Hh0. destruct (decide (DeepDive.id q = k)) as [<-|Hne].
      * apply (Hmono (DeepDive.id q) h); [|done]. cbn. apply lookup_insert_eq.
      * apply (Hmono k h0); [|done]. cbn. by rewrite lookup_insert_ne.
    + intros [|i] q' Hq' Hlater.
      * injection Hq' as <-. exists h. rewrite Nat.add_0_r. split; [|done].
        rewrite Hkeep.
        -- cbn. apply lookup_insert_eq.
        -- intros q' Hq'. apply list_elem_of_lookup in Hq' as [j Hj].
           apply (Hlater (S j)); [lia|done].
      * destruct (Hown i q' Hq') as (h' & Hh' & Hcall').
        { intros j q'' Hj Hq''. apply (Hlater (S j)); [lia|done]. }
        exists h'. split; [done|]. rewrite <- Hcall'. do 2 f_equal. lia.
    + intros q' Hq'. apply elem_of_cons in Hq' as [->|Hq'].
      * apply (Hmono (DeepDive.id q) h); [|done]. cbn. apply lookup_insert_eq.
      * by apply Hall.
Qed.

End DeepDiveFacts.

(** X17. The hint pre-fetch of the review page, for every list of missed
    questions and whatever the network does: the loop asks for exactly one
    hint per missed question, in order, never ends in its error branch, and
    leaves no question marked as loading. Afterwards every missed question
    has a truthy hint under its id, so the page shows a hint for it and
    never the placeholder; a question whose id no later question shares
    shows the hint that its own request returned. *)
Theorem deep_dive_prefetch
    (JSON_parse : jsstring -> Completion JSValue) (nullRead : jsstring -> Thrown)
    (network : DeepDive.Network) (missed : list DeepDive.MissedQuestion) :
  let st := DeepDive.prefetch JSON_parse nullRead network missed DeepDive.initial in
  DeepDive.error st = None /\
  DeepDive.loadingIds st = [] /\
  DeepDive.sent st = DeepDive.requestOf <$> missed /\
  (forall q, q ∈ missed ->
     DeepDive.hints st !! DeepDive.id q = Some (DeepDive.shownHint st q) /\
     truthy (DeepDive.shownHint st q) = true) /\
  (forall i q, missed !! i = Some q ->
     (forall j q', i < j -> missed !! j = Some q' -> DeepDive.id q' <> DeepDive.id q) ->
     Client.generateHint JSON_parse nullRead (network i (DeepDive.requestOf q))
     = Return (DeepDive.shownHint st q)).
Proof.
  intros st.
  destruct (prefetch_spec JSON_parse nullRead network missed DeepDive.initial eq_refl)
    as (Herr & Hload & Hsent & _ & _ & Hown & Hall).
  fold st in Herr, Hload, Hsent, Hown, Hall.
  assert (forall q h, DeepDive.hints st !! DeepDive.id q = Some h -> truthy h = true ->
            DeepDive.shownHint st q = h) as Hshown.
  { intros q h Hq Hh. unfold DeepDive.shownHint. by rewrite Hq, Hh. }
  split_and!; try done.
  - intros q Hq. destruct (Hall q Hq) as (h & Hh & Htruthy).
    by rewrite (Hshown q h Hh Htruthy).
  - intros i q Hq Hlater. destruct (Hown i q Hq Hlater) as (h & Hh & Hcall).
    destruct (Hall q) as (h' & Hh' & Htruthy); [by eapply list_elem_of_lookup_2|].
    rewrite Hh in Hh'. injection Hh' as <-.
    by rewrite (Hshown q h Hh Htruthy).
Qed.

(** X18. Opened from the results page, the review asks for its hints with
    the word incorrect as the user's answer: the entries the results page
    hands over carry the outcome, not the option the player chose, so every
    hint request holds the question text and the string incorrect; there is
    one request per question counted as incorrect. *)
Theorem deep_dive_sends_outcome
    (JSON_parse : jsstring -> Completion JSValue) (nullRead : jsstring -> Thrown)
    (network : DeepDive.Network) (s : QuizGame.ResultsState) :
  let missed := DeepDive.ofResult <$> ResultsPage.missedQuestions s in
  let st := DeepDive.prefetch JSON_parse nullRead network missed DeepDive.initial in
  DeepDive.sent st
    = (fun entry =>
         {| DeepDive.hr_question := QuizGame.question (QuizGame.r_question entry);
            DeepDive.hr_userAnswer := Some (lit "incorrect") |})
      <$> ResultsPage.missedQuestions s /\
  length (DeepDive.sent st) = ResultsPage.incorrectAnswers s.
Proof.
  intros missed st.
  destruct (prefetch_spec JSON_parse nullRead network missed DeepDive.initial eq_refl)
    as (_ & _ & Hsent & _).
  fold st in Hsent. cbn [DeepDive.sent DeepDive.initial app] in Hsent.
  rewrite Hsent. subst missed. rewrite !length_fmap. split; [|done].
  unfold ResultsPage.missedQuestions, ResultsPage.withOutcome.
  induction (QuizGame.rs_questions s) as [|entry l IH]; [done|].
  rewrite filter_cons. case_decide as Hentry; [|done].
  cbn [fmap list_fmap]. f_equal; [|exact IH].
  unfold DeepDive.requestOf, DeepDive.userAnsText, DeepDive.ofResult.
  cbn [DeepDive.userAnswer DeepDive.question]. by rewrite Hentry.
Qed.

(** ** What no event ever takes back *)

(** X19. From every state of the quiz screen, reachable or not, one event
    that does not fail never takes anything back: the score stays or grows by
    one, a question once marked as answered stays marked, the navigations
    made so far stay and at most one is added, and only the 3-second callback
    changes the current question. *)
Theorem step_never_takes_back (topic difficulty : jsstring)
    (questions : list QuizGame.Question) (st st' : QuizGame.State) (e : QuizGame.Event) :
  QuizGame.step topic difficulty questions st e = Some st' ->
  (QuizGame.score st <= QuizGame.score st' <= QuizGame.score st + 1)%Z /\
  (forall i,
     QuizGame.answeredAt (QuizGame.answeredQuestions st) i = true ->
     QuizGame.answeredAt (QuizGame.answeredQuestions st') i = true) /\
  QuizGame.navigated st `prefix_of` QuizGame.navigated st' /\
  length (QuizGame.navigated st') <= S (length (QuizGame.navigated st)) /\
  (QuizGame.currentQuestionIndex st' <> QuizGame.currentQuestionIndex st ->
   e = QuizGame.ResultDelay).
Proof.
  assert (forall a s s', QuizGame.handleAnswerSelect questions a s = Some s' ->
    (QuizGame.score s <= QuizGame.score s' <= QuizGame.score s + 1)%Z /\
    (forall i,
       QuizGame.answeredAt (QuizGame.answeredQuestions s) i = true ->
       QuizGame.answeredAt (QuizGame.answeredQuestions s') i = true) /\
    QuizGame.navigated s' = QuizGame.navigated s /\
    QuizGame.currentQuestionIndex s' = QuizGame.currentQuestionIndex s) as Hselect.
  { intros a s s'. unfold QuizGame.handleAnswerSelect.
    destruct (_ || _).
    - intros [= <-]. split; [lia|done].
    - destruct (questions !! QuizGame.currentQuestionIndex s) as [q|]; [|done].
      cbn [mbind option_bind]. intros [= <-].
      cbn [QuizGame.score QuizGame.answeredQuestions QuizGame.navigated
           QuizGame.currentQuestionIndex].
      split; [|split; [|done]].
      + destruct (a =? QuizGame.correctAnswer q)%Z; lia.
      + intros i. unfold QuizGame.answeredAt.
        destruct (decide (i = QuizGame.currentQuestionIndex s)) as [->|Hne].
        * destruct (QuizGame.answeredQuestions s !! QuizGame.currentQuestionIndex s)
            as [b|] eqn:Hb; [|done].
          apply lookup_lt_Some in Hb. by rewrite list_lookup_insert_eq.
        * by rewrite list_lookup_insert_ne. }
  assert (forall s : QuizGame.State,
    (QuizGame.score s <= QuizGame.score s <= QuizGame.score s + 1)%Z /\
    (forall i,
       QuizGame.answeredAt (QuizGame.answeredQuestions s) i = true ->
       QuizGame.answeredAt (QuizGame.answeredQuestions s) i = true) /\
    QuizGame.navigated s `prefix_of` QuizGame.navigated s /\
    length (QuizGame.navigated s) <= S (length (QuizGame.navigated s)) /\
    (QuizGame.currentQuestionIndex s <> QuizGame.currentQuestionIndex s ->
     e = QuizGame.ResultDelay)) as Hsame.
  { intros s. split; [lia|]. split; [done|]. split; [done|]. split; [lia|done]. }
  assert (forall a, QuizGame.handleAnswerSelect questions a st = Some st' ->
    (QuizGame.score st <= QuizGame.score st' <= QuizGame.score st + 1)%Z /\
    (forall i,
       QuizGame.answeredAt (QuizGame.answeredQuestions st) i = true ->
       QuizGame.answeredAt (QuizGame.answeredQuestions st') i = true) /\
    QuizGame.navigated st `prefix_of` QuizGame.navigated st' /\
    length (QuizGame.navigated st') <= S (length (QuizGame.navigated st)) /\
    (QuizGame.currentQuestionIndex st' <> QuizGame.currentQuestionIndex st ->
     e = QuizGame.ResultDelay)) as Hhandled.
  { intros a Hcall. destruct (Hselect a st st' Hcall) as (Hs & Ha & Hn & Hi).
    rewrite Hn, Hi. split; [done|]. split; [done|]. split; [done|]. split; [lia|done]. }
  intros Hstep. destruct e as [a| | | |]; cbn [QuizGame.step] in Hstep.
  - by apply (Hhandled a).
  - injection Hstep as <-. unfold QuizGame.resultDelay.
    destruct (QuizGame.scheduled st) as [|p later]; [apply Hsame|].
    destruct (_ <? _)%Z;
      cbn [QuizGame.score QuizGame.answeredQuestions QuizGame.navigated
           QuizGame.currentQuestionIndex].
    + split; [lia|]. split; [done|]. split; [done|]. split; [lia|done].
    + split; [lia|]. split; [done|]. split; [by apply prefix_app_r|].
      split; [|done]. rewrite length_app. cbn [length]. lia.
  - injection Hstep as <-. exact (Hsame st).
  - unfold QuizGame.afterTimerEffect in Hstep.
    destruct (QuizGame.timerEffect st).
    + injection Hstep as <-. apply Hsame.
    + by apply (Hhandled (-1)%Z).
    + injection Hstep as <-. apply Hsame.
  - injection Hstep as <-. exact (Hsame st).
Qed.

(** A correct answer on the first built-in question scores one point. *)
Lemma step_never_takes_back_example :
  exists st',
    QuizGame.step (lit "Software Testing") (lit "medium") QuizGame.mockQuestions
      (QuizGame.initial QuizGame.mockQuestions) (QuizGame.Select 0) = Some st' /\
    QuizGame.score st' = 1%Z /\
    (QuizGame.score (QuizGame.initial QuizGame.mockQuestions) <= QuizGame.score st'
     <= QuizGame.score (QuizGame.initial QuizGame.mockQuestions) + 1)%Z.
Proof.
  eexists. split; [reflexivity|]. split; [reflexivity|].
  exact (proj1 (step_never_takes_back (lit "Software Testing") (lit "medium")
                  QuizGame.mockQuestions (QuizGame.initial QuizGame.mockQuestions) _
                  (QuizGame.Select 0) eq_refl)).
Defined.

(** ** The question after a timed-out one *)

(** X20. When the timer of a question ran out (the clock stands at 0 while
    its result shows) and the 3-second callback moves on to the next
    question, that question is forfeited at once: the effects of the new
    render run in the order of the source, the timer effect first, and it
    still sees the clock at 0, so it calls [handleAnswerSelect(-1)] for the
    new question before the timer-update effect resets the clock. The new
    question is marked as answered with the sentinel recorded, its result
    shows, and the player never got to answer it. *)
Theorem timeout_forfeits_next_question (topic difficulty : jsstring)
    (questions : list QuizGame.Question) (st : QuizGame.State)
    (p : QuizGame.Pending) (later : list QuizGame.Pending) :
  let next := S (QuizGame.p_index p) in
  QuizGame.scheduled st = p :: later ->
  next < length questions ->
  QuizGame.timeLeft st = 0%Z ->
  length (QuizGame.answeredQuestions st) = length questions ->
  length (QuizGame.userAnswers st) = length questions ->
  QuizGame.answeredAt (QuizGame.answeredQuestions st) next = false ->
  exists st' q,
    QuizGame.steps topic difficulty questions st
      [QuizGame.ResultDelay; QuizGame.TimerEffect; QuizGame.TimerReset] = Some st' /\
    questions !! next = Some q /\
    QuizGame.currentQuestionIndex st' = next /\
    QuizGame.showResult st' = true /\
    QuizGame.selectedAnswer st' = Some (-1)%Z /\
    QuizGame.answeredAt (QuizGame.answeredQuestions st') next = true /\
    QuizGame.userAnswers st' !! next = Some (-1)%Z /\
    QuizGame.score st' =
      (if (-1 =? QuizGame.correctAnswer q)%Z then QuizGame.score st + 1
       else QuizGame.score st)%Z /\
    QuizGame.timeLeft st' = QuizGame.timeLimitAt questions next.
Proof.
  intros next Hsched Hnext Hzero Hanswered Hanswers Hopen.
  destruct (lookup_lt_is_Some_2 questions next Hnext) as [q Hq].
  cbn [QuizGame.steps QuizGame.step mbind option_bind].
  unfold QuizGame.resultDelay. rewrite Hsched.
  destruct (Z.ltb_spec (Z.of_nat (QuizGame.p_index p)) (Z.of_nat (length questions) - 1));
    [|lia].
  replace (QuizGame.p_index p + 1) with next by (unfold next; lia).
  unfold QuizGame.afterTimerEffect, QuizGame.timerEffect.
  cbn [QuizGame.timeLeft QuizGame.showResult QuizGame.answeredQuestions
       QuizGame.currentQuestionIndex].
  rewrite Hzero, Hopen. cbn [Z.ltb Z.eqb Z.compare andb negb].
  unfold QuizGame.handleAnswerSelect.
  cbn [QuizGame.timeLeft QuizGame.showResult QuizGame.answeredQuestions
       QuizGame.currentQuestionIndex].
  rewrite Hopen, Hq. cbn [orb mbind option_bind].
  eexists _, q. split; [reflexivity|].
  cbn [QuizGame.timerReset QuizGame.currentQuestionIndex QuizGame.showResult
       QuizGame.selectedAnswer QuizGame.answeredQuestions QuizGame.userAnswers
       QuizGame.score QuizGame.timeLeft].
  split_and!; try done.
  - unfold QuizGame.answeredAt. by rewrite list_lookup_insert_eq by lia.
  - by rewrite list_lookup_insert_eq by lia.
Qed.

(** The built-in questions: the first one times out after its 30 seconds,
    and the second one is forfeited the moment it appears. *)
Lemma timeout_forfeits_next_question_example :
  QuizGame.timeLeft Examples.firstTimedOut = 0%Z /\
  QuizGame.currentQuestionIndex Examples.firstTimedOut = 0 /\
  QuizGame.answeredQuestions Examples.firstTimedOut = [true; false; false; false; false] /\
  exists st',
    QuizGame.steps (lit "Software Testing") (lit "medium") QuizGame.mockQuestions
      Examples.firstTimedOut
      [QuizGame.ResultDelay; QuizGame.TimerEffect; QuizGame.TimerReset] = Some st' /\
    QuizGame.currentQuestionIndex st' = 1 /\
    QuizGame.showResult st' = true /\
    QuizGame.selectedAnswer st' = Some (-1)%Z /\
    QuizGame.answeredAt (QuizGame.answeredQuestions st') 1 = true /\
    QuizGame.timeLeft st' = 30%Z.
Proof.
  split; [vm_compute; reflexivity|]. split; [vm_compute; reflexivity|].
  split; [vm_compute; reflexivity|].
  edestruct (timeout_forfeits_next_question (lit "Software Testing") (lit "medium")
               QuizGame.mockQuestions Examples.firstTimedOut)
    as (st' & q & Hrun & _ & Hi & Hshow & Hsel & Hans & _ & _ & Htime).
  - vm_compute. reflexivity.
  - cbn. lia.
  - vm_compute. reflexivity.
  - vm_compute. reflexivity.
  - vm_compute. reflexivity.
  - vm_compute. reflexivity.
  - exists st'. split; [exact Hrun|]. split; [exact Hi|]. split; [exact Hshow|].
    split; [exact Hsel|]. split; [exact Hans|]. exact Htime.
Defined.
